(** * Unity test adapter: discovery, result parsing and run orchestration

    A shallow embedding of [src/adapter.ts] (class [UnityAdapter]).

    Strings are lists of code units; the embedding covers code units below
    256 (Latin-1), written as [ascii].  The pattern matcher follows the
    backtracking semantics of ECMAScript regular expressions: a matcher takes
    a position, the captures so far and a continuation, and a quantifier is
    greedy and gives characters back when the continuation fails. *)

From Stdlib Require Import Ascii String Arith Bool ZArith Lia List.
Import ListNotations.

Set Implicit Arguments.
#[global] Set Warnings "-register-all".

(** ** Strings *)

Definition str (s : string) : list ascii := list_ascii_of_string s.

Definition code (a : ascii) : nat := nat_of_ascii a.

Definition ascii_eqb (a b : ascii) : bool := Ascii.eqb a b.

(** ECMAScript LineTerminator, restricted to Latin-1: LF and CR. *)
Definition is_line_terminator (a : ascii) : bool :=
  (code a =? 10) || (code a =? 13).

(** [\s]: WhiteSpace and LineTerminator, restricted to Latin-1:
    TAB, LF, VT, FF, CR, SP and NBSP. *)
Definition is_space (a : ascii) : bool :=
  ((9 <=? code a) && (code a <=? 13)) || (code a =? 32) || (code a =? 160).

(** [\S] *)
Definition is_nonspace (a : ascii) : bool := negb (is_space a).

(** [.] without the [s] flag *)
Definition is_dot (a : ascii) : bool := negb (is_line_terminator a).

(** [[0-9]] *)
Definition is_digit (a : ascii) : bool := (48 <=? code a) && (code a <=? 57).

(** [\w] *)
Definition is_word (a : ascii) : bool :=
  is_digit a
  || ((65 <=? code a) && (code a <=? 90))
  || ((97 <=? code a) && (code a <=? 122))
  || (code a =? 95).

(** [[\/\\]] *)
Definition is_separator (a : ascii) : bool := (code a =? 47) || (code a =? 92).

(** Canonicalize of the [i] flag (no [u] flag): toUpperCase when the result is
    one code unit and does not turn a non-ASCII unit into an ASCII one.  In
    Latin-1 that is a-z and the letters 224..254 except the division sign;
    sharp s, micro and y-diaeresis keep their value. *)
Definition canonicalize (a : ascii) : ascii :=
  let n := code a in
  if (97 <=? n) && (n <=? 122) then ascii_of_nat (n - 32)
  else if (224 <=? n) && (n <=? 254) && negb (n =? 247) then ascii_of_nat (n - 32)
  else a.

(** [String.prototype.substring(i, j)] for [i <= j]. *)
Definition substring (s : list ascii) (i j : nat) : list ascii :=
  firstn (j - i) (skipn i s).

(** [String.prototype.split('\n')]: the segments between line feeds. *)
Fixpoint split_nl (s : list ascii) : list (list ascii) :=
  match s with
  | [] => [[]]
  | a :: s' =>
      if code a =? 10 then [] :: split_nl s'
      else match split_nl s' with
           | seg :: segs => (a :: seg) :: segs
           | [] => [[a]]
           end
  end.

(** Number of line feeds of a string. *)
Definition count_nl (s : list ascii) : nat :=
  length (filter (fun a => code a =? 10) s).

(** ** Regular expressions *)

Module Regex.

Inductive regex : Type :=
| Empty
| Chr (a : ascii)
| Cls (p : ascii -> bool)
| Bol
| Seq (r1 r2 : regex)
| Alt (r1 r2 : regex)
| Star (r : regex)
| Group (g : nat) (r : regex).

(** [r+] *)
Definition Plus (r : regex) : regex := Seq r (Star r).

(** A run of literal characters. *)
Fixpoint Lit (l : list ascii) : regex :=
  match l with
  | [] => Empty
  | a :: l' => Seq (Chr a) (Lit l')
  end.

Record flags : Type := { ignoreCase : bool; multiline : bool }.

Definition no_flags : flags := {| ignoreCase := false; multiline := false |}.

(** Captures: group number, start and end; the latest binding comes first. *)
Definition caps : Type := list (nat * (nat * nat)).

Fixpoint cap_get (g : nat) (c : caps) : option (nat * nat) :=
  match c with
  | [] => None
  | (g', se) :: c' => if g =? g' then Some se else cap_get g c'
  end.

Definition Cont : Type := nat -> caps -> option (nat * caps).

(** RepeatMatcher with min 0 and max infinity: one more iteration of [body]
    is tried first, an iteration that consumes nothing is refused, and the
    continuation is tried when no further iteration leads to a match. *)
Fixpoint star_loop (body : nat -> caps -> Cont -> option (nat * caps))
    (k : Cont) (n : nat) (i : nat) (c : caps) : option (nat * caps) :=
  match n with
  | 0 => k i c
  | S n' =>
      match body i c (fun j c' => if i <? j then star_loop body k n' j c' else None) with
      | Some x => Some x
      | None => k i c
      end
  end.

Section Matcher.

Variable fl : flags.
Variable s : list ascii.

Definition char_eq (a b : ascii) : bool :=
  if ignoreCase fl then ascii_eqb (canonicalize a) (canonicalize b)
  else ascii_eqb a b.

(** [^]: the start of the input, or with the [m] flag the position after a
    line terminator. *)
Definition at_line_start (i : nat) : bool :=
  match i with
  | 0 => true
  | S i' =>
      if multiline fl then
        match nth_error s i' with
        | Some a => is_line_terminator a
        | None => false
        end
      else false
  end.

Fixpoint m (r : regex) (i : nat) (c : caps) (k : Cont) {struct r}
  : option (nat * caps) :=
  match r with
  | Empty => k i c
  | Chr a =>
      match nth_error s i with
      | Some b => if char_eq a b then k (S i) c else None
      | None => None
      end
  | Cls p =>
      match nth_error s i with
      | Some b => if p b then k (S i) c else None
      | None => None
      end
  | Bol => if at_line_start i then k i c else None
  | Seq r1 r2 => m r1 i c (fun j c' => m r2 j c' k)
  | Alt r1 r2 =>
      match m r1 i c k with
      | Some x => Some x
      | None => m r2 i c k
      end
  | Star r1 => star_loop (m r1) k (S (length s - i)) i c
  | Group g r1 => m r1 i c (fun j c' => k j ((g, (i, j)) :: c'))
  end.

Definition accept : Cont := fun j c => Some (j, c).

Record match_result : Type :=
  { index : nat; last : nat; groups : caps }.

(** The pattern tried at [i], [i+1], ..., [i+n]. *)
Fixpoint exec_from (r : regex) (n : nat) (i : nat) : option match_result :=
  match m r i [] accept with
  | Some (j, c) => Some {| index := i; last := j; groups := c |}
  | None =>
      match n with
      | 0 => None
      | S n' => exec_from r n' (S i)
      end
  end.

(** RegExpBuiltinExec from [lastIndex]; a pattern without the [g] flag is
    called with [lastIndex = 0]. *)
Definition exec (r : regex) (lastIndex : nat) : option match_result :=
  if lastIndex <=? length s then exec_from r (length s - lastIndex) lastIndex
  else None.

(** [match[0]] and [match[g]]; a group that took no part is [undefined]. *)
Definition matched (mr : match_result) : list ascii :=
  substring s (index mr) (last mr).

Definition group (g : nat) (mr : match_result) : option (list ascii) :=
  match cap_get g (groups mr) with
  | Some (i, j) => Some (substring s i j)
  | None => None
  end.

(** Declarative matching: [matches r i c j c'] when [r] can consume the input
    from [i] to [j] turning the captures [c] into [c']. *)
Inductive matches : regex -> nat -> caps -> nat -> caps -> Prop :=
| M_Empty i c : matches Empty i c i c
| M_Chr a b i c :
    nth_error s i = Some b -> char_eq a b = true ->
    matches (Chr a) i c (S i) c
| M_Cls p b i c :
    nth_error s i = Some b -> p b = true ->
    matches (Cls p) i c (S i) c
| M_Bol i c : at_line_start i = true -> matches Bol i c i c
| M_Seq r1 r2 i c j c' l c'' :
    matches r1 i c j c' -> matches r2 j c' l c'' ->
    matches (Seq r1 r2) i c l c''
| M_AltL r1 r2 i c j c' : matches r1 i c j c' -> matches (Alt r1 r2) i c j c'
| M_AltR r1 r2 i c j c' : matches r2 i c j c' -> matches (Alt r1 r2) i c j c'
| M_Star0 r i c : matches (Star r) i c i c
| M_StarS r i c j c' l c'' :
    matches r i c j c' -> i < j -> matches (Star r) j c' l c'' ->
    matches (Star r) i c l c''
| M_Group g r i c j c' :
    matches r i c j c' -> matches (Group g r) i c j ((g, (i, j)) :: c').

(** [reads i j l]: the input reads [l] from position [i] to position [j]. *)
Definition reads (i j : nat) (l : list ascii) : Prop :=
  skipn i s = l ++ skipn j s /\ j = i + length l.

End Matcher.

(** Whether a pattern has no group. *)
Fixpoint nocap (r : regex) : bool :=
  match r with
  | Empty | Chr _ | Cls _ | Bol => true
  | Seq r1 r2 | Alt r1 r2 => nocap r1 && nocap r2
  | Star r1 => nocap r1
  | Group _ _ => false
  end.

(** Two patterns that the matcher cannot tell apart. *)
Definition same (r r' : regex) : Prop :=
  forall fl s i c (k : Cont), m fl s r i c k = m fl s r' i c k.

End Regex.

(** ** Pattern sources

    [new RegExp(source)] without flags: the source is read as the pattern
    grammar of ECMAScript with its compatibility rules for the web (a brace
    or closing bracket that opens no quantifier or class stands for itself,
    a backslash before a character without a meaning of its own yields that
    character).  The result is the pattern, a [SyntaxError], or [Unparsed]
    for the syntax that the embedding does not follow: the end-of-input
    assertion, lazy and braced quantifiers, a quantifier over a group that
    captures, look-around and named groups, back references, word
    boundaries and numeric, control, hexadecimal and unicode escapes. *)

Module Syntax.
Import Regex.

Inductive compiled (A : Type) : Type :=
| Pattern (a : A)
| SyntaxError
| Unparsed.

Arguments Pattern {A} a.
Arguments SyntaxError {A}.
Arguments Unparsed {A}.

(** SyntaxCharacter of the pattern grammar. *)
Definition is_syntax_character (a : ascii) : bool :=
  existsb (ascii_eqb a) (str "^$\.*+?()[]{}|").

Definition one_of (a : ascii) (text : string) : bool :=
  existsb (ascii_eqb a) (str text).

(** The pieces of a pattern source. *)
Inductive token : Type :=
| TAtom (r : regex)
| TBol
| TOpen (capturing : bool)
| TClose
| TBar
| TStar
| TPlus
| TQuest.

(** The members of a character class. *)
Inductive class_item : Type :=
| CChar (a : ascii)
| CRange (lo hi : ascii)
| CSet (p : ascii -> bool).

Definition item_has (it : class_item) (a : ascii) : bool :=
  match it with
  | CChar b => ascii_eqb b a
  | CRange lo hi => (code lo <=? code a) && (code a <=? code hi)
  | CSet p => p a
  end.

Fixpoint class_has (items : list class_item) (a : ascii) : bool :=
  match items with
  | [] => false
  | [it] => item_has it a
  | it :: items' => item_has it a || class_has items' a
  end.

Definition class_pred (negated : bool) (items : list class_item) : ascii -> bool :=
  if negated then fun a => negb (class_has items a) else class_has items.

(** The character of a control escape. *)
Definition control_escape (b : ascii) : option ascii :=
  if ascii_eqb b "t" then Some (ascii_of_nat 9)
  else if ascii_eqb b "n" then Some (ascii_of_nat 10)
  else if ascii_eqb b "v" then Some (ascii_of_nat 11)
  else if ascii_eqb b "f" then Some (ascii_of_nat 12)
  else if ascii_eqb b "r" then Some (ascii_of_nat 13)
  else None.

(** The set of a class escape. *)
Definition class_escape_set (b : ascii) : option (ascii -> bool) :=
  if ascii_eqb b "d" then Some is_digit
  else if ascii_eqb b "D" then Some (fun a => negb (is_digit a))
  else if ascii_eqb b "s" then Some is_space
  else if ascii_eqb b "S" then Some is_nonspace
  else if ascii_eqb b "w" then Some is_word
  else if ascii_eqb b "W" then Some (fun a => negb (is_word a))
  else None.

(** A backslash and [b] outside of a class. *)
Definition atom_escape (b : ascii) : compiled regex :=
  match class_escape_set b with
  | Some p => Pattern (Cls p)
  | None =>
      match control_escape b with
      | Some a => Pattern (Chr a)
      | None =>
          if is_digit b || one_of b "bBckux" then Unparsed
          else Pattern (Chr b)
      end
  end.

(** A backslash and [b] inside of a class. *)
Definition class_escape (b : ascii) : compiled class_item :=
  match class_escape_set b with
  | Some p => Pattern (CSet p)
  | None =>
      match control_escape b with
      | Some a => Pattern (CChar a)
      | None =>
          if ascii_eqb b "b" then Pattern (CChar (ascii_of_nat 8))
          else if is_digit b || one_of b "ckux" then Unparsed
          else Pattern (CChar b)
      end
  end.

Fixpoint skip_digits (s : list ascii) : list ascii :=
  match s with
  | a :: s' => if is_digit a then skip_digits s' else s
  | [] => []
  end.

(** Whether the text after an opening brace makes a braced quantifier:
    digits, then a closing brace, or a comma, digits or none, and a closing
    brace. *)
Definition braced (s : list ascii) : bool :=
  match s with
  | a :: _ =>
      is_digit a &&
      match skip_digits s with
      | b :: s' =>
          ascii_eqb b "}" ||
          (ascii_eqb b "," &&
           match skip_digits s' with
           | c :: _ => ascii_eqb c "}"
           | [] => false
           end)
      | [] => false
      end
  | [] => false
  end.

Definition cons_token (t : token) (p : compiled (list token))
  : compiled (list token) :=
  match p with
  | Pattern ts => Pattern (t :: ts)
  | SyntaxError => SyntaxError
  | Unparsed => Unparsed
  end.

(** The source cut into pieces, from left to right: [tokens] outside of a
    class, [in_class] between the brackets of a class. *)
Fixpoint tokens (s : list ascii) {struct s} : compiled (list token) :=
  match s with
  | [] => Pattern []
  | a :: s1 =>
      if is_syntax_character a then
        if ascii_eqb a "\" then
          match s1 with
          | [] => SyntaxError
          | b :: s2 =>
              match atom_escape b with
              | Pattern r => cons_token (TAtom r) (tokens s2)
              | SyntaxError => SyntaxError
              | Unparsed => Unparsed
              end
          end
        else if ascii_eqb a "[" then
          match s1 with
          | b :: s2 =>
              if ascii_eqb b "^" then in_class s2 true []
              else in_class s1 false []
          | [] => SyntaxError
          end
        else if ascii_eqb a "(" then
          match s1 with
          | b :: s2 =>
              if ascii_eqb b "?" then
                match s2 with
                | c :: s3 =>
                    if ascii_eqb c ":" then cons_token (TOpen false) (tokens s3)
                    else Unparsed
                | [] => SyntaxError
                end
              else cons_token (TOpen true) (tokens s1)
          | [] => cons_token (TOpen true) (tokens s1)
          end
        else if ascii_eqb a ")" then cons_token TClose (tokens s1)
        else if ascii_eqb a "|" then cons_token TBar (tokens s1)
        else if ascii_eqb a "*" then cons_token TStar (tokens s1)
        else if ascii_eqb a "+" then cons_token TPlus (tokens s1)
        else if ascii_eqb a "?" then cons_token TQuest (tokens s1)
        else if ascii_eqb a "^" then cons_token TBol (tokens s1)
        else if ascii_eqb a "$" then Unparsed
        else if ascii_eqb a "." then cons_token (TAtom (Cls is_dot)) (tokens s1)
        else if ascii_eqb a "{" then
          if braced s1 then Unparsed
          else cons_token (TAtom (Chr a)) (tokens s1)
        else cons_token (TAtom (Chr a)) (tokens s1)
      else cons_token (TAtom (Chr a)) (tokens s1)
  end
with in_class (s : list ascii) (negated : bool) (items : list class_item)
    {struct s} : compiled (list token) :=
  match s with
  | [] => SyntaxError
  | a :: s1 =>
      if ascii_eqb a "]" then
        cons_token (TAtom (Cls (class_pred negated (rev items)))) (tokens s1)
      else if ascii_eqb a "\" then
        match s1 with
        | [] => SyntaxError
        | b :: s2 =>
            match class_escape b with
            | Pattern it =>
                match s2 with
                | d :: e :: _ =>
                    if ascii_eqb d "-" && negb (ascii_eqb e "]") then Unparsed
                    else in_class s2 negated (it :: items)
                | _ => in_class s2 negated (it :: items)
                end
            | SyntaxError => SyntaxError
            | Unparsed => Unparsed
            end
        end
      else
        match s1 with
        | d :: hi :: s3 =>
            if ascii_eqb d "-" && negb (ascii_eqb hi "]") then
              if ascii_eqb hi "\" then Unparsed
              else if code a <=? code hi
                   then in_class s3 negated (CRange a hi :: items)
                   else SyntaxError
            else in_class s1 negated (CChar a :: items)
        | _ => in_class s1 negated (CChar a :: items)
        end
  end.

(** What the last term of an alternative is to a quantifier that follows:
    nothing to repeat, an atom, or a term that has its quantifier. *)
Inductive tail_kind : Type := NoAtom | Atom | Quantified.

(** A disjunction that is being read: of a group that captures, or not; the
    alternatives that are complete and the terms of the alternative that is
    being read, the latest first. *)
Record frame : Type :=
  { capture : option nat;
    alts : list regex;
    terms : list regex;
    tail : tail_kind }.

Definition new_frame (capture : option nat) : frame :=
  {| capture := capture; alts := []; terms := []; tail := NoAtom |}.

Definition push (r : regex) (k : tail_kind) (f : frame) : frame :=
  {| capture := capture f; alts := alts f; terms := r :: terms f; tail := k |}.

Definition seq_of (terms : list regex) : regex :=
  fold_left (fun acc t => Seq t acc) terms Empty.

Definition disj_of (alts : list regex) (last : regex) : regex :=
  fold_left (fun acc a => Alt a acc) alts last.

Definition next_alt (f : frame) : frame :=
  {| capture := capture f; alts := seq_of (terms f) :: alts f; terms := [];
     tail := NoAtom |}.

Definition close (f : frame) : regex :=
  let body := disj_of (alts f) (seq_of (terms f)) in
  match capture f with
  | Some g => Group g body
  | None => body
  end.

(** A quantifier after the terms of [f]. *)
Definition quantify (q : regex -> regex) (lazy : bool) (f : frame)
  : compiled frame :=
  match tail f, terms f with
  | Atom, r :: rest =>
      if nocap r then
        Pattern {| capture := capture f; alts := alts f; terms := q r :: rest;
                   tail := Quantified |}
      else Unparsed
  | Quantified, _ => if lazy then Unparsed else SyntaxError
  | _, _ => SyntaxError
  end.

(** The pattern of the pieces: [cur] is the disjunction being read, [stack]
    the disjunctions around it, [g] the number of the next group. *)
Fixpoint build (ts : list token) (cur : frame) (stack : list frame) (g : nat)
  {struct ts} : compiled regex :=
  match ts with
  | [] =>
      match stack with
      | [] => Pattern (close cur)
      | _ :: _ => SyntaxError
      end
  | t :: ts' =>
      let quantified q lazy :=
        match quantify q lazy cur with
        | Pattern cur' => build ts' cur' stack g
        | SyntaxError => SyntaxError
        | Unparsed => Unparsed
        end in
      match t with
      | TAtom r => build ts' (push r Atom cur) stack g
      | TBol => build ts' (push Bol NoAtom cur) stack g
      | TOpen true => build ts' (new_frame (Some g)) (cur :: stack) (S g)
      | TOpen false => build ts' (new_frame None) (cur :: stack) g
      | TClose =>
          match stack with
          | [] => SyntaxError
          | parent :: stack' => build ts' (push (close cur) Atom parent) stack' g
          end
      | TBar => build ts' (next_alt cur) stack g
      | TStar => quantified Star false
      | TPlus => quantified Plus false
      | TQuest => quantified (fun r => Alt r Empty) true
      end
  end.

(** [new RegExp(source)] *)
Definition compile (source : list ascii) : compiled regex :=
  match tokens source with
  | Pattern ts => build ts (new_frame None) [] 1
  | SyntaxError => SyntaxError
  | Unparsed => Unparsed
  end.

End Syntax.

(** ** Tool output and test tree *)

Definition id := list ascii.

(** [TestInfo] and [TestSuiteInfo] of the test adapter API. *)
Inductive node : Type :=
| Test (test_id : id) (label : list ascii) (file : list ascii) (line : nat)
| Suite (suite_id : id) (label : list ascii) (file : option (list ascii))
        (children : list node).

Definition node_id (n : node) : id :=
  match n with
  | Test i _ _ _ => i
  | Suite i _ _ _ => i
  end.

Definition node_label (n : node) : list ascii :=
  match n with
  | Test _ l _ _ => l
  | Suite _ l _ _ => l
  end.

Definition node_children (n : node) : list node :=
  match n with
  | Test _ _ _ _ => []
  | Suite _ _ _ ch => ch
  end.

Definition is_suite (n : node) : bool :=
  match n with
  | Test _ _ _ _ => false
  | Suite _ _ _ _ => true
  end.

Definition str_eqb (a b : list ascii) : bool :=
  if list_eq_dec ascii_dec a b then true else false.

Inductive suite_state : Type := SuiteRunning | SuiteCompleted.

Inductive test_state : Type := Running | Passed | Failed.

(** A Number of the source as far as a line number goes: a double that holds
    an integer, the positive infinity, or NaN. *)
Inductive number : Type :=
| Finite (z : Z)
| Infinity
| NaN.

(** [message] is [undefined] when the group that gives it took no part in
    the match. *)
Record decoration : Type :=
  { dec_line : number; dec_message : option (list ascii) }.

(** What [testStatesEmitter] fires. *)
Inductive event : Type :=
| RunStarted (tests : list id)
| RunFinished
| SuiteEvent (suite : id) (st : suite_state)
| TestEvent (test : id) (st : test_state) (decorations : list decoration).

(** [{ error, stdout, stderr }] of a finished process. *)
Record RunResult : Type :=
  { error : option (list ascii); stdout : list ascii; stderr : list ascii }.

(** What [testsEmitter] fires. *)
Inductive load_event : Type :=
| LoadStarted
| LoadFinished (suite : node).

(** Effects of the adapter seen from outside, in the order they happen:
    events fired, [vscode.window.showErrorMessage], the processes started by
    [runMake] and [runExe], and [fs.watchFile]. *)
Inductive action : Type :=
| Fire (e : event)
| FireLoad (e : load_event)
| ShowError (msg : list ascii)
| Make (args : list ascii)
| Exe (exePath : list ascii)
| WatchFile (fullPath : list ascii).

(** The functions of Node's [path] module that the adapter calls. *)
Record path_api : Type :=
  { relative : list ascii -> list ascii -> list ascii;
    resolve : list ascii -> list ascii -> list ascii;
    join : list (list ascii) -> list ascii;
    basename : list ascii -> list ascii;
    extname : list ascii -> list ascii;
    sep : list ascii }.

(** ** The patterns of the adapter *)

Module Patterns.
Import Regex.

Definition testFunctionPrefix : list ascii := str "test_".
Definition testFileSuffix : list ascii := str "_test".
Definition headerExtension : list ascii := str "h".
Definition sourceExtension : list ascii := str "c".

Definition chr (c : string) : ascii :=
  match c with
  | String a _ => a
  | EmptyString => zero
  end.

Definition ws : regex := Cls is_space.
Definition dot : regex := Cls is_dot.

(** The tail of the result pattern: a colon, then group 2 around the
    alternative of PASS and group 3, which is FAIL, colon, space and group 4
    around any run of characters of the line. *)
Definition testResultString : regex :=
  Seq (Chr (chr ":"))
      (Group 2 (Alt (Lit (str "PASS"))
                    (Group 3 (Seq (Lit (str "FAIL: ")) (Group 4 (Star dot)))))).

Definition is_syntax_character (a : ascii) : bool :=
  Syntax.is_syntax_character a.

(** The result pattern around a label that is itself a pattern: a colon,
    group 1 around one or more digits, a colon, any run of characters of the
    line, the label, and [testResultString]. *)
Definition result_pattern (label : regex) : regex :=
  Seq (Chr (chr ":"))
 (Seq (Group 1 (Plus (Cls is_digit)))
 (Seq (Chr (chr ":"))
 (Seq (Star dot)
 (Seq label testResultString)))).

(** [new RegExp(':([0-9]+):.*' + node.label + this.testResultString)]: the
    label is spliced into the source as it is. *)
Definition testResultSource (label : list ascii) : list ascii :=
  str ":([0-9]+):.*" ++ label ++ str ":(PASS|(FAIL: (.*)))".

Definition testResultRegex (label : list ascii) : Syntax.compiled regex :=
  Syntax.compile (testResultSource label).

(** The source file pattern.  In the template literal of the source the
    escaped dot cooks to a plain dot and the brackets form one character class
    of the four characters ( h ) c, so the pattern is: any run of characters,
    any character, one character of the class. *)
Definition sourceFileRegex : regex :=
  Seq (Star dot)
      (Seq dot (Cls (fun a => existsb (ascii_eqb a)
                      (str "(" ++ headerExtension ++ str ")(" ++ sourceExtension ++ str ")")))).

(** The test file pattern.  The escaped dot of the template literal cooks to a
    plain dot: any run of characters, the suffix, any character, c. *)
Definition testSourceRegex : regex :=
  Seq (Star dot) (Seq (Lit testFileSuffix) (Seq dot (Lit sourceExtension))).

(** The declaration pattern, flags [gm]; each piece is given beside its
    term. *)
Definition testNameRegex : regex :=
  Seq Bol                                      (* ^ *)
 (Seq (Star ws)                                (* \s* *)
 (Seq (Lit (str "void"))                       (* void *)
 (Seq (Plus ws)                                (* \s+ *)
 (Seq (Group 1 (Lit testFunctionPrefix))       (* group 1: test_ *)
 (Seq (Group 2 (Star dot))                     (* group 2: .* *)
 (Seq (Star (Seq (Chr (chr "\")) (Plus ws)))   (* backslash and \s+, repeated *)
 (Seq (Star dot)                               (* .* *)
 (Seq (Star ws)                                (* \s* *)
 (Seq (Chr (chr "("))                          (* an opening parenthesis *)
 (Seq (Star ws)                                (* \s* *)
 (Seq (Group 3 (Star dot))                     (* group 3: .* *)
 (Seq (Star ws)                                (* \s* *)
      (Chr (chr ")")))))))))))))).             (* a closing parenthesis *)

(** The part of the declaration pattern after group 2. *)
Definition declaration_tail : regex :=
  Seq (Star (Seq (Chr (chr "\")) (Plus ws)))
 (Seq (Star dot)
 (Seq (Star ws)
 (Seq (Chr (chr "("))
 (Seq (Star ws)
 (Seq (Group 3 (Star dot))
 (Seq (Star ws)
      (Chr (chr ")")))))))).

Definition testNameFlags : flags := {| ignoreCase := false; multiline := true |}.

(** The label pattern: the start of the input, group 1 around the prefix and
    group 2 around the rest of the line. *)
Definition testLabelRegex : regex :=
  Seq Bol (Seq (Group 1 (Lit testFunctionPrefix)) (Group 2 (Star dot))).

(** The file label pattern, flag [i]: group 1 around a word character, a
    colon, any run of characters and a slash or backslash; group 2 around any
    run of characters; group 3 around the suffix; group 4 around dot c. *)
Definition fileLabelRegex : regex :=
  Seq (Group 1 (Seq (Cls is_word)
               (Seq (Chr (chr ":"))
               (Seq (Star dot) (Cls is_separator)))))
 (Seq (Group 2 (Star dot))
 (Seq (Group 3 (Lit testFileSuffix))
      (Group 4 (Lit (str ".c"))))).

Definition fileLabelFlags : flags := {| ignoreCase := true; multiline := false |}.

End Patterns.

(** The outcome of an asynchronous function: the value its promise resolves
    to, a rejected promise, a promise that never settles, or a step that the
    embedding does not follow (a label whose pattern syntax is not read, see
    [Syntax]). *)
Inductive outcome (A : Type) : Type :=
| Returned (a : A)
| Rejected
| Diverged
| Unmodelled.

Arguments Returned {A} a.
Arguments Rejected {A}.
Arguments Diverged {A}.
Arguments Unmodelled {A}.

(** ** Result parser *)

Module Parser.
Import Regex Patterns.

(** The value of the leading decimal digits. *)
Definition digits_value (ds : list ascii) : Z :=
  (fix go (acc : Z) (l : list ascii) : Z :=
     match l with
     | a :: l' =>
         if is_digit a then go (10 * acc + Z.of_nat (code a - 48))%Z l' else acc
     | [] => acc
     end) 0%Z ds.

(** The Number for the integer [z], not negative: [z] itself up to 2^53,
    else the nearest double, the one with the even significand when two are
    as near, and the infinity from 2^1024 on. *)
Definition to_double (z : Z) : number :=
  let e := (Z.log2 z - 52)%Z in
  if (e <=? 0)%Z then Finite z
  else
    let q := Z.shiftr z e in
    let r := (z - Z.shiftl q e)%Z in
    let half := Z.shiftl 1 (e - 1) in
    let q' :=
      if (half <? r)%Z || ((r =? half)%Z && Z.odd q) then (q + 1)%Z else q in
    let v := Z.shiftl q' e in
    if (Z.shiftl 1 1024 <=? v)%Z then Infinity else Finite v.

(** [parseInt(match[1])] on what group 1 of a result pattern can give: a run
    of digits, whose value is rounded to a Number, or [undefined], here the
    empty text, which gives NaN.  (White space, a sign and a hexadecimal
    prefix, which [parseInt] reads as well, cannot come first: the group is
    a run of digits.  The value is rounded as V8 rounds it, to the nearest
    Number; ECMAScript lets an implementation replace the digits after the
    twentieth by zeros first.) *)
Definition parseInt (text : list ascii) : number :=
  match text with
  | a :: _ => if is_digit a then to_double (digits_value text) else NaN
  | [] => NaN
  end.

(** [x - 1] for [x] not negative. *)
Definition minus_one (x : number) : number :=
  match x with
  | Finite z => if (z =? 0)%Z then Finite (-1) else to_double (z - 1)
  | Infinity => Infinity
  | NaN => NaN
  end.

Definition text_of (o : option (list ascii)) : list ascii :=
  match o with
  | Some t => t
  | None => []
  end.

(** [checkTestResult]: how the call ends and the events it fires for [node]
    on the captured output, in order.  The running event is fired first; the
    pattern is built next, and [new RegExp] throws when the source is no
    pattern, which rejects the promise of [checkTestResult]. *)
Definition checkTestResult (n : node) (suiteResult : list ascii)
  : outcome unit * list event :=
  let running := TestEvent (node_id n) Running [] in
  match testResultRegex (node_label n) with
  | Syntax.SyntaxError => (Rejected, [running])
  | Syntax.Unparsed => (Unmodelled, [running])
  | Syntax.Pattern testResultRegex =>
      match exec no_flags suiteResult testResultRegex 0 with
      | Some mr =>
          if match group suiteResult 2 mr with
             | Some g => str_eqb g (str "PASS")
             | None => false
             end
          then (Returned tt, [running; TestEvent (node_id n) Passed []])
          else (Returned tt,
                [running;
                 TestEvent (node_id n) Failed
                   [{| dec_line := minus_one (parseInt (text_of (group suiteResult 1 mr)));
                       dec_message := group suiteResult 4 mr |}]])
      | None => (Returned tt, [running])
      end
  end.

End Parser.

(** ** Labels and test extraction *)

Module Loader.
Import Regex Patterns.

Section WithPath.

Variable P : path_api.
Variable workspacePath : list ascii.
Variable isPrettyTestLabelEnable : bool.
Variable isPrettyTestFileLabelEnable : bool.

Definition setTestLabel (testName : list ascii) : list ascii :=
  if isPrettyTestLabelEnable then
    match exec no_flags testName testLabelRegex 0 with
    | Some mr => Parser.text_of (group testName 2 mr)
    | None => testName
    end
  else testName.

Definition setFileLabel (fileName : list ascii) : list ascii :=
  let fileLabel := relative P workspacePath fileName in
  if isPrettyTestFileLabelEnable then
    match exec fileLabelFlags fileName fileLabelRegex 0 with
    | Some mr => Parser.text_of (group fileName 2 mr)
    | None => fileLabel
    end
  else fileLabel.

(** [String.prototype.search] with the pattern [\S]: the index of the first
    match, or -1. *)
Definition search_nonspace (t : list ascii) : Z :=
  match exec no_flags t (Cls is_nonspace) 0 with
  | Some mr => Z.of_nat (index mr)
  | None => (-1)%Z
  end.

(** [substr(0, len)]; a negative length gives the empty string. *)
Definition substr0 (t : list ascii) (len : Z) : list ascii :=
  firstn (Z.to_nat len) t.

(** The line that [loadTests] records for a match of the declaration
    pattern. *)
Definition test_line (fileText : list ascii) (mr : match_result) : nat :=
  let line := length (split_nl (substr0 fileText (Z.of_nat (index mr)))) - 1 in
  let m0 := matched fileText mr in
  line + length (split_nl (substr0 m0 (search_nonspace m0))) - 1.

Definition test_of_match (file fileText : list ascii) (mr : match_result) : node :=
  let testName :=
    Parser.text_of (group fileText 1 mr) ++ Parser.text_of (group fileText 2 mr) in
  Test (file ++ str "::" ++ testName) (setTestLabel testName) file
       (test_line fileText mr).

(** The [while (match != null)] loop over a pattern with the [g] flag: every
    [exec] starts at [lastIndex], the end of the previous match.  [None] when
    the fuel runs out, which is the loop that does not end. *)
Fixpoint extract (fuel : nat) (file fileText : list ascii) (lastIndex : nat)
  : option (list node) :=
  match fuel with
  | 0 => None
  | S fuel' =>
      match exec testNameFlags fileText testNameRegex lastIndex with
      | Some mr =>
          match extract fuel' file fileText (last mr) with
          | Some tests => Some (test_of_match file fileText mr :: tests)
          | None => None
          end
      | None => Some []
      end
  end.

(** [fs.promises.readFile(file, 'utf8')]; [None] when the promise is
    rejected. *)
Variable readFile : list ascii -> option (list ascii).

Definition loadSuite (file : list ascii) : outcome node :=
  let fileLabel := setFileLabel file in
  match readFile file with
  | None => Rejected
  | Some fileText =>
      match extract (S (length fileText)) file fileText 0 with
      | Some tests => Returned (Suite file fileLabel (Some file) tests)
      | None => Diverged
      end
  end.

Fixpoint loadSuites (files : list (list ascii)) : outcome (list node) :=
  match files with
  | [] => Returned []
  | file :: files' =>
      match loadSuite file with
      | Returned suite =>
          match loadSuites files' with
          | Returned suites => Returned (suite :: suites)
          | Rejected => Rejected
          | Diverged => Diverged
          | Unmodelled => Unmodelled
          end
      | Rejected => Rejected
      | Diverged => Diverged
      | Unmodelled => Unmodelled
      end
  end.

Definition loadTests (files : list (list ascii)) : outcome node :=
  match loadSuites files with
  | Returned suites => Returned (Suite (str "root") (str "Unity") None suites)
  | Rejected => Rejected
  | Diverged => Diverged
  | Unmodelled => Unmodelled
  end.

End WithPath.

End Loader.

(** ** Source scanner *)

Module Scanner.
Import Regex Patterns.

(** What the file system holds at a path: a regular file; a directory that
    [readdir] lists ([lstat] of a symbolic link to a directory is not a file
    and [readdir] follows the link); anything else that [lstat] answers, for
    which [isFile()] is false and [readdir] is rejected (a directory that may
    not be read, a link to a file, a socket); or a path for which [lstat]
    itself is rejected (an entry that was removed after [readdir] listed it,
    an entry of a directory that may be read but not searched), and so is
    [readdir]. *)
Inductive entry : Type :=
| RegularFile
| Directory (items : list (list ascii * entry))
| Other
| NoStat.

(** [fileRegex.test(item)] for a pattern without flags. *)
Definition test (fileRegex : regex) (item : list ascii) : bool :=
  match exec no_flags item fileRegex 0 with
  | Some _ => true
  | None => false
  end.

Section Scan.

Variable P : path_api.

(** [getFileList]: the outcome with the paths returned, and the error
    messages shown.  When [readdir] is rejected the [catch] block shows the
    message and returns [['']]; the [finally] block then loops over the empty
    [filesAndFolders] and leaves that return value in place.  The loop of the
    [finally] block is outside of the [try]: when [lstat] of an item is
    rejected, or the scan of a subdirectory is, [getFileList] is rejected at
    that item, after the messages shown so far. *)
Fixpoint getFileList (filePath : list ascii) (e : entry) (fileRegex : regex)
  {struct e} : outcome (list (list ascii)) * list action :=
  match e with
  | Directory filesAndFolders =>
      (fix each (l : list (list ascii * entry)) (files : list (list ascii))
           (shown : list action) {struct l}
         : outcome (list (list ascii)) * list action :=
         match l with
         | [] => (Returned files, shown)
         | (item, sub) :: l' =>
             let fullPath := resolve P filePath item in
             match sub with
             | NoStat => (Rejected, shown)
             | RegularFile =>
                 if test fileRegex item then each l' (files ++ [fullPath]) shown
                 else each l' files shown
             | _ =>
                 match getFileList fullPath sub fileRegex with
                 | (Returned found, shown') =>
                     each l' (files ++ found) (shown ++ shown')
                 | (Rejected, shown') => (Rejected, shown ++ shown')
                 | (Diverged, shown') => (Diverged, shown ++ shown')
                 | (Unmodelled, shown') => (Unmodelled, shown ++ shown')
                 end
             end
         end) filesAndFolders [] []
  | _ => (Returned [str ""], [ShowError (str "Cannot find test result path!")])
  end.

End Scan.

End Scanner.

(** ** Loading *)

Module Load.
Import Regex Patterns Scanner Loader.

Record adapter : Type :=
  { testSuiteInfo : node;
    watchedFileForAutorunList : list (list ascii);
    watchedFileForReloadList : list (list ascii) }.

Definition includes (l : list (list ascii)) (file : list ascii) : bool :=
  existsb (str_eqb file) l.

Section WithWorld.

Variable P : path_api.
Variable workspacePath projectSourcePath testSourcePath : list ascii.
Variable isPrettyTestLabelEnable isPrettyTestFileLabelEnable : bool.

(** The file system: what is found at a scan root, and [readFile]. *)
Variable lookup : list ascii -> entry.
Variable readFile : list ascii -> option (list ascii).

(** [watchFilesForAutorun] and [watchFilesForReload]: the list after the
    call and the files newly watched. *)
Fixpoint watchFiles (watched files : list (list ascii))
  : list (list ascii) * list action :=
  match files with
  | [] => (watched, [])
  | file :: files' =>
      if includes watched file then watchFiles watched files'
      else
        let (watched', acts) := watchFiles (watched ++ [file]) files' in
        (watched', WatchFile (resolve P workspacePath file) :: acts)
  end.

(** What [load] leaves when one of its steps does not return: the adapter as
    it is and the effects so far. *)
Definition stopped {A : Type} (o : outcome A) (a : adapter)
    (effects : list action) : outcome unit * adapter * list action :=
  (match o with
   | Returned _ => Returned tt
   | Rejected => Rejected
   | Diverged => Diverged
   | Unmodelled => Unmodelled
   end, a, effects).

(** [load]: the outcome, the adapter afterwards and the effects.  The two
    scans come first; the files are watched when both have returned. *)
Definition load (a : adapter) : outcome unit * adapter * list action :=
  match getFileList P projectSourcePath (lookup projectSourcePath)
                    sourceFileRegex with
  | (Returned sourceFiles, shown1) =>
      match getFileList P testSourcePath (lookup testSourcePath)
                        testSourceRegex with
      | (Returned testFiles, shown2) =>
          let (auto1, w1) := watchFiles (watchedFileForAutorunList a) sourceFiles in
          let (auto2, w2) := watchFiles auto1 testFiles in
          let (reload, w3) := watchFiles (watchedFileForReloadList a) testFiles in
          let before :=
            [FireLoad LoadStarted] ++ shown1 ++ shown2 ++ w1 ++ w2 ++ w3 in
          let watching :=
            {| testSuiteInfo := testSuiteInfo a;
               watchedFileForAutorunList := auto2;
               watchedFileForReloadList := reload |} in
          match loadTests P workspacePath isPrettyTestLabelEnable
                          isPrettyTestFileLabelEnable readFile testFiles with
          | Returned suite =>
              (Returned tt,
               {| testSuiteInfo := suite;
                  watchedFileForAutorunList := auto2;
                  watchedFileForReloadList := reload |},
               before ++ [FireLoad (LoadFinished suite)])
          | o => stopped o watching before
          end
      | (o, shown2) => stopped o a ([FireLoad LoadStarted] ++ shown1 ++ shown2)
      end
  | (o, shown1) => stopped o a ([FireLoad LoadStarted] ++ shown1)
  end.

End WithWorld.

End Load.

(** ** Run orchestrator *)

Module Orchestrator.
Import Regex Patterns.

(** [TestSuiteInfo.file] and [TestInfo.file]. *)
Definition node_file (n : node) : option (list ascii) :=
  match n with
  | Test _ _ f _ => Some f
  | Suite _ _ f _ => f
  end.

Fixpoint findSuite (searchNode : node) (i : id) {struct searchNode} : option node :=
  match searchNode with
  | Test _ _ _ _ => None
  | Suite _ _ _ children =>
      (fix each (l : list node) : option node :=
         match l with
         | [] => None
         | child :: l' =>
             if str_eqb (node_id child) i then
               if is_suite child then Some child else Some searchNode
             else if is_suite child then
               match findSuite child i with
               | Some found => Some found
               | None => each l'
               end
             else each l'
         end) children
  end.

Fixpoint findNode (searchNode : node) (i : id) {struct searchNode} : option node :=
  if str_eqb (node_id searchNode) i then Some searchNode
  else
    match searchNode with
    | Test _ _ _ _ => None
    | Suite _ _ _ children =>
        (fix each (l : list node) : option node :=
           match l with
           | [] => None
           | child :: l' =>
               match findNode child i with
               | Some found => Some found
               | None => each l'
               end
           end) children
    end.

Fixpoint prefixb (p t : list ascii) : bool :=
  match p, t with
  | [], _ => true
  | a :: p', b :: t' => ascii_eqb a b && prefixb p' t'
  | _ :: _, [] => false
  end.

(** [String.prototype.replace] with a string pattern and a replacement
    without dollar signs: the first occurrence is replaced. *)
Fixpoint replace_first (t pat rep : list ascii) {struct t} : list ascii :=
  if prefixb pat t then rep ++ skipn (length pat) t
  else
    match t with
    | [] => []
    | a :: t' => a :: replace_first t' pat rep
    end.

(** [replace(/\\/g, '/')] *)
Definition slashes (t : list ascii) : list ascii :=
  map (fun a => if ascii_eqb a (chr "\") then chr "/" else a) t.

(** [String.prototype.search] with a string without syntax characters. *)
Definition search_text (t text : list ascii) : Z :=
  match exec no_flags t (Lit text) 0 with
  | Some mr => Z.of_nat (index mr)
  | None => (-1)%Z
  end.

Definition quote : list ascii := [ascii_of_nat 34].

Definition newline : list ascii := [ascii_of_nat 10].

Definition file_in_use : list ascii :=
  str "The process cannot access the file because it is being used by another process".

(** A computation that appends to the trace of effects. *)
Definition Run (A : Type) : Type := list action -> outcome A * list action.

Definition ret {A : Type} (a : A) : Run A := fun tr => (Returned a, tr).

Definition bind {A B : Type} (c : Run A) (f : A -> Run B) : Run B :=
  fun tr =>
    match c tr with
    | (Returned a, tr') => f a tr'
    | (Rejected, tr') => (Rejected, tr')
    | (Diverged, tr') => (Diverged, tr')
    | (Unmodelled, tr') => (Unmodelled, tr')
    end.

Definition emit (a : action) : Run unit := fun tr => (Returned tt, tr ++ [a]).

Definition throw {A : Type} : Run A := fun tr => (Rejected, tr).

Definition unmodelled {A : Type} : Run A := fun tr => (Unmodelled, tr).

Notation "x <- c1 ;; c2" := (bind c1 (fun x => c2))
  (at level 61, c1 at next level, right associativity).
Notation "c1 ;; c2" := (bind c1 (fun _ => c2))
  (at level 61, right associativity).

Fixpoint for_each {A : Type} (l : list A) (body : A -> Run unit) : Run unit :=
  match l with
  | [] => ret tt
  | a :: l' => body a ;; for_each l' body
  end.

Section Run.

Variable P : path_api.
Variable workspacePath testBuildPath : list ascii.
Variable testBuildCommandArgs foldersCommandArgs : list ascii.

(** The outside world: the result of the process whose start is the last
    action of the trace. *)
Variable world : list action -> RunResult.

Variable testSuiteInfo : node.

Definition runMake (makeArgs : list ascii) : Run RunResult :=
  fun tr => let tr' := tr ++ [Make makeArgs] in (Returned (world tr'), tr').

Definition runExe (exePath : list ascii) : Run RunResult :=
  fun tr => let tr' := tr ++ [Exe exePath] in (Returned (world tr'), tr').

Definition createFolders : Run RunResult := runMake foldersCommandArgs.

Definition exeName (file : list ascii) : list ascii :=
  replace_first (basename P file) (extname P file) (str ".exe").

(** The argument string that [buildTest] passes to [runMake] and the
    command that [runTest] passes to [runExe]. *)
Definition buildCommand (file : list ascii) : list ascii :=
  let exePath := join P [testBuildPath; sep P; exeName file] in
  let exePath := slashes exePath in
  testBuildCommandArgs ++ str " " ++ exePath.

Definition exeCommand (file : list ascii) : list ascii :=
  let exePath := join P [testBuildPath; sep P; exeName file] in
  quote ++ join P [workspacePath; exePath] ++ quote.

(** [buildTest] and [runTest] return [undefined] for a node without file. *)
Definition buildTest (n : node) : Run (option RunResult) :=
  match node_file n with
  | Some file =>
      result <- runMake (buildCommand file) ;;
      ret (Some result)
  | None => ret None
  end.

Definition runTest (n : node) : Run (option RunResult) :=
  match node_file n with
  | Some file =>
      result <- runExe (exeCommand file) ;;
      ret (Some result)
  | None => ret None
  end.

(** The trace when the build of [suite] has been started. *)
Definition suite_started (suite : node) (file : list ascii) (tr : list action)
  : list action :=
  tr ++ [Fire (SuiteEvent (node_id suite) SuiteRunning);
         Make (buildCommand file)].

(** The result that [runSuiteExe] returns: the result of the build when it
    failed, else the result of the executable. *)
Definition suite_result (suite : node) (file : list ascii) (tr : list action)
  : RunResult :=
  let build := world (suite_started suite file tr) in
  match error build with
  | Some _ => build
  | None =>
      world (suite_started suite file tr ++
             [Exe (exeCommand file)])
  end.

(** The effects of [runSuiteExe]. *)
Definition suite_effects (suite : node) (file : list ascii) (tr : list action)
  : list action :=
  let build := world (suite_started suite file tr) in
  [Fire (SuiteEvent (node_id suite) SuiteRunning);
   Make (buildCommand file)] ++
  match error build with
  | Some e =>
      [ShowError (str "Cannot build test executable. Make error:" ++ newline ++ e)]
  | None => [Exe (exeCommand file)]
  end ++
  [Fire (SuiteEvent (node_id suite) SuiteCompleted)].

(** [result.error] is [null] or an [Error]; [truthy_error] is its truth
    value. *)
Definition truthy_error (r : RunResult) : bool :=
  match error r with
  | Some _ => true
  | None => false
  end.

(** [!result.stdout] *)
Definition no_stdout (r : RunResult) : bool :=
  match stdout r with
  | [] => true
  | _ :: _ => false
  end.

Definition runSuiteExe (n : node) : Run (option RunResult) :=
  emit (Fire (SuiteEvent (node_id n) SuiteRunning)) ;;
  result <- buildTest n ;;
  match result with
  | None => throw
  | Some r =>
      result <-
        match error r with
        | Some e =>
            emit (ShowError (str "Cannot build test executable. Make error:"
                             ++ newline ++ e)) ;;
            ret (Some r)
        | None => runTest n
        end ;;
      emit (Fire (SuiteEvent (node_id n) SuiteCompleted)) ;;
      ret result
  end.

Definition checkTestResult (n : node) (suiteResult : list ascii) : Run unit :=
  fun tr =>
    let (o, events) := Parser.checkTestResult n suiteResult in
    (o, tr ++ map Fire events).

Definition fail_children (suite : node) : Run unit :=
  for_each (node_children suite)
    (fun child => emit (Fire (TestEvent (node_id child) Failed []))).

Definition cannot_run (suiteOrTestId : id) : action :=
  ShowError (str "Cannot run test executable for " ++ suiteOrTestId ++ str " .").

(** The body of the loop of [runSuites]. *)
Definition runSuiteOrTest (suiteOrTestId : id) : Run unit :=
  match findSuite testSuiteInfo suiteOrTestId with
  | Some suite =>
      if is_suite suite then
        result <- runSuiteExe suite ;;
        match result with
        | None => throw
        | Some result =>
            if str_eqb suiteOrTestId (node_id suite) then
              if truthy_error result && no_stdout result then
                fail_children suite ;;
                if (search_text (stderr result) file_in_use =? 0)%Z then ret tt
                else emit (cannot_run suiteOrTestId)
              else
                for_each (node_children suite)
                  (fun child =>
                     if is_suite child then ret tt
                     else checkTestResult child (stdout result))
            else
              if truthy_error result && no_stdout result then
                fail_children suite ;;
                emit (cannot_run suiteOrTestId)
              else
                match findNode testSuiteInfo suiteOrTestId with
                | Some n =>
                    if is_suite n then ret tt
                    else checkTestResult n (stdout result)
                | None => ret tt
                end
        end
      else ret tt
  | None => ret tt
  end.

Definition runSuites (tests : list id) : Run unit :=
  for_each tests runSuiteOrTest.

Definition folders_error : list ascii :=
  str "Cannot run make target to create folders needed for output. Please check foldersCommandArgs in settings.".

(** The first block of [run] and of [debug]: the folders of the output are
    made when [foldersCommandArgs] is not the empty string. *)
Definition prepareFolders : Run unit :=
  match foldersCommandArgs with
  | [] => ret tt
  | _ :: _ =>
      result <- createFolders ;;
      if truthy_error result then emit (ShowError folders_error) else ret tt
  end.

Definition run (tests : list id) : Run unit :=
  emit (Fire (RunStarted tests)) ;;
  prepareFolders ;;
  (if match nth_error tests 0 with
      | Some first => str_eqb first (str "root")
      | None => false
      end
   then
     for_each (node_children testSuiteInfo)
       (fun suite =>
          if is_suite suite then runSuites [node_id suite] else ret tt)
   else runSuites tests) ;;
  emit (Fire RunFinished).

End Run.

End Orchestrator.

(** ** Process coordinator

    [runMake] and [runExe] on the event loop.  A caller is a sequence of
    calls to [runMake] and [runExe], each awaited before the next.  The code
    between two [await]s runs as one step:

    - [Call t]: caller [t] enters [runMake] or [runExe] and reaches
      [await mutex.acquire()];
    - [Resume t]: the promise of [acquire] has resolved and the caller goes
      on: the body of [try] evaluates [new Promise(...)], whose executor
      starts the process with [child_process.exec]; [return] leaves the
      [try] block with that promise, not awaited, so the [finally] block
      calls [release()] right away; the caller then waits for the promise;
    - [Exit p r]: process [p] ends and its callback resolves the promise
      with [r]. *)

Module Coordinator.

Inductive domain : Type := Build | Execute.

Definition domain_eqb (a b : domain) : bool :=
  match a, b with
  | Build, Build => true
  | Execute, Execute => true
  | _, _ => false
  end.

(** A mutex of async-mutex: whether it is held, and the callers whose
    [acquire] is pending, in arrival order. *)
Record mutex : Type := { locked : bool; queue : list nat }.

Definition free : mutex := {| locked := false; queue := [] |}.

(** [acquire()] by caller [t]: the mutex afterwards and whether the promise
    resolves at once. *)
Definition acquire (t : nat) (mu : mutex) : mutex * bool :=
  if locked mu then ({| locked := true; queue := queue mu ++ [t] |}, false)
  else ({| locked := true; queue := queue mu |}, true).

(** [release()]: the mutex passes to the first pending caller, if any. *)
Definition release (mu : mutex) : mutex * option nat :=
  match queue mu with
  | [] => ({| locked := false; queue := [] |}, None)
  | t :: q => ({| locked := true; queue := q |}, Some t)
  end.

Inductive phase : Type :=
| Idle
| Waiting (d : domain) (cmd : list ascii)
| Granted (d : domain) (cmd : list ascii)
| Awaiting (d : domain) (p : nat).

Record caller : Type :=
  { ph : phase;
    todo : list (domain * list ascii);
    results : list RunResult }.

Record process : Type := { pid : nat; dom : domain; command : list ascii }.

Record state : Type :=
  { makeMutex : mutex;
    suiteMutex : mutex;
    callers : list caller;
    running : list process;
    spawned : nat;
    makeProcess : option nat;
    suiteProcess : option nat }.

Inductive label : Type :=
| Call (t : nat)
| Resume (t : nat)
| Exit (p : nat) (r : RunResult).

Definition mutex_of (d : domain) (st : state) : mutex :=
  match d with
  | Build => makeMutex st
  | Execute => suiteMutex st
  end.

Definition with_mutex (d : domain) (mu : mutex) (st : state) : state :=
  match d with
  | Build =>
      {| makeMutex := mu; suiteMutex := suiteMutex st; callers := callers st;
         running := running st; spawned := spawned st;
         makeProcess := makeProcess st; suiteProcess := suiteProcess st |}
  | Execute =>
      {| makeMutex := makeMutex st; suiteMutex := mu; callers := callers st;
         running := running st; spawned := spawned st;
         makeProcess := makeProcess st; suiteProcess := suiteProcess st |}
  end.

Definition with_callers (cs : list caller) (st : state) : state :=
  {| makeMutex := makeMutex st; suiteMutex := suiteMutex st; callers := cs;
     running := running st; spawned := spawned st;
     makeProcess := makeProcess st; suiteProcess := suiteProcess st |}.

Fixpoint set_nth {A : Type} (n : nat) (a : A) (l : list A) : list A :=
  match l, n with
  | [], _ => []
  | _ :: l', 0 => a :: l'
  | b :: l', S n' => b :: set_nth n' a l'
  end.

Definition set_phase (t : nat) (p : phase) (cs : list caller) : list caller :=
  match nth_error cs t with
  | Some c => set_nth t {| ph := p; todo := todo c; results := results c |} cs
  | None => cs
  end.

(** [child_process.exec]: a new process runs, and the slot of the domain
    ([this.makeProcess] or [this.suiteProcess]) points to it. *)
Definition spawn (d : domain) (cmd : list ascii) (st : state) : state :=
  let p := {| pid := spawned st; dom := d; command := cmd |} in
  {| makeMutex := makeMutex st; suiteMutex := suiteMutex st;
     callers := callers st;
     running := running st ++ [p];
     spawned := S (spawned st);
     makeProcess := match d with Build => Some (spawned st) | Execute => makeProcess st end;
     suiteProcess := match d with Build => suiteProcess st | Execute => Some (spawned st) end |}.

Definition grant (t : nat) (cs : list caller) : list caller :=
  match nth_error cs t with
  | Some c =>
      match ph c with
      | Waiting d cmd => set_phase t (Granted d cmd) cs
      | _ => cs
      end
  | None => cs
  end.

Definition awaits (p : nat) (c : caller) : bool :=
  match ph c with
  | Awaiting _ q => p =? q
  | _ => false
  end.

Definition deliver (p : nat) (r : RunResult) (c : caller) : caller :=
  if awaits p c then {| ph := Idle; todo := todo c; results := results c ++ [r] |}
  else c.

Definition step (l : label) (st : state) : option state :=
  match l with
  | Call t =>
      match nth_error (callers st) t with
      | Some {| ph := Idle; todo := (d, cmd) :: rest; results := rs |} =>
          let (mu, now) := acquire t (mutex_of d st) in
          let c := {| ph := if now then Granted d cmd else Waiting d cmd;
                      todo := rest; results := rs |} in
          Some (with_callers (set_nth t c (callers st)) (with_mutex d mu st))
      | _ => None
      end
  | Resume t =>
      match nth_error (callers st) t with
      | Some {| ph := Granted d cmd; todo := _; results := _ |} =>
          let st1 := spawn d cmd st in
          let p := spawned st in
          let (mu, next) := release (mutex_of d st1) in
          let st2 := with_mutex d mu st1 in
          let cs := set_phase t (Awaiting d p) (callers st2) in
          let cs := match next with
                    | Some t' => grant t' cs
                    | None => cs
                    end in
          Some (with_callers cs st2)
      | _ => None
      end
  | Exit p r =>
      if existsb (fun q => pid q =? p) (running st) then
        Some {| makeMutex := makeMutex st; suiteMutex := suiteMutex st;
                callers := map (deliver p r) (callers st);
                running := filter (fun q => negb (pid q =? p)) (running st);
                spawned := spawned st;
                makeProcess := makeProcess st; suiteProcess := suiteProcess st |}
      else None
  end.

Fixpoint steps (ls : list label) (st : state) : option state :=
  match ls with
  | [] => Some st
  | l :: ls' =>
      match step l st with
      | Some st' => steps ls' st'
      | None => None
      end
  end.

(** The adapter with no process started and the given callers about to
    begin. *)
Definition init (programs : list (list (domain * list ascii))) : state :=
  {| makeMutex := free; suiteMutex := free;
     callers := map (fun prog => {| ph := Idle; todo := prog; results := [] |}) programs;
     running := []; spawned := 0;
     makeProcess := None; suiteProcess := None |}.

(** Processes of a domain that are running. *)
Definition running_in (d : domain) (st : state) : list process :=
  filter (fun q => domain_eqb (dom q) d) (running st).

End Coordinator.

(** ** Vocabulary of the statements *)

Module Spec.
Import Patterns.

Definition PASS : list ascii := str "PASS".
Definition FAIL : list ascii := str "FAIL: ".

(** A result line for [label] starts at position [i] of the output: a colon,
    the digits [ds], a colon, characters [mid] of the same line, the label, a
    colon and [verdict]. *)
Definition result_line (label out : list ascii) (i : nat)
    (ds mid verdict : list ascii) : Prop :=
  ds <> [] /\ forallb is_digit ds = true /\ forallb is_dot mid = true /\
  exists post,
    skipn i out =
    str ":" ++ ds ++ str ":" ++ mid ++ label ++ str ":" ++ verdict ++ post.

(** Some line of the output matches the result pattern of [label]. *)
Definition has_result_line (label out : list ascii) : Prop :=
  exists i ds mid verdict,
    (verdict = PASS \/ verdict = FAIL) /\ result_line label out i ds mid verdict.

(** The text ends a line: nothing follows, or a line terminator does. *)
Definition at_line_end (post : list ascii) : Prop :=
  match post with
  | [] => True
  | b :: _ => is_dot b = false
  end.

(** A failing result line for [label] starts at position [i]: as
    [result_line], with the message [msg] running to the end of its line. *)
Definition fail_line (label out : list ascii) (i : nat)
    (ds mid msg : list ascii) : Prop :=
  ds <> [] /\ forallb is_digit ds = true /\ forallb is_dot mid = true /\
  forallb is_dot msg = true /\
  exists post,
    skipn i out =
    str ":" ++ ds ++ str ":" ++ mid ++ label ++ str ":" ++ FAIL ++ msg ++ post /\
    at_line_end post.

(** The tests of the examples. *)
Definition test_addTwoNumbers : node :=
  Test (str "test/calc_test.c::test_addTwoNumbers") (str "test_addTwoNumbers")
       (str "test/calc_test.c") 11.

Definition test_sub : node :=
  Test (str "test/calc_test.c::test_sub") (str "test_sub")
       (str "test/calc_test.c") 19.

Definition LF : list ascii := [ascii_of_nat 10].

Definition running (n : node) : event := TestEvent (node_id n) Running [].
Definition passed (n : node) : event := TestEvent (node_id n) Passed [].
Definition failed (n : node) (line : number) (message : list ascii) : event :=
  TestEvent (node_id n) Failed
    [{| dec_line := line; dec_message := Some message |}].

(** The label holds no syntax character of the pattern grammar: spliced
    into a pattern source it stands for itself. *)
Definition literal (label : list ascii) : Prop :=
  existsb is_syntax_character label = false.

(** The result pattern of the label can be built: [new RegExp] does not
    throw on its source (and the embedding reads the source). *)
Definition compiles (label : list ascii) : bool :=
  match testResultRegex label with
  | Syntax.Pattern _ => true
  | _ => false
  end.

(** [checkTestResult] classifies the first result line of [n] in [out]: the
    pattern matches first at [i], where a result line starts and none starts
    earlier, and the events follow the verdict of that line. *)
Definition classified (n : node) (out : list ascii) : Prop :=
  exists i ds mid,
    (forall j ds' mid' v,
       j < i -> v = PASS \/ v = FAIL ->
       ~ result_line (node_label n) out j ds' mid' v) /\
    ((result_line (node_label n) out i ds mid PASS /\
      Parser.checkTestResult n out = (Returned tt, [running n; passed n]))
     \/
     (exists msg,
        fail_line (node_label n) out i ds mid msg /\
        Parser.checkTestResult n out =
          (Returned tt,
           [running n;
            failed n (Parser.minus_one (Parser.parseInt ds)) msg]))).

(** [TestInfo.line] *)
Definition node_line (n : node) : nat :=
  match n with
  | Test _ _ _ line => line
  | Suite _ _ _ _ => 0
  end.

(** The line of the test [t] of [file] is the line of the [void] token of
    its declaration in [fileText]: [t] is named after a match [mr] of the
    declaration pattern, the match starts with the white space [ws] followed
    by [void], and the line counts the line feeds before the match plus those
    of [ws], which are the line feeds before [void]. *)
Definition on_void_line (file fileText : list ascii) (t : node) : Prop :=
  exists lastIndex mr ws rest,
    Regex.exec testNameFlags fileText testNameRegex lastIndex = Some mr /\
    node_id t =
      file ++ str "::" ++ Parser.text_of (Regex.group fileText 1 mr)
           ++ Parser.text_of (Regex.group fileText 2 mr) /\
    skipn (Regex.index mr) fileText = ws ++ str "void" ++ rest /\
    forallb is_space ws = true /\
    node_line t = count_nl (firstn (Regex.index mr) fileText) + count_nl ws /\
    node_line t = count_nl (firstn (Regex.index mr + length ws) fileText).

(** The file label pattern finds its shape in [fileName], with [g2] in the
    place of group 2: a word character and a colon, characters of the line,
    a slash or backslash, the characters [g2] of the line, and the suffix
    and dot c in any letter case. *)
Definition drive_path (fileName g2 : list ascii) : Prop :=
  exists pre w mid sep u e post,
    fileName = pre ++ w :: str ":" ++ mid ++ sep :: g2 ++ u ++ e ++ post /\
    is_word w = true /\
    forallb is_dot mid = true /\
    is_separator sep = true /\
    forallb is_dot g2 = true /\
    map canonicalize u = map canonicalize testFileSuffix /\
    map canonicalize e = map canonicalize (str ".c").

(** The successive matches of the declaration pattern in [fileText] from
    [lastIndex] on, as the loop of [loadTests] meets them: each search
    starts where the match before it ended, and the last search finds
    nothing. *)
Inductive successive (fileText : list ascii)
  : nat -> list Regex.match_result -> Prop :=
| successive_end lastIndex :
    Regex.exec testNameFlags fileText testNameRegex lastIndex = None ->
    successive fileText lastIndex []
| successive_next lastIndex mr ms :
    Regex.exec testNameFlags fileText testNameRegex lastIndex = Some mr ->
    successive fileText (Regex.last mr) ms ->
    successive fileText lastIndex (mr :: ms).

(** A declaration starts at position [j]: the declaration pattern matches
    there. *)
Definition declared_at (fileText : list ascii) (j : nat) : Prop :=
  exists e c, Regex.matches testNameFlags fileText testNameRegex j [] e c.

(** [line] is the line of the [void] token of the match [mr]: the match
    starts with the white space [ws] followed by [void], and [line] counts
    the line feeds before the match plus those of [ws], which are the line
    feeds before [void]. *)
Definition void_line (fileText : list ascii) (mr : Regex.match_result)
    (line : nat) : Prop :=
  exists ws rest,
    skipn (Regex.index mr) fileText = ws ++ str "void" ++ rest /\
    forallb is_space ws = true /\
    line = count_nl (firstn (Regex.index mr) fileText) + count_nl ws /\
    line = count_nl (firstn (Regex.index mr + length ws) fileText).

(** The file name carries the test file suffix, in any letter case. *)
Definition carries_suffix (fileName : list ascii) : Prop :=
  exists pre u post,
    fileName = pre ++ u ++ post /\
    map canonicalize u = map canonicalize testFileSuffix.

Fixpoint distinct (ids : list id) : bool :=
  match ids with
  | [] => true
  | i :: l => negb (existsb (str_eqb i) l) && distinct l
  end.

(** A test that a run can find and check: a leaf whose result pattern can be
    built and whose id is not the id of a suite. *)
Definition well_formed_test (ids : list id) (t : node) : bool :=
  negb (is_suite t)
  && compiles (node_label t)
  && negb (existsb (str_eqb (node_id t)) ids).

Definition well_formed_suite (ids : list id) (s : node) : bool :=
  match s with
  | Suite _ _ (Some _) tests => forallb (well_formed_test ids) tests
  | _ => false
  end.

(** A tree in which a run finds every suite by its id and can check every
    test: a root over suites with distinct ids, each with its file and with
    tests as above.  [loadTests] builds a tree of this shape; whether the ids
    are distinct and the result patterns can be built depends on the paths
    and on the text of the files (see [Examples.guarded_tree] for a loaded
    tree that is not well formed). *)
Definition well_formed (tree : node) : bool :=
  is_suite tree
  && distinct (map node_id (node_children tree))
  && forallb (well_formed_suite (map node_id (node_children tree)))
             (node_children tree).

(** The failed events that a total failure of [suite] fires. *)
Definition failed_children (suite : node) : list action :=
  map (fun child => Fire (TestEvent (node_id child) Failed []))
      (node_children suite).

(** The trace shows an error message to the user. *)
Definition error_shown (d : list action) : Prop :=
  exists msg, In (ShowError msg) d.

(** The trace fires a running or passed event of a test, as the result
    parser does. *)
Definition parser_fired (d : list action) : Prop :=
  exists i decorations,
    In (Fire (TestEvent i Running decorations)) d \/
    In (Fire (TestEvent i Passed decorations)) d.

(** The action shows an error message; the action watches a file. *)
Definition shows (a : action) : Prop := exists msg, a = ShowError msg.
Definition watches (a : action) : Prop := exists f, a = WatchFile f.

End Spec.

(** ** Examples *)

Module Examples.
Import Orchestrator.

Fixpoint from_last (c : ascii) (t : list ascii) : list ascii :=
  match t with
  | [] => []
  | a :: t' =>
      if existsb (ascii_eqb c) t' then from_last c t'
      else if ascii_eqb a c then a :: t' else []
  end.

(** [path.posix] of Node for the examples.  [cwd] is the current directory
    of the process, which [resolve] and [relative] put before a relative
    path. *)
Definition slash : ascii := Patterns.chr "/".

(** The segments between slashes. *)
Fixpoint segments (t : list ascii) : list (list ascii) :=
  match t with
  | [] => [[]]
  | a :: t' =>
      if ascii_eqb a slash then [] :: segments t'
      else
        match segments t' with
        | seg :: segs => (a :: seg) :: segs
        | [] => [[a]]
        end
  end.

(** [normalizeString]: empty segments and [.] are dropped and [..] takes
    the segment before it away; above the root there is nothing, and a
    relative path keeps the [..] that lead out of it.  [done] holds the
    segments so far, the last first. *)
Fixpoint normal_segments (absolute : bool) (segs done : list (list ascii))
  : list (list ascii) :=
  match segs with
  | [] => rev done
  | seg :: segs' =>
      if str_eqb seg [] || str_eqb seg (str ".") then
        normal_segments absolute segs' done
      else if str_eqb seg (str "..") then
        match done with
        | top :: done' =>
            if str_eqb top (str "..")
            then normal_segments absolute segs' (seg :: done)
            else normal_segments absolute segs' done'
        | [] =>
            if absolute then normal_segments absolute segs' []
            else normal_segments absolute segs' [seg]
        end
      else normal_segments absolute segs' (seg :: done)
  end.

Fixpoint joined (segs : list (list ascii)) : list ascii :=
  match segs with
  | [] => []
  | [seg] => seg
  | seg :: segs' => seg ++ slash :: joined segs'
  end.

Definition is_absolute (t : list ascii) : bool :=
  match t with
  | a :: _ => ascii_eqb a slash
  | [] => false
  end.

Definition normalize (t : list ascii) : list ascii :=
  match t with
  | [] => str "."
  | _ :: _ =>
      let trailing := is_absolute (rev t) in
      match joined (normal_segments (is_absolute t) (segments t) []) with
      | [] =>
          if is_absolute t then [slash]
          else if trailing then str "./" else str "."
      | body =>
          let body := if trailing then body ++ [slash] else body in
          if is_absolute t then slash :: body else body
      end
  end.

(** [path.resolve] of two paths: the segments of the absolute path made of
    the second path, of the first one before it when the second is
    relative, and of [cwd] before both when both are. *)
Definition resolved (cwd dir item : list ascii) : list (list ascii) :=
  let path :=
    if is_absolute item then item
    else if is_absolute dir then dir ++ slash :: item
    else cwd ++ slash :: dir ++ slash :: item in
  normal_segments true (segments path) [].

Fixpoint after_common (from to : list (list ascii))
  : list (list ascii) * list (list ascii) :=
  match from, to with
  | f :: from', t :: to' =>
      if str_eqb f t then after_common from' to' else (from, to)
  | _, _ => (from, to)
  end.

(** The last portion of a path, without the slashes after it. *)
Definition last_portion (t : list ascii) : list ascii :=
  List.last (filter (fun seg => negb (str_eqb seg [])) (segments t)) [].

Definition posix_in (cwd : list ascii) : path_api :=
  {| relative := fun from to =>
       let (up, down) := after_common (resolved cwd from []) (resolved cwd to []) in
       joined (map (fun _ => str "..") up ++ down);
     resolve := fun dir item => slash :: joined (resolved cwd dir item);
     join := fun parts =>
       match filter (fun part => negb (str_eqb part [])) parts with
       | [] => str "."
       | parts' => normalize (joined parts')
       end;
     basename := last_portion;
     extname := fun t =>
       let portion := last_portion t in
       let ext := from_last (Patterns.chr ".") portion in
       if str_eqb portion (str "..") || (length ext =? length portion) then []
       else ext;
     sep := [slash] |}.

Definition posix : path_api := posix_in (str "/").

(** A test file: the second declaration follows blank lines and is split
    after its name by a backslash. *)
Definition calc_test_c : list ascii :=
  str "#include <unity.h>" ++ Spec.LF ++
  Spec.LF ++
  str "void test_addTwoNumbers(void)" ++ Spec.LF ++
  str "{ TEST_ASSERT_EQUAL(4, add(2, 2)); }" ++ Spec.LF ++
  Spec.LF ++
  str "  void test_sub\" ++ Spec.LF ++
  str "      (void)" ++ Spec.LF ++
  str "{ TEST_ASSERT_EQUAL(4, sub(7, 2)); }" ++ Spec.LF.

Definition calc_path : list ascii := str "/ws/test/calc_test.c".
Definition io_path : list ascii := str "/ws/test/io_test.c".

Definition readFile (file : list ascii) : option (list ascii) :=
  if str_eqb file calc_path then Some calc_test_c else None.

(** A test file whose only test is written on one line.  The greedy group 2
    of the declaration pattern runs to the last opening parenthesis of the
    line that a closing one follows, so the name and the label of the test
    are [test_foo(void) { TEST_ASSERT(f]. *)
Definition guarded_test_c : list ascii :=
  str "void test_foo(void) { TEST_ASSERT(f(1)); }" ++ Spec.LF.

Definition guarded_path : list ascii := str "/ws/test/guarded_test.c".

Definition files (file : list ascii) : option (list ascii) :=
  if str_eqb file guarded_path then Some guarded_test_c
  else if str_eqb file calc_path then Some calc_test_c
  else None.

Definition test_foo : node :=
  Test (guarded_path ++ str "::test_foo(void) { TEST_ASSERT(f")
       (str "test_foo(void) { TEST_ASSERT(f") guarded_path 0.

Definition guarded_suite : node :=
  Suite guarded_path (str "test/guarded_test.c") (Some guarded_path) [test_foo].

(** The tree that [loadTests] builds for [guarded_path] and [calc_path]
    with the texts of [files].  The second test of [calc_test_c] is split
    after its name, and group 2 keeps the backslash. *)
Definition guarded_tree : node :=
  Suite (str "root") (str "Unity") None
    [guarded_suite;
     Suite calc_path (str "test/calc_test.c") (Some calc_path)
       [Test (calc_path ++ str "::test_addTwoNumbers")
             (str "test_addTwoNumbers") calc_path 2;
        Test (calc_path ++ str "::test_sub\") (str "test_sub\") calc_path 5]].

(** An output with a result line for the label of [test_foo]. *)
Definition guarded_output : list ascii :=
  str "test/guarded_test.c:1:test_foo(void) { TEST_ASSERT(f:PASS" ++ Spec.LF.

(** A world in which builds succeed and the executable of [guarded_suite]
    reports its test as passed. *)
Definition world_guarded (tr : list action) : RunResult :=
  match last tr (Fire RunFinished) with
  | Exe _ =>
      {| error := None;
         stdout := str "test/guarded_test.c:1:test_foo:PASS" ++ Spec.LF;
         stderr := [] |}
  | _ => {| error := None; stdout := str "gcc -o build/test.exe"; stderr := [] |}
  end.

(** The tree that [loadTests] builds for [calc_path] with the text of
    [readFile]. *)
Definition calc_tree : node :=
  Suite (str "root") (str "Unity") None
    [Suite calc_path (str "test/calc_test.c") (Some calc_path)
       [Test (calc_path ++ str "::test_addTwoNumbers")
             (str "test_addTwoNumbers") calc_path 2;
        Test (calc_path ++ str "::test_sub\") (str "test_sub\") calc_path 5]].

(** A tree of two suites with tests whose labels are their names. *)
Definition calc_suite : node :=
  Suite calc_path (str "test/calc_test.c") (Some calc_path)
    [Test (calc_path ++ str "::test_addTwoNumbers") (str "test_addTwoNumbers")
          calc_path 2;
     Test (calc_path ++ str "::test_sub") (str "test_sub") calc_path 5].

Definition io_suite : node :=
  Suite io_path (str "test/io_test.c") (Some io_path)
    [Test (io_path ++ str "::test_open") (str "test_open") io_path 3].

Definition tree : node :=
  Suite (str "root") (str "Unity") None [calc_suite; io_suite].

Definition ok (out : list ascii) : RunResult :=
  {| error := None; stdout := out; stderr := [] |}.

(** A world in which every build succeeds and every executable is in use by
    another process: it cannot be started and writes the message of the
    system to its error stream. *)
Definition world_in_use (tr : list action) : RunResult :=
  match last tr (Fire RunFinished) with
  | Exe _ =>
      {| error := Some (str "Error: Command failed");
         stdout := [];
         stderr := file_in_use ++ str "." |}
  | _ => ok (str "gcc -o build/test.exe")
  end.

(** A world in which builds and executables succeed. *)
Definition world_ok (tr : list action) : RunResult :=
  match last tr (Fire RunFinished) with
  | Exe _ =>
      ok (str "test/calc_test.c:3:test_addTwoNumbers:PASS" ++ Spec.LF ++
          str "test/calc_test.c:8:test_sub:FAIL: Expected 4 Was 5" ++ Spec.LF)
  | _ => ok (str "gcc -o build/test.exe")
  end.

Definition run_example (world : list action -> RunResult) (tests : list id)
  : outcome unit * list action :=
  run posix (str "/ws") (str "build") (str "-s") [] world tree tests [].

(** The directories of the workspace; the second test file cannot be
    read ([readFile] above knows the first file only). *)
Definition lookup (path : list ascii) : Scanner.entry :=
  if str_eqb path (str "/ws/test") then
    Scanner.Directory [(str "calc_test.c", Scanner.RegularFile);
                       (str "io_test.c", Scanner.RegularFile);
                       (str "notes.txt", Scanner.RegularFile)]
  else if str_eqb path (str "/ws/src") then
    Scanner.Directory [(str "calc.c", Scanner.RegularFile);
                       (str "calc.h", Scanner.RegularFile)]
  else Scanner.Other.

(** The adapter before the first load. *)
Definition fresh : Load.adapter :=
  {| Load.testSuiteInfo := Suite (str "root") (str "Unity") None [];
     Load.watchedFileForAutorunList := [];
     Load.watchedFileForReloadList := [] |}.

(** Two calls of [run] for two suites, at the moment each reaches its build,
    and at the moment each reaches its executable. *)
Definition two_builds : Coordinator.state :=
  Coordinator.init
    [[(Coordinator.Build, str "-s build/calc_test.exe")];
     [(Coordinator.Build, str "-s build/io_test.exe")]].

Definition two_executables : Coordinator.state :=
  Coordinator.init
    [[(Coordinator.Execute, str "/ws/build/calc_test.exe")];
     [(Coordinator.Execute, str "/ws/build/io_test.exe")]].

(** A world in which make prints the command of the compiler and fails. *)
Definition world_make_fails (tr : list action) : RunResult :=
  match last tr (Fire RunFinished) with
  | Make _ =>
      {| error := Some (str "Error: Command failed: make");
         stdout := str "gcc -c src/calc.c" ++ Spec.LF;
         stderr := str "src/calc.c:3:1: error: expected declaration" |}
  | _ => ok []
  end.

End Examples.

(** ** Vocabulary for the tree, the scanner and the watch lists *)

Module Tree.

(** The nodes of a tree in the order of a depth-first walk, the root
    first. *)
Fixpoint nodes (n : node) : list node :=
  n :: match n with
       | Test _ _ _ _ => []
       | Suite _ _ _ children => flat_map nodes children
       end.

(** The nodes below the root. *)
Definition descendants (n : node) : list node :=
  flat_map nodes (node_children n).

(** [t] is a test with id [i] among the children of [s]. *)
Definition owns (s : node) (i : id) (t : node) : Prop :=
  In t (node_children s) /\ is_suite t = false /\ node_id t = i.

End Tree.

(** ** Vocabulary for the scanner *)

Module Scan.
Import Regex Scanner.

Section Scan.

Variable P : path_api.
Variable fileRegex : regex.

(** The paths of a scan without the accumulators of the loop. *)
Fixpoint listed (filePath : list ascii) (e : entry) {struct e}
  : list (list ascii) :=
  match e with
  | Directory items =>
      (fix each (l : list (list ascii * entry)) : list (list ascii) :=
         match l with
         | [] => []
         | (item, sub) :: l' =>
             match sub with
             | RegularFile =>
                 if test fileRegex item then [resolve P filePath item] else []
             | _ => listed (resolve P filePath item) sub
             end ++ each l'
         end) items
  | _ => [str ""]
  end.

(** Whether [lstat] answers for every entry that the scan meets in a
    listing. *)
Fixpoint listable (e : entry) : bool :=
  match e with
  | Directory items =>
      (fix each (l : list (list ascii * entry)) : bool :=
         match l with
         | [] => true
         | (_, sub) :: l' =>
             match sub with
             | NoStat => false
             | RegularFile => true
             | _ => listable sub
             end && each l'
         end) items
  | _ => true
  end.

(** The directories of a scan that cannot be read: the root when it is no
    directory, and every entry of a listing that is neither a regular file
    nor a directory that can be listed. *)
Fixpoint unreadable (e : entry) : nat :=
  match e with
  | Directory items =>
      (fix each (l : list (list ascii * entry)) : nat :=
         match l with
         | [] => 0
         | (_, sub) :: l' =>
             match sub with
             | RegularFile => 0
             | _ => unreadable sub
             end + each l'
         end) items
  | _ => 1
  end.

(** [found filePath e full]: the scan of [e] at [filePath] meets [full]: the
    path of a regular file whose name the pattern accepts, in the directory
    or below it, or the empty path of a directory that cannot be read. *)
Inductive found : list ascii -> entry -> list ascii -> Prop :=
| found_file filePath items item :
    In (item, RegularFile) items -> test fileRegex item = true ->
    found filePath (Directory items) (resolve P filePath item)
| found_below filePath items item sub full :
    In (item, sub) items -> sub <> RegularFile ->
    found (resolve P filePath item) sub full ->
    found filePath (Directory items) full
| found_unreadable filePath e :
    (forall items, e <> Directory items) -> found filePath e (str "").

End Scan.

Definition cannot_find : action := ShowError (str "Cannot find test result path!").

End Scan.

(** ** Vocabulary for the loaded tree *)

Module Shape.

(** [t] is a test of [file]: a leaf with that file, named by the file, two
    colons, the prefix and text of one line. *)
Definition test_of (file : list ascii) (t : node) : Prop :=
  is_suite t = false /\
  Orchestrator.node_file t = Some file /\
  exists rest,
    forallb is_dot rest = true /\
    node_id t = file ++ str "::" ++ Patterns.testFunctionPrefix ++ rest.

(** [s] is the suite of [file]: its id and its file are [file] and its
    children are tests of [file]. *)
Definition suite_of (file : list ascii) (s : node) : Prop :=
  exists label tests,
    s = Suite file label (Some file) tests /\ Forall (test_of file) tests.

(** [pat] occurs in [t]. *)
Fixpoint occursb (pat t : list ascii) : bool :=
  Orchestrator.prefixb pat t
  || match t with
     | [] => false
     | _ :: t' => occursb pat t'
     end.

End Shape.

(** ** Vocabulary for the reports of a run *)

Module Report.
Import Orchestrator.

(** The events that the result parser fires for [n] on [out], as actions. *)
Definition parsed (n : node) (out : list ascii) : list action :=
  map Fire (snd (Parser.checkTestResult n out)).

(** The action reports on [suite]: it fires an event of one of its children
    or shows a message. *)
Definition reports (suite : node) (a : action) : Prop :=
  (exists child state decorations,
     In child (node_children suite) /\
     a = Fire (TestEvent (node_id child) state decorations))
  \/ Spec.shows a.

(** The suites that the ids of a request stand for, in the order of the
    request: for each id the suite that [findSuite] finds, if any. *)
Definition requested (tree : node) (tests : list id) : list node :=
  flat_map (fun i => match findSuite tree i with
                     | Some s => [s]
                     | None => []
                     end) tests.

Section Reporting.

Variable P : path_api.
Variable workspacePath testBuildPath : list ascii.
Variable testBuildCommandArgs foldersCommandArgs : list ascii.
Variable world : list action -> RunResult.

(** The effects of the folders block of [run] after the trace [tr]. *)
Definition folders_effects (tr : list action) : list action :=
  match foldersCommandArgs with
  | [] => []
  | _ :: _ =>
      Make foldersCommandArgs ::
      if truthy_error (world (tr ++ [Make foldersCommandArgs]))
      then [ShowError folders_error] else []
  end.

(** The suites are run one after another, from the trace [tr] to the trace
    [tr']: each suite in turn has the effects of [runSuiteExe], which are
    the running event, the build, the executable when the build reported no
    error, the message of make otherwise, and the completed event; then come
    reports on the suite and nothing else. *)
Inductive suites_in_order : list node -> list action -> list action -> Prop :=
| order_done tr : suites_in_order [] tr tr
| order_next suite file rest suites tr tr' :
    node_file suite = Some file ->
    Forall (reports suite) rest ->
    suites_in_order suites
      (tr ++ suite_effects P workspacePath testBuildPath testBuildCommandArgs
                           world suite file tr ++ rest) tr' ->
    suites_in_order (suite :: suites) tr tr'.

End Reporting.


End Report.

(** ** Debugging

    [debug] and the global [g_debugTestExecutable], which the command of the
    launch configuration reads through [getDebugTestExecutable] while the
    debugger is started.  The effects of [debug] are those of a run and the
    start of the debugger, which is recorded with the value the global has
    at that moment. *)

Module Debugger.
Import Orchestrator.

Inductive debug_action : Type :=
| Did (a : action)
| StartDebugging (debugConfiguration g_debugTestExecutable : list ascii).

Definition no_configuration : list ascii :=
  str "No debug configuration specified. In Settings, set unityExplorer.debugConfiguration.".

Definition not_started : list ascii := str "Debugger could not be started.".

Definition cannot_build (e : list ascii) : list ascii :=
  str "Cannot build test executable. Make error:" ++ newline ++ e.

(** What a call of [debug] leaves: the outcome, the global and the
    effects. *)
Record debugged : Type :=
  { outcome_of : outcome unit;
    global : list ascii;
    effects : list debug_action }.

Section Debug.

Variable P : path_api.
Variable testBuildPath : list ascii.
Variable testBuildCommandArgs foldersCommandArgs : list ascii.

(** The outside world: the result of the make process whose start is the
    last effect, and the answer of [vscode.debug.startDebugging], [None] when
    its promise is rejected. *)
Variable world : list debug_action -> RunResult.
Variable startDebugging : list debug_action -> option bool.

Variable testSuiteInfo : node.

(** The executable that [debug] stores in the global. *)
Definition debugTestExecutable (file : list ascii) : list ascii :=
  join P [testBuildPath; sep P; exeName P file].

(** The folders block of [debug]. *)
Definition debugFolders : list debug_action :=
  match foldersCommandArgs with
  | [] => []
  | _ :: _ =>
      let tr := [Did (Make foldersCommandArgs)] in
      if truthy_error (world tr)
      then tr ++ [Did (ShowError folders_error)] else tr
  end.

(** The last block of [try]: the global is set and the debugger started. *)
Definition launch (debugConfiguration : list ascii) (suite : node)
    (g : list ascii) (tr : list debug_action) : debugged :=
  match node_file suite with
  | Some file =>
      let exe := debugTestExecutable file in
      let tr' := tr ++ [StartDebugging debugConfiguration exe] in
      match startDebugging tr' with
      | Some true =>
          {| outcome_of := Returned tt; global := exe; effects := tr' |}
      | Some false =>
          {| outcome_of := Returned tt; global := exe;
             effects := tr' ++ [Did (ShowError not_started)] |}
      | None => {| outcome_of := Rejected; global := exe; effects := tr' |}
      end
  | None => {| outcome_of := Returned tt; global := g; effects := tr |}
  end.

(** The [try] block of [debug], with the global [g] on entry. *)
Definition debug_try (debugConfiguration : list ascii) (tests : list id)
    (g : list ascii) : debugged :=
  match debugConfiguration with
  | [] =>
      {| outcome_of := Returned tt; global := g;
         effects := [Did (ShowError no_configuration)] |}
  | _ :: _ =>
      let tr := debugFolders in
      match match nth_error tests 0 with
            | Some first => findSuite testSuiteInfo first
            | None => None
            end with
      | Some suite =>
          if is_suite suite then
            match node_file suite with
            | Some file =>
                let tr' :=
                  tr ++ [Did (Make (buildCommand P testBuildPath
                                      testBuildCommandArgs file))] in
                match error (world tr') with
                | Some e =>
                    {| outcome_of := Returned tt; global := g;
                       effects := tr' ++ [Did (ShowError (cannot_build e))] |}
                | None => launch debugConfiguration suite g tr'
                end
            | None =>
                {| outcome_of := Rejected; global := g; effects := tr |}
            end
          else launch debugConfiguration suite g tr
      | None => {| outcome_of := Returned tt; global := g; effects := tr |}
      end
  end.

(** [debug]: the [finally] block empties the global on every way out. *)
Definition debug (debugConfiguration : list ascii) (tests : list id)
    (g : list ascii) : debugged :=
  let r := debug_try debugConfiguration tests g in
  {| outcome_of := outcome_of r; global := []; effects := effects r |}.

(** [getDebugTestExecutable] *)
Definition getDebugTestExecutable (g : list ascii) : list ascii := g.

End Debug.

(** An effect that a run has as well: a message or a make process. *)
Definition message_or_make (x : debug_action) : Prop :=
  exists a, x = Did a /\ (Spec.shows a \/ exists args, a = Make args).

End Debugger.

(** ** Vocabulary for the mutexes *)

Module Locking.
Import Coordinator.

(** The phase of caller [t], if there is such a caller. *)
Definition phase_at (st : state) (t : nat) : option phase :=
  option_map ph (nth_error (callers st) t).

(** The caller is between [acquire] and [release] of the mutex of [d]. *)
Definition holds (d : domain) (o : option phase) : bool :=
  match o with
  | Some (Granted d' _) => domain_eqb d' d
  | _ => false
  end.

(** The [acquire] of the caller on the mutex of [d] is pending. *)
Definition waits (d : domain) (o : option phase) : bool :=
  match o with
  | Some (Waiting d' _) => domain_eqb d' d
  | _ => false
  end.

(** A pending caller whose [acquire] resolves. *)
Definition promote (o : option phase) : option phase :=
  match o with
  | Some (Waiting d cmd) => Some (Granted d cmd)
  | _ => o
  end.

(** The states of the adapter that the callers can bring about. *)
Definition reachable (programs : list (list (domain * list ascii)))
    (st : state) : Prop :=
  exists ls, steps ls (init programs) = Some st.

(** What the mutex of [d] keeps: one holder at most, locked exactly while a
    caller holds it, and the pending callers, each once, in its queue. *)
Definition mutex_invariant (d : domain) (st : state) : Prop :=
  (forall t1 t2, holds d (phase_at st t1) = true ->
                 holds d (phase_at st t2) = true -> t1 = t2) /\
  (locked (mutex_of d st) = true <->
   exists t, holds d (phase_at st t) = true) /\
  (forall t, In t (queue (mutex_of d st)) <-> waits d (phase_at st t) = true) /\
  (locked (mutex_of d st) = false -> queue (mutex_of d st) = []) /\
  NoDup (queue (mutex_of d st)).

End Locking.

(** ** Cancelling *)

Module Cancelling.
Import Coordinator.

(** [this.makeProcess] and [this.suiteProcess] *)
Definition slot (d : domain) (st : state) : option nat :=
  match d with
  | Build => makeProcess st
  | Execute => suiteProcess st
  end.

(** [cancel]: the processes that [tree_kill] is called for. *)
Definition cancel (st : state) : list nat :=
  match makeProcess st with
  | Some p => [p]
  | None => []
  end ++
  match suiteProcess st with
  | Some p => [p]
  | None => []
  end.

(** What the slots keep: the slot of a domain points to the process of the
    domain that was started last. *)
Definition slot_invariant (st : state) : Prop :=
  (forall q, In q (running st) -> pid q < spawned st) /\
  (forall d p, slot d st = Some p ->
     p < spawned st /\
     forall q, In q (running st) ->
               (dom q = d -> pid q <= p) /\ (pid q = p -> dom q = d)) /\
  (forall d, slot d st = None -> forall q, In q (running st) -> dom q <> d).

End Cancelling.

(** * Properties *)

(** ** The matcher against declarative matching *)

Module RegexFacts.
Import Regex.

Section Facts.

Variable fl : flags.
Variable s : list ascii.

Local Abbreviation reads := (Regex.reads s).

Lemma star_loop_sound (r : regex) (k : Cont) :
  (forall i c k' res, m fl s r i c k' = Some res ->
     exists j c', matches fl s r i c j c' /\ k' j c' = Some res) ->
  forall n i c res,
    star_loop (m fl s r) k n i c = Some res ->
    exists j c', matches fl s (Star r) i c j c' /\ k j c' = Some res.
Proof.
  intros Hbody n.
  induction n as [|n IH]; intros i c res H; simpl in H.
  - exists i, c. split; [constructor | exact H].
  - destruct (m fl s r i c _) as [x|] eqn:E.
    + inversion H; subst x; clear H.
      apply Hbody in E. destruct E as (j & c' & Hm & Hk).
      destruct (i <? j) eqn:Hlt; [|discriminate].
      apply Nat.ltb_lt in Hlt.
      apply IH in Hk. destruct Hk as (l & c'' & Hs & Hk).
      exists l, c''. split; [|exact Hk].
      eapply M_StarS; eauto.
    + exists i, c. split; [constructor | exact H].
Qed.

(** Whatever the matcher returns went through the continuation at the end of
    a declarative match. *)
Lemma m_sound (r : regex) :
  forall i c k res,
    m fl s r i c k = Some res ->
    exists j c', matches fl s r i c j c' /\ k j c' = Some res.
Proof.
  induction r as [|a|p| |r1 IH1 r2 IH2|r1 IH1 r2 IH2|r IH|g r IH];
    intros i c k res H;
    try (apply (star_loop_sound k IH _ _ _ H));
    simpl in H.
  - exists i, c. split; [constructor | exact H].
  - destruct (nth_error s i) as [b|] eqn:E; [|discriminate].
    destruct (char_eq fl a b) eqn:Ec; [|discriminate].
    exists (S i), c. split; [econstructor; eauto | exact H].
  - destruct (nth_error s i) as [b|] eqn:E; [|discriminate].
    destruct (p b) eqn:Ep; [|discriminate].
    exists (S i), c. split; [econstructor; eauto | exact H].
  - destruct (at_line_start fl s i) eqn:E; [|discriminate].
    exists i, c. split; [constructor; exact E | exact H].
  - apply IH1 in H. destruct H as (j & c' & H1 & H).
    apply IH2 in H. destruct H as (l & c'' & H2 & H).
    exists l, c''. split; [econstructor; eauto | exact H].
  - destruct (m fl s r1 i c k) as [x|] eqn:E.
    + inversion H; subst x. apply IH1 in E. destruct E as (j & c' & H1 & Hk).
      exists j, c'. split; [apply M_AltL; exact H1 | exact Hk].
    + apply IH2 in H. destruct H as (j & c' & H2 & Hk).
      exists j, c'. split; [apply M_AltR; exact H2 | exact Hk].
  - apply IH in H. destruct H as (j & c' & H1 & Hk).
    exists j, ((g, (i, j)) :: c'). split; [constructor; exact H1 | exact Hk].
Qed.

(** A match moves forward and stays inside the input. *)
Lemma matches_bounds r i c j c' :
  matches fl s r i c j c' -> i <= j /\ (i < j -> j <= length s).
Proof.
  induction 1;
    try match goal with
        | Hn : nth_error s ?i = Some _ |- _ =>
            assert (i < length s) by (apply nth_error_Some; congruence)
        end;
    lia.
Qed.

Lemma star_loop_complete_step (r : regex) (k : Cont) n i c j c' :
  (forall k', k' j c' <> None -> m fl s r i c k' <> None) ->
  i < j ->
  star_loop (m fl s r) k n j c' <> None ->
  star_loop (m fl s r) k (S n) i c <> None.
Proof.
  intros Hbody Hlt Hrest. simpl.
  destruct (m fl s r i c _) as [x|] eqn:E; [congruence|].
  exfalso. revert E. apply Hbody.
  apply Nat.ltb_lt in Hlt. rewrite Hlt. exact Hrest.
Qed.

(** When the input matches declaratively and the continuation accepts the
    end of that match, the matcher finds some match. *)
Lemma m_complete r i c j c' :
  matches fl s r i c j c' ->
  forall k, k j c' <> None ->
    m fl s r i c k <> None /\
    (forall r1 n, r = Star r1 -> length s - i < n ->
       star_loop (m fl s r1) k n i c <> None).
Proof.
  induction 1 as
    [i c|a b i c Hn Hc|p b i c Hn Hp|i c Hb
    |r1 r2 i c j c' l c'' H1 IH1 H2 IH2
    |r1 r2 i c j c' H1 IH1|r1 r2 i c j c' H2 IH2
    |r i c|r i c j c' l c'' H1 IH1 Hlt H2 IH2
    |g r i c j c' H1 IH1];
    intros k Hk; (split; [|try (intros ? ? Heq; discriminate Heq)]); simpl.
  - exact Hk.
  - rewrite Hn, Hc. exact Hk.
  - rewrite Hn, Hp. exact Hk.
  - rewrite Hb. exact Hk.
  - apply IH1. apply IH2. exact Hk.
  - destruct (m fl s r1 i c k) eqn:E; [discriminate|].
    exfalso. revert E. apply IH1. exact Hk.
  - destruct (m fl s r1 i c k) eqn:E; [discriminate|].
    apply IH2. exact Hk.
  - destruct (m fl s r i c _); [discriminate | exact Hk].
  - intros r1 n Heq Hn. inversion Heq; subst r1.
    destruct n as [|n]; simpl; [exact Hk|].
    destruct (m fl s r i c _); [discriminate | exact Hk].
  - apply star_loop_complete_step with (j := j) (c' := c').
    + intros k' Hk'. apply IH1. exact Hk'.
    + exact Hlt.
    + apply (proj2 (IH2 k Hk) r (length s - i) eq_refl).
      apply matches_bounds in H1. lia.
  - intros r1 n Heq Hn. inversion Heq; subst r1.
    destruct n as [|n]; [lia|].
    apply star_loop_complete_step with (j := j) (c' := c').
    + intros k' Hk'. apply IH1. exact Hk'.
    + exact Hlt.
    + apply (proj2 (IH2 k Hk) r n eq_refl).
      apply matches_bounds in H1. lia.
  - apply IH1. exact Hk.
Qed.

Lemma reads_nil i : reads i i [].
Proof. split; [reflexivity | simpl; lia]. Qed.

Lemma reads_app i j l a b : reads i j a -> reads j l b -> reads i l (a ++ b).
Proof.
  intros [H1 E1] [H2 E2]. split.
  - rewrite H1, H2, app_assoc. reflexivity.
  - rewrite length_app. lia.
Qed.

Lemma reads_one i b : nth_error s i = Some b -> reads i (S i) [b].
Proof.
  intros H. split; [|simpl; lia].
  revert i H. induction s as [|a t IH]; intros [|i] H; simpl in *;
    try discriminate.
  - inversion H. reflexivity.
  - apply IH. exact H.
Qed.

Lemma skipn_cons_nth i b rest : skipn i s = b :: rest ->
  nth_error s i = Some b /\ skipn (S i) s = rest.
Proof.
  revert i. induction s as [|a t IH]; intros [|i] H; simpl in *;
    try discriminate.
  - inversion H. split; reflexivity.
  - apply IH. exact H.
Qed.

Lemma reads_of_skipn i l rest : skipn i s = l ++ rest ->
  reads i (i + length l) l /\ skipn (i + length l) s = rest.
Proof.
  revert i. induction l as [|b l IH]; intros i H; simpl in *.
  - rewrite Nat.add_0_r. split; [apply reads_nil | exact H].
  - apply skipn_cons_nth in H. destruct H as [Hn Hs].
    apply IH in Hs. replace (i + S (length l)) with (S i + length l) by lia.
    destruct Hs as [Hr Hs]. split; [|exact Hs].
    apply (reads_app (reads_one _ Hn) Hr).
Qed.

Lemma reads_substring i j l : reads i j l -> substring s i j = l.
Proof.
  intros [H E]. unfold substring. rewrite H.
  replace (j - i) with (length l + 0) by lia.
  rewrite firstn_app_2. simpl. apply app_nil_r.
Qed.

Lemma reads_head i j b l : reads i j (b :: l) -> nth_error s i = Some b.
Proof.
  intros [H _]. simpl in H. apply skipn_cons_nth in H. apply H.
Qed.

Lemma reads_inj i j l l' : reads i j l -> reads i j l' -> l = l'.
Proof.
  intros H H'. apply reads_substring in H, H'. congruence.
Qed.

Lemma reads_le i j l : reads i j l -> l <> [] -> j <= length s.
Proof.
  intros [H E] Hl.
  destruct (le_lt_dec i (length s)) as [Hi|Hi].
  - assert (length (skipn i s) = length l + length (skipn j s))
      by (rewrite H, length_app; reflexivity).
    rewrite length_skipn in H0. lia.
  - rewrite skipn_all2 in H by lia.
    destruct l; [congruence | discriminate].
Qed.

(** Patterns without groups leave the captures alone. *)
Lemma matches_nocap r i c j c' :
  matches fl s r i c j c' -> nocap r = true -> c' = c.
Proof.
  induction 1; simpl; intros Hn; try reflexivity; try discriminate.
  - apply andb_prop in Hn. destruct Hn as [Hn1 Hn2].
    rewrite (IHmatches2 Hn2). apply IHmatches1. exact Hn1.
  - apply andb_prop in Hn. apply IHmatches. apply Hn.
  - apply andb_prop in Hn. apply IHmatches. apply Hn.
  - rewrite (IHmatches2 Hn). apply IHmatches1. exact Hn.
Qed.

Lemma nocap_Lit l : nocap (Lit l) = true.
Proof. induction l; simpl; auto. Qed.

Lemma matches_reads r i c j c' :
  matches fl s r i c j c' -> exists l, reads i j l.
Proof.
  induction 1 as
    [i c|a b i c Hn Hc|p b i c Hn Hp|i c Hb
    |r1 r2 i c j c' l c'' _ [l1 R1] _ [l2 R2]
    |r1 r2 i c j c' _ IH|r1 r2 i c j c' _ IH
    |r i c|r i c j c' l c'' _ [l1 R1] _ _ [l2 R2]
    |g r i c j c' _ IH];
    try (exists []; apply reads_nil);
    try (eexists; apply reads_one; eassumption);
    try exact IH;
    exists (l1 ++ l2); eapply reads_app; eauto.
Qed.

Lemma matches_Chr a i c j c' :
  matches fl s (Chr a) i c j c' ->
  c' = c /\ exists b, char_eq fl a b = true /\ reads i j [b].
Proof.
  inversion 1; subst. split; [reflexivity|].
  exists b. split; [assumption | apply reads_one; assumption].
Qed.

Lemma matches_Cls p i c j c' :
  matches fl s (Cls p) i c j c' ->
  c' = c /\ exists b, p b = true /\ reads i j [b].
Proof.
  inversion 1; subst. split; [reflexivity|].
  exists b. split; [assumption | apply reads_one; assumption].
Qed.

Lemma matches_Lit l : forall i c j c',
  matches fl s (Lit l) i c j c' ->
  c' = c /\ exists l', reads i j l' /\
    Forall2 (fun a b => char_eq fl a b = true) l l'.
Proof.
  induction l as [|a l IH]; intros i c j c' H; simpl in H.
  - inversion H; subst. split; [reflexivity|].
    exists []. split; [apply reads_nil | constructor].
  - inversion H as [| | | |r1 r2 i0 c0 j0 c1 l0 c2 Ha Hl| | | | |]; subst.
    apply matches_Chr in Ha. destruct Ha as (-> & b & Hb & Hr).
    apply IH in Hl. destruct Hl as (-> & l' & Hr' & Hf).
    split; [reflexivity|]. exists (b :: l'). split.
    + apply (reads_app Hr Hr').
    + constructor; assumption.
Qed.

Lemma matches_Star_Cls p i c j c' :
  matches fl s (Star (Cls p)) i c j c' ->
  c' = c /\ exists l, reads i j l /\ forallb p l = true.
Proof.
  intros H. remember (Star (Cls p)) as r eqn:Er.
  induction H; try discriminate; inversion Er; subst.
  - split; [reflexivity|]. exists []. split; [apply reads_nil | reflexivity].
  - apply matches_Cls in H. destruct H as (-> & b & Hb & Hr).
    destruct (IHmatches2 eq_refl) as (-> & l' & Hr' & Hf).
    split; [reflexivity|]. exists (b :: l'). split.
    + apply (reads_app Hr Hr').
    + simpl. rewrite Hb. exact Hf.
Qed.

(** Introduction: text that the input reads is matched. *)
Lemma Chr_intro a b i j c :
  reads i j [b] -> char_eq fl a b = true -> matches fl s (Chr a) i c j c.
Proof.
  intros Hr Hc. pose proof (reads_head Hr) as Hn.
  destruct Hr as [_ ->]. simpl. rewrite Nat.add_1_r.
  econstructor; eauto.
Qed.

Lemma Cls_intro p b i j c :
  reads i j [b] -> p b = true -> matches fl s (Cls p) i c j c.
Proof.
  intros Hr Hc. pose proof (reads_head Hr) as Hn.
  destruct Hr as [_ ->]. simpl. rewrite Nat.add_1_r.
  econstructor; eauto.
Qed.

Lemma reads_split i j b l :
  reads i j (b :: l) -> reads i (S i) [b] /\ reads (S i) j l.
Proof.
  intros Hr. pose proof (reads_head Hr) as Hn.
  destruct Hr as [H E]. simpl in H, E.
  split; [apply reads_one; exact Hn|].
  apply skipn_cons_nth in H. destruct H as [_ H].
  split; [exact H | lia].
Qed.

Lemma Lit_intro l : forall l' i j c,
  reads i j l' -> Forall2 (fun a b => char_eq fl a b = true) l l' ->
  matches fl s (Lit l) i c j c.
Proof.
  induction l as [|a l IH]; intros l' i j c Hr Hf;
    inversion Hf as [|a0 b l0 l1 Hab Hrest]; subst; simpl.
  - destruct Hr as [_ ->]. simpl. rewrite Nat.add_0_r. constructor.
  - apply reads_split in Hr. destruct Hr as [Hr1 Hr2].
    econstructor; [eapply Chr_intro; eauto | eapply IH; eauto].
Qed.

Lemma Star_Cls_intro p l : forall i j c,
  reads i j l -> forallb p l = true -> matches fl s (Star (Cls p)) i c j c.
Proof.
  induction l as [|b l IH]; intros i j c Hr Hf; simpl in Hf.
  - destruct Hr as [_ ->]. simpl. rewrite Nat.add_0_r. constructor.
  - apply andb_prop in Hf. destruct Hf as [Hb Hf].
    apply reads_split in Hr. destruct Hr as [Hr1 Hr2].
    eapply M_StarS; [eapply Cls_intro; eauto | lia | eapply IH; eauto].
Qed.

(** Without the [i] flag a literal matches its own text only. *)
Lemma Forall2_char_eq_exact l l' :
  ignoreCase fl = false ->
  Forall2 (fun a b => char_eq fl a b = true) l l' -> l' = l.
Proof.
  intros Hi. induction 1 as [|a b l l' Hab _ IH]; [reflexivity|].
  unfold char_eq, ascii_eqb in Hab. rewrite Hi in Hab.
  apply Ascii.eqb_eq in Hab. congruence.
Qed.

Lemma Forall2_char_eq_refl l :
  Forall2 (fun a b => char_eq fl a b = true) l l.
Proof.
  induction l; constructor; auto.
  unfold char_eq, ascii_eqb. destruct (ignoreCase fl); apply Ascii.eqb_refl.
Qed.

(** ** [exec] *)

Lemma exec_from_spec r n : forall i,
  match exec_from fl s r n i with
  | Some mr =>
      i <= index mr <= i + n /\
      m fl s r (index mr) [] accept = Some (last mr, groups mr) /\
      (forall j, i <= j < index mr -> m fl s r j [] accept = None)
  | None => forall j, i <= j <= i + n -> m fl s r j [] accept = None
  end.
Proof.
  induction n as [|n IH]; intros i; simpl.
  - destruct (m fl s r i [] accept) as [[j c]|] eqn:E; simpl.
    + split; [lia|]. split; [exact E|]. intros; lia.
    + intros j Hj. replace j with i by lia. exact E.
  - destruct (m fl s r i [] accept) as [[j c]|] eqn:E; simpl.
    + split; [lia|]. split; [exact E|]. intros; lia.
    + specialize (IH (S i)).
      destruct (exec_from fl s r n (S i)) as [mr|].
      * destruct IH as (Hi & Hm & Hn).
        split; [lia|]. split; [exact Hm|].
        intros j Hj. destruct (Nat.eq_dec j i) as [->|]; [exact E|].
        apply Hn. lia.
      * intros j Hj. destruct (Nat.eq_dec j i) as [->|]; [exact E|].
        apply IH. lia.
Qed.

Lemma accept_some j c res : accept j c = Some res -> res = (j, c).
Proof. unfold accept. congruence. Qed.

(** A match found by [exec] is a declarative match, and no position between
    [lastIndex] and its index has one. *)
Lemma exec_some r li mr :
  exec fl s r li = Some mr ->
  li <= index mr <= length s /\
  matches fl s r (index mr) [] (last mr) (groups mr) /\
  m fl s r (index mr) [] accept = Some (last mr, groups mr) /\
  (forall j e c, li <= j < index mr -> ~ matches fl s r j [] e c).
Proof.
  unfold exec. intros H.
  destruct (li <=? length s) eqn:Hli; [|discriminate].
  apply Nat.leb_le in Hli.
  pose proof (exec_from_spec r (length s - li) li) as Hs.
  rewrite H in Hs. destruct Hs as (Hi & Hm & Hn).
  split; [lia|]. split; [|split; [exact Hm|]].
  - destruct (@m_sound r _ _ _ _ Hm) as (j & c & Hmat & Hk).
    apply accept_some in Hk. inversion Hk; subst. exact Hmat.
  - intros j e c Hj Hmat.
    destruct (m_complete Hmat accept) as [Hc _]; [discriminate|].
    apply Hc. apply Hn. exact Hj.
Qed.

(** No match is found only when no position from [lastIndex] on has one. *)
Lemma exec_none r li :
  exec fl s r li = None -> li <= length s ->
  forall j e c, li <= j <= length s -> ~ matches fl s r j [] e c.
Proof.
  unfold exec. intros H Hli. apply Nat.leb_le in Hli. rewrite Hli in H.
  apply Nat.leb_le in Hli.
  pose proof (exec_from_spec r (length s - li) li) as Hs.
  rewrite H in Hs. intros j e c Hj Hmat.
  destruct (m_complete Hmat accept) as [Hc _]; [discriminate|].
  apply Hc. apply Hs. lia.
Qed.

Lemma exec_complete r li j e c :
  matches fl s r j [] e c -> li <= j <= length s ->
  exists mr, exec fl s r li = Some mr /\ index mr <= j.
Proof.
  intros Hmat Hj.
  destruct (exec fl s r li) as [mr|] eqn:E.
  - exists mr. split; [reflexivity|].
    destruct (@exec_some r li mr E) as (_ & _ & _ & Hn).
    destruct (le_lt_dec (index mr) j) as [|Hlt]; [assumption|].
    exfalso. apply (Hn j e c); [lia | exact Hmat].
  - exfalso. apply (@exec_none r li E) with (j := j) (e := e) (c := c);
      [lia | exact Hj | exact Hmat].
Qed.

(** ** Greedy repetition of a character class *)

Lemma skipn_nil_nth i : skipn i s = [] -> nth_error s i = None.
Proof.
  revert i. induction s as [|a t IH]; intros [|i] H; simpl in *;
    try reflexivity; try discriminate.
  apply IH. exact H.
Qed.

Lemma star_loop_S body (k : Cont) n i c :
  star_loop body k (S n) i c =
  match body i c (fun j c' => if i <? j then star_loop body k n j c' else None) with
  | Some x => Some x
  | None => k i c
  end.
Proof. reflexivity. Qed.

Lemma m_Cls p i c (k : Cont) :
  m fl s (Cls p) i c k =
  match nth_error s i with
  | Some b => if p b then k (S i) c else None
  | None => None
  end.
Proof. reflexivity. Qed.

(** The class is repeated over the longest run when the continuation accepts
    the end of that run. *)
Lemma star_cls_greedy p (k : Cont) post res l : forall i c n,
  skipn i s = l ++ post ->
  forallb p l = true ->
  match post with [] => True | b :: _ => p b = false end ->
  length s - i < n ->
  k (i + length l) c = Some res ->
  star_loop (m fl s (Cls p)) k n i c = Some res.
Proof.
  induction l as [|a l IH]; intros i c n Hs Hl Hpost Hn Hk.
  - simpl in Hs, Hk. rewrite Nat.add_0_r in Hk.
    destruct n as [|n]; [lia|]. rewrite star_loop_S, m_Cls.
    destruct post as [|b post'].
    + rewrite (skipn_nil_nth _ Hs). exact Hk.
    + apply skipn_cons_nth in Hs. destruct Hs as [-> _].
      rewrite Hpost. exact Hk.
  - simpl in Hs, Hl. apply andb_prop in Hl. destruct Hl as [Ha Hl].
    apply skipn_cons_nth in Hs. destruct Hs as [Hnth Hs].
    assert (i < length s) by (apply nth_error_Some; congruence).
    destruct n as [|n]; [lia|]. rewrite star_loop_S, m_Cls.
    rewrite Hnth, Ha.
    replace (i <? S i) with true by (symmetry; apply Nat.ltb_lt; lia).
    rewrite (IH (S i) c n Hs Hl Hpost); [reflexivity | lia |].
    simpl in Hk. rewrite <- Hk. f_equal. lia.
Qed.

(** The repetition fails when the continuation fails at every position of
    the run. *)
Lemma star_cls_fail p (k : Cont) post c : forall l i n,
  skipn i s = l ++ post ->
  forallb p l = true ->
  match post with [] => True | b :: _ => p b = false end ->
  (forall j, i <= j <= i + length l -> k j c = None) ->
  star_loop (m fl s (Cls p)) k n i c = None.
Proof.
  induction l as [|a l IH]; intros i n Hs Hl Hpost Hk.
  - destruct n as [|n]; [simpl; apply Hk; simpl; lia|].
    rewrite star_loop_S, m_Cls. simpl in Hs.
    destruct post as [|b post'].
    + rewrite (skipn_nil_nth _ Hs). apply Hk. simpl. lia.
    + apply skipn_cons_nth in Hs. destruct Hs as [-> _].
      rewrite Hpost. apply Hk. simpl. lia.
  - simpl in Hs, Hl. apply andb_prop in Hl. destruct Hl as [Ha Hl].
    apply skipn_cons_nth in Hs. destruct Hs as [Hnth Hs].
    destruct n as [|n]; [simpl; apply Hk; simpl; lia|].
    rewrite star_loop_S, m_Cls, Hnth, Ha.
    replace (i <? S i) with true by (symmetry; apply Nat.ltb_lt; lia).
    rewrite (IH (S i) n Hs Hl Hpost).
    + apply Hk. simpl. lia.
    + intros j Hj. apply Hk. simpl. lia.
Qed.

(** The repetition gives back characters of the run until the continuation
    accepts: it stops at the last position of the run that the continuation
    accepts. *)
Lemma star_cls_backtrack p (k : Cont) l2 post res c : forall l1 i n,
  skipn i s = l1 ++ l2 ++ post ->
  forallb p l1 = true ->
  forallb p l2 = true ->
  match post with [] => True | b :: _ => p b = false end ->
  length s - i < n ->
  k (i + length l1) c = Some res ->
  (forall j, i + length l1 < j <= i + length l1 + length l2 -> k j c = None) ->
  star_loop (m fl s (Cls p)) k n i c = Some res.
Proof.
  induction l1 as [|a l1 IH]; intros i n Hs Hl1 Hl2 Hpost Hn Hk Hfail.
  - simpl in Hs, Hk, Hfail. rewrite Nat.add_0_r in Hk.
    destruct n as [|n]; [lia|]. rewrite star_loop_S, m_Cls.
    destruct l2 as [|b l2].
    + simpl in Hs. destruct post as [|b post'].
      * rewrite (skipn_nil_nth _ Hs). exact Hk.
      * apply skipn_cons_nth in Hs. destruct Hs as [-> _].
        rewrite Hpost. exact Hk.
    + simpl in Hs, Hl2. apply andb_prop in Hl2. destruct Hl2 as [Hb Hl2].
      apply skipn_cons_nth in Hs. destruct Hs as [Hnth Hs].
      rewrite Hnth, Hb.
      replace (i <? S i) with true by (symmetry; apply Nat.ltb_lt; lia).
      rewrite (@star_cls_fail p k post c l2 (S i) n Hs Hl2 Hpost);
        [exact Hk|].
      intros j Hj. apply Hfail. simpl. lia.
  - simpl in Hs, Hl1. apply andb_prop in Hl1. destruct Hl1 as [Ha Hl1].
    apply skipn_cons_nth in Hs. destruct Hs as [Hnth Hs].
    assert (i < length s) by (apply nth_error_Some; congruence).
    destruct n as [|n]; [lia|]. rewrite star_loop_S, m_Cls.
    rewrite Hnth, Ha.
    replace (i <? S i) with true by (symmetry; apply Nat.ltb_lt; lia).
    rewrite (IH (S i) n Hs Hl1 Hl2 Hpost); [reflexivity | lia | |].
    + simpl in Hk. rewrite <- Hk. f_equal. lia.
    + intros j Hj. apply Hfail. simpl. lia.
Qed.

Lemma maximal_run (p : ascii -> bool) (t : list ascii) :
  exists l post, t = l ++ post /\ forallb p l = true /\
    match post with [] => True | b :: _ => p b = false end.
Proof.
  induction t as [|a t (l & post & E & Hl & Hp)].
  - exists [], []. repeat split.
  - destruct (p a) eqn:Ha.
    + exists (a :: l), post. subst t. repeat split; simpl; auto.
      rewrite Ha. exact Hl.
    + exists [], (a :: t). repeat split. exact Ha.
Qed.

(** With a continuation that accepts everywhere the repetition takes the
    longest run. *)
Lemma star_cls_total p (k : Cont) i c n res :
  (forall j c', k j c' <> None) ->
  length s - i < n ->
  star_loop (m fl s (Cls p)) k n i c = Some res ->
  exists l post, skipn i s = l ++ post /\ forallb p l = true /\
    match post with [] => True | b :: _ => p b = false end /\
    k (i + length l) c = Some res.
Proof.
  intros Hk Hn H.
  destruct (maximal_run p (skipn i s)) as (l & post & E & Hl & Hp).
  exists l, post. repeat split; auto.
  destruct (k (i + length l) c) as [res'|] eqn:Ek; [|exfalso; eapply Hk; eauto].
  rewrite (star_cls_greedy p k post l i c E Hl Hp Hn Ek) in H. exact H.
Qed.

End Facts.

(** The equations of the matcher. *)
Lemma m_Seq fl s r1 r2 i c (k : Cont) :
  m fl s (Seq r1 r2) i c k = m fl s r1 i c (fun j c' => m fl s r2 j c' k).
Proof. reflexivity. Qed.

Lemma m_Group fl s g r i c (k : Cont) :
  m fl s (Group g r) i c k = m fl s r i c (fun j c' => k j ((g, (i, j)) :: c')).
Proof. reflexivity. Qed.

Lemma m_Alt fl s r1 r2 i c (k : Cont) :
  m fl s (Alt r1 r2) i c k =
  match m fl s r1 i c k with
  | Some x => Some x
  | None => m fl s r2 i c k
  end.
Proof. reflexivity. Qed.

Lemma m_Bol fl s i c (k : Cont) :
  m fl s Bol i c k = if at_line_start fl s i then k i c else None.
Proof. reflexivity. Qed.

Lemma m_Star fl s r i c (k : Cont) :
  m fl s (Star r) i c k = star_loop (m fl s r) k (S (length s - i)) i c.
Proof. reflexivity. Qed.

Lemma exec_from_here fl s r n i j c :
  m fl s r i [] accept = Some (j, c) ->
  exec_from fl s r n i = Some {| index := i; last := j; groups := c |}.
Proof. intros H. destruct n; simpl; rewrite H; reflexivity. Qed.

Lemma m_Chr fl s a i c (k : Cont) :
  m fl s (Chr a) i c k =
  match nth_error s i with
  | Some b => if char_eq fl a b then k (S i) c else None
  | None => None
  end.
Proof. reflexivity. Qed.

(** Without flags a literal matches its own text. *)
Lemma Lit_exact s l i c j c' :
  matches no_flags s (Lit l) i c j c' -> c' = c /\ reads s i j l.
Proof.
  intros H. apply matches_Lit in H. destruct H as (-> & l' & Hr & Hf).
  apply Forall2_char_eq_exact in Hf; [|reflexivity]. subst l'. auto.
Qed.

Lemma Chr_exact s a i c j c' :
  matches no_flags s (Chr a) i c j c' -> c' = c /\ reads s i j [a].
Proof.
  intros H. apply matches_Chr in H. destruct H as (-> & b & Hb & Hr).
  apply Ascii.eqb_eq in Hb. subst b. auto.
Qed.

End RegexFacts.

(** ** Pattern sources *)

Module SyntaxFacts.
Import Regex Patterns RegexFacts Syntax.

Lemma star_loop_ext (body body' : nat -> caps -> Cont -> option (nat * caps))
    (k k' : Cont) :
  (forall i c (K K' : Cont),
     (forall j c', K j c' = K' j c') -> body i c K = body' i c K') ->
  (forall j c, k j c = k' j c) ->
  forall n i c, star_loop body k n i c = star_loop body' k' n i c.
Proof.
  intros Hbody Hk n.
  induction n as [|n IH]; intros i c; simpl.
  - apply Hk.
  - rewrite (Hbody i c _ (fun j c' => if i <? j then star_loop body' k' n j c' else None)).
    + rewrite Hk. reflexivity.
    + intros j c'. destruct (i <? j); [apply IH | reflexivity].
Qed.

(** The matcher uses its continuation only through its results. *)
Lemma m_cont_ext fl s r :
  forall i c (k k' : Cont),
    (forall j c', k j c' = k' j c') ->
    m fl s r i c k = m fl s r i c k'.
Proof.
  induction r as [|a|p| |r1 IH1 r2 IH2|r1 IH1 r2 IH2|r IH|g r IH];
    intros i c k k' Hk.
  - simpl. apply Hk.
  - rewrite !m_Chr. destruct (nth_error s i); [|reflexivity].
    destruct (char_eq fl a a0); [apply Hk | reflexivity].
  - rewrite !m_Cls. destruct (nth_error s i); [|reflexivity].
    destruct (p a); [apply Hk | reflexivity].
  - rewrite !m_Bol. destruct (at_line_start fl s i); [apply Hk | reflexivity].
  - rewrite !m_Seq. apply IH1. intros j c'. apply IH2. exact Hk.
  - rewrite !m_Alt. rewrite (IH1 i c k k' Hk), (IH2 i c k k' Hk). reflexivity.
  - rewrite !m_Star. apply star_loop_ext; [|exact Hk].
    intros i0 c0 K K' HK. apply IH. exact HK.
  - rewrite !m_Group. apply IH. intros j c'. apply Hk.
Qed.

Lemma same_refl r : same r r.
Proof. intros fl s i c k. reflexivity. Qed.

Lemma same_trans r1 r2 r3 : same r1 r2 -> same r2 r3 -> same r1 r3.
Proof. intros H1 H2 fl s i c k. rewrite H1. apply H2. Qed.

Lemma same_Seq r1 r1' r2 r2' :
  same r1 r1' -> same r2 r2' -> same (Seq r1 r2) (Seq r1' r2').
Proof.
  intros H1 H2 fl s i c k. rewrite !m_Seq, H1.
  apply m_cont_ext. intros j c'. apply H2.
Qed.

Lemma same_Alt r1 r1' r2 r2' :
  same r1 r1' -> same r2 r2' -> same (Alt r1 r2) (Alt r1' r2').
Proof. intros H1 H2 fl s i c k. rewrite !m_Alt, H1, H2. reflexivity. Qed.

Lemma same_Group g r r' : same r r' -> same (Group g r) (Group g r').
Proof. intros H fl s i c k. rewrite !m_Group. apply H. Qed.

Lemma same_Cls (p p' : ascii -> bool) :
  (forall a, p a = p' a) -> same (Cls p) (Cls p').
Proof.
  intros H fl s i c k. rewrite !m_Cls.
  destruct (nth_error s i); [rewrite H|]; reflexivity.
Qed.

Lemma same_Seq_Empty r : same (Seq r Empty) r.
Proof.
  intros fl s i c k. rewrite m_Seq. apply m_cont_ext. reflexivity.
Qed.

Lemma same_Empty_Seq r : same (Seq Empty r) r.
Proof. intros fl s i c k. reflexivity. Qed.

(** Patterns that the matcher cannot tell apart give the same matches. *)
Lemma exec_from_same r r' fl s n i :
  same r r' -> exec_from fl s r n i = exec_from fl s r' n i.
Proof.
  intros H. revert i.
  induction n as [|n IH]; intros i; simpl; rewrite H; [reflexivity|].
  rewrite IH. reflexivity.
Qed.

Lemma exec_same r r' fl s li :
  same r r' -> exec fl s r li = exec fl s r' li.
Proof.
  intros H. unfold exec. destruct (li <=? length s); [|reflexivity].
  apply exec_from_same. exact H.
Qed.

(** The characters of [l] one after another, then [rest]. *)
Lemma same_chars l rest rest' :
  same rest rest' ->
  same (fold_right (fun a acc => Seq (Chr a) acc) rest l) (Seq (Lit l) rest').
Proof.
  intros H. induction l as [|a l IH]; simpl.
  - intros fl s i c k. rewrite H. reflexivity.
  - intros fl s i c k. rewrite !m_Seq, !m_Chr.
    destruct (nth_error s i); [|reflexivity].
    destruct (char_eq fl a a0); [|reflexivity].
    rewrite IH. reflexivity.
Qed.

(** A character that is no syntax character is a piece of its own. *)
Lemma tokens_char a s :
  is_syntax_character a = false ->
  tokens (a :: s) = cons_token (TAtom (Chr a)) (tokens s).
Proof. intros H. simpl. rewrite H. reflexivity. Qed.

Lemma tokens_plain l s ts :
  existsb is_syntax_character l = false ->
  tokens s = Pattern ts ->
  tokens (l ++ s) = Pattern (map (fun a => TAtom (Chr a)) l ++ ts).
Proof.
  intros Hl Hs. induction l as [|a l IH].
  - exact Hs.
  - simpl in Hl. apply orb_false_elim in Hl. destruct Hl as [Ha Hl].
    change ((a :: l) ++ s) with (a :: (l ++ s)).
    rewrite (@tokens_char a (l ++ s) Ha), (IH Hl). reflexivity.
Qed.

Lemma push_chars l f :
  fold_left (fun f a => push (Chr a) Atom f) l f =
  {| capture := capture f; alts := alts f;
     terms := rev (map Chr l) ++ terms f;
     tail := match l with [] => tail f | _ :: _ => Atom end |}.
Proof.
  revert f. induction l as [|a l IH]; intros f.
  - destruct f; reflexivity.
  - simpl fold_left. rewrite IH. unfold push at 1 2 3. simpl.
    rewrite <- app_assoc. destruct l; reflexivity.
Qed.

Lemma build_chars l ts cur stack g :
  build (map (fun a => TAtom (Chr a)) l ++ ts) cur stack g =
  build ts (fold_left (fun f a => push (Chr a) Atom f) l cur) stack g.
Proof.
  revert cur. induction l as [|a l IH]; intros cur; [reflexivity|].
  simpl. apply IH.
Qed.

Lemma seq_of_chars l before after :
  seq_of (before ++ rev (map Chr l) ++ after) =
  fold_left (fun acc t => Seq t acc) after
    (fold_right (fun a acc => Seq (Chr a) acc) (seq_of before) l).
Proof.
  unfold seq_of. rewrite !fold_left_app. f_equal.
  generalize (fold_left (fun acc t => Seq t acc) before Empty).
  induction l as [|a l IH]; intros r; [reflexivity|].
  simpl. rewrite fold_left_app, IH. reflexivity.
Qed.

(** The pattern of a label without syntax characters: [new RegExp] gives a
    pattern that the matcher cannot tell from the result pattern around the
    characters of the label. *)
Lemma testResultRegex_literal label :
  existsb is_syntax_character label = false ->
  exists r, testResultRegex label = Pattern r /\
            same r (result_pattern (Lit label)).
Proof.
  intros Hlit. unfold testResultRegex, compile, testResultSource.
  assert (Htok : forall x tx, tokens x = Pattern tx ->
            tokens (str ":([0-9]+):.*" ++ x) =
            Pattern ([TAtom (Chr ":"); TOpen true;
                      TAtom (Cls (class_pred false [CRange "0" "9"]));
                      TPlus; TClose; TAtom (Chr ":"); TAtom (Cls is_dot); TStar]
                     ++ tx)).
  { intros x tx Hx.
    change (tokens (str ":([0-9]+):.*" ++ x)) with
      (cons_token (TAtom (Chr ":")) (cons_token (TOpen true)
        (cons_token (TAtom (Cls (class_pred false [CRange "0" "9"])))
          (cons_token TPlus (cons_token TClose (cons_token (TAtom (Chr ":"))
            (cons_token (TAtom (Cls is_dot)) (cons_token TStar (tokens x))))))))).
    rewrite Hx. reflexivity. }
  pose (suffix :=
          [TAtom (Chr ":"); TOpen true]
          ++ map (fun a => TAtom (Chr a)) (str "PASS")
          ++ [TBar; TOpen true]
          ++ map (fun a => TAtom (Chr a)) (str "FAIL: ")
          ++ [TOpen true; TAtom (Cls is_dot); TStar; TClose; TClose; TClose]).
  assert (Hsuf : tokens (str ":(PASS|(FAIL: (.*)))") = Pattern suffix)
    by reflexivity.
  rewrite (Htok _ _ (@tokens_plain label _ _ Hlit Hsuf)).
  match goal with
  | |- exists r, build (?pre ++ ?mid ++ ?suf) _ _ _ = _ /\ _ =>
      change (exists r,
        build (mid ++ suf)
           {| capture := None; alts := [];
              terms := [Star (Cls is_dot); Chr ":";
                        Group 1 (Seq (Plus (Cls (class_pred false [CRange "0" "9"]))) Empty);
                        Chr ":"];
              tail := Quantified |} [] 2 = Pattern r /\
        same r (result_pattern (Lit label)))
  end.
  rewrite build_chars, push_chars. cbn [capture alts terms tail].
  eexists. split.
  - subst suffix. cbn [build quantify push new_frame next_alt close capture
                       alts terms tail nocap andb disj_of fold_left map app str
                       list_ascii_of_string].
    reflexivity.
  - match goal with
    | |- same (seq_of (?g2 :: ?colon :: ?mid ++ ?after)) _ =>
        change (seq_of (g2 :: colon :: mid ++ after))
          with (seq_of ([g2; colon] ++ mid ++ after))
    end.
    rewrite seq_of_chars. unfold result_pattern, testResultString.
    cbn [fold_left seq_of].
    apply same_Seq; [apply same_refl|].
    apply same_Seq; [apply same_Group, same_Seq_Empty|].
    apply same_Seq; [apply same_refl|].
    apply same_Seq; [apply same_refl|].
    apply same_chars.
    apply same_Seq; [apply same_refl|].
    eapply same_trans; [apply same_Seq_Empty|].
    apply same_Group. apply same_Alt.
    + apply same_refl.
    + eapply same_trans; [apply same_Seq_Empty|].
      apply same_Group.
      apply (@same_chars (str "FAIL: ")
               (Seq (Group 4 (Seq (Star (Cls is_dot)) Empty)) Empty)
               (Group 4 (Star dot))).
      eapply same_trans; [apply same_Seq_Empty|].
      apply same_Group, same_Seq_Empty.
Qed.

End SyntaxFacts.

(** ** The result pattern *)

Module ParserFacts.
Import Regex Patterns RegexFacts Spec.

(** With a label without syntax characters [checkTestResult] runs a pattern
    that gives the matches of the result pattern around the label. *)
Lemma checkTestResult_literal n out :
  literal (node_label n) ->
  Parser.checkTestResult n out =
  match exec no_flags out (result_pattern (Lit (node_label n))) 0 with
  | Some mr =>
      if match group out 2 mr with
         | Some g => str_eqb g (str "PASS")
         | None => false
         end
      then (Returned tt, [running n; passed n])
      else (Returned tt,
            [running n;
             TestEvent (node_id n) Failed
               [{| dec_line :=
                     Parser.minus_one (Parser.parseInt (Parser.text_of (group out 1 mr)));
                   dec_message := group out 4 mr |}]])
  | None => (Returned tt, [running n])
  end.
Proof.
  intros Hlit.
  destruct (@SyntaxFacts.testResultRegex_literal (node_label n) Hlit)
    as (r & Hr & Hsame).
  unfold Parser.checkTestResult. rewrite Hr.
  rewrite (@SyntaxFacts.exec_same _ _ no_flags out 0 Hsame). reflexivity.
Qed.

Lemma matches_Plus_Cls fl s p i c j c' :
  matches fl s (Plus (Cls p)) i c j c' ->
  c' = c /\ exists l, reads s i j l /\ l <> [] /\ forallb p l = true.
Proof.
  unfold Plus. inversion 1 as [| | | |r1 r2 i0 c0 j0 c1 l0 c2 Ha Hb| | | | |]; subst.
  apply matches_Cls in Ha. destruct Ha as (-> & b & Hb' & Hr).
  apply matches_Star_Cls in Hb. destruct Hb as (-> & l & Hr' & Hl).
  split; [reflexivity|]. exists (b :: l).
  split; [apply (reads_app Hr Hr')|].
  split; [discriminate|].
  simpl. rewrite Hb'. exact Hl.
Qed.

Lemma Plus_Cls_intro fl s p l i j c :
  reads s i j l -> l <> [] -> forallb p l = true ->
  matches fl s (Plus (Cls p)) i c j c.
Proof.
  intros Hr Hne Hl. destruct l as [|b l]; [congruence|].
  simpl in Hl. apply andb_prop in Hl. destruct Hl as [Hb Hl].
  apply reads_split in Hr. destruct Hr as [Hr1 Hr2].
  unfold Plus. econstructor.
  - eapply Cls_intro; eauto.
  - eapply Star_Cls_intro; eauto.
Qed.

Lemma char_eq_no_flags a : char_eq no_flags a a = true.
Proof. apply Ascii.eqb_refl. Qed.

(** A result line is matched by the result pattern. *)
Lemma result_line_matches label out i ds mid v :
  v = PASS \/ v = FAIL ->
  result_line label out i ds mid v ->
  exists e c, matches no_flags out (result_pattern (Lit label)) i [] e c.
Proof.
  intros Hv (Hne & Hds & Hmid & post & Hs).
  apply reads_of_skipn in Hs. destruct Hs as [R0 Hs].
  apply reads_of_skipn in Hs. destruct Hs as [R1 Hs].
  apply reads_of_skipn in Hs. destruct Hs as [R2 Hs].
  apply reads_of_skipn in Hs. destruct Hs as [R3 Hs].
  apply reads_of_skipn in Hs. destruct Hs as [R4 Hs].
  apply reads_of_skipn in Hs. destruct Hs as [R5 Hs].
  apply reads_of_skipn in Hs. destruct Hs as [R6 Hs].
  destruct Hv as [-> | ->]; do 2 eexists; unfold result_pattern, testResultString;
    (eapply M_Seq; [eapply Chr_intro; [exact R0 | apply char_eq_no_flags]|]);
    (eapply M_Seq; [apply M_Group; eapply Plus_Cls_intro; eauto|]);
    (eapply M_Seq; [eapply Chr_intro; [exact R2 | apply char_eq_no_flags]|]);
    (eapply M_Seq; [eapply Star_Cls_intro; eauto|]);
    (eapply M_Seq; [eapply Lit_intro; [exact R4 | apply Forall2_char_eq_refl]|]);
    (eapply M_Seq; [eapply Chr_intro; [exact R5 | apply char_eq_no_flags]|]);
    apply M_Group.
  - apply M_AltL. eapply Lit_intro; [exact R6 | apply Forall2_char_eq_refl].
  - apply M_AltR. apply M_Group.
    eapply M_Seq; [eapply Lit_intro; [exact R6 | apply Forall2_char_eq_refl]|].
    apply M_Group. apply M_Star0.
Qed.

(** What a match of the result pattern at [i] reads and captures. *)
Lemma result_pattern_match label out i e g :
  m no_flags out (result_pattern (Lit label)) i [] accept = Some (e, g) ->
  exists ds mid j1 j2,
    ds <> [] /\ forallb is_digit ds = true /\ forallb is_dot mid = true /\
    reads out (S i) j1 ds /\
    ((exists post,
        skipn i out =
          str ":" ++ ds ++ str ":" ++ mid ++ label ++ str ":" ++ PASS ++ post /\
        reads out j2 e PASS /\
        g = [(2, (j2, e)); (1, (S i, j1))])
     \/
     (exists msg post j3,
        skipn i out =
          str ":" ++ ds ++ str ":" ++ mid ++ label ++ str ":" ++ FAIL ++ msg ++ post /\
        at_line_end post /\ forallb is_dot msg = true /\
        reads out j2 j3 FAIL /\ reads out j3 e msg /\
        g = [(2, (j2, e)); (3, (j2, e)); (4, (j3, e)); (1, (S i, j1))])).
Proof.
  unfold result_pattern, testResultString. intros H.
  rewrite m_Seq in H. apply m_sound in H. destruct H as (i1 & c1 & M & H).
  apply Chr_exact in M. destruct M as (-> & R0).
  assert (i1 = S i) by (destruct R0 as [_ ->]; simpl; lia). subst i1.
  rewrite m_Seq, m_Group in H. apply m_sound in H.
  destruct H as (j1 & c1 & M & H).
  apply matches_Plus_Cls in M. destruct M as (-> & ds & R1 & Hne & Hds).
  rewrite m_Seq in H. apply m_sound in H. destruct H as (i2 & c2 & M & H).
  apply Chr_exact in M. destruct M as (-> & R2).
  rewrite m_Seq in H. apply m_sound in H. destruct H as (i3 & c3 & M & H).
  apply matches_Star_Cls in M. destruct M as (-> & mid & R3 & Hmid).
  rewrite m_Seq in H. apply m_sound in H. destruct H as (i4 & c4 & M & H).
  apply Lit_exact in M. destruct M as (-> & R4).
  rewrite m_Seq in H. apply m_sound in H. destruct H as (j2 & c5 & M & H).
  apply Chr_exact in M. destruct M as (-> & R5).
  exists ds, mid, j1, j2. repeat (split; [assumption|]).
  pose proof (reads_app R0 (reads_app R1 (reads_app R2
               (reads_app R3 (reads_app R4 R5))))) as Rpre.
  rewrite m_Group, m_Alt in H.
  destruct (m no_flags out (Lit (str "PASS")) j2 _ _) as [x|] eqn:E.
  - left. inversion H; subst x; clear H.
    apply m_sound in E. destruct E as (e' & c6 & M & H).
    apply Lit_exact in M. destruct M as (-> & R6).
    apply accept_some in H. inversion H; subst e' g; clear H.
    exists (skipn e out). split; [|split; [exact R6 | reflexivity]].
    pose proof (reads_app Rpre R6) as [Hs _].
    rewrite Hs. repeat rewrite <- app_assoc. reflexivity.
  - right. rewrite m_Group, m_Seq in H. apply m_sound in H.
    destruct H as (j3 & c6 & M & H).
    apply Lit_exact in M. destruct M as (-> & R6).
    rewrite m_Group, m_Star in H.
    apply star_cls_total in H; [| intros; discriminate | lia].
    destruct H as (msg & post & Hs & Hmsg & Hend & H).
    apply accept_some in H. inversion H; subst e g; clear H.
    apply reads_of_skipn in Hs. destruct Hs as [R7 Hpost].
    exists msg, post, j3.
    split; [|split; [exact Hend | split; [exact Hmsg |
             split; [exact R6 | split; [exact R7 | reflexivity]]]]].
    pose proof (reads_app Rpre (reads_app R6 R7)) as [Hs _].
    rewrite Hs, Hpost. repeat rewrite <- app_assoc. reflexivity.
Qed.

Lemma skipn_cons_lt (s : list ascii) i b rest :
  skipn i s = b :: rest -> i < length s.
Proof.
  intros H. apply skipn_cons_nth in H. destruct H as [H _].
  apply nth_error_Some. congruence.
Qed.

Lemma str_eqb_refl l : str_eqb l l = true.
Proof. unfold str_eqb. destruct (list_eq_dec ascii_dec l l); congruence. Qed.

Lemma str_eqb_eq a b : str_eqb a b = true -> a = b.
Proof. unfold str_eqb. destruct (list_eq_dec ascii_dec a b); congruence. Qed.

Lemma str_eqb_neq a b : a <> b -> str_eqb a b = false.
Proof. unfold str_eqb. destruct (list_eq_dec ascii_dec a b); congruence. Qed.

(** What [checkTestResult] fires when the pattern matches at [index mr]. *)
Lemma checkTestResult_match n out mr :
  literal (node_label n) ->
  exec no_flags out (result_pattern (Lit (node_label n))) 0 = Some mr ->
  exists ds mid,
    (result_line (node_label n) out (index mr) ds mid PASS /\
     Parser.checkTestResult n out = (Returned tt, [running n; passed n]))
    \/
    (exists msg,
       fail_line (node_label n) out (index mr) ds mid msg /\
       Parser.checkTestResult n out =
         (Returned tt,
          [running n; failed n (Parser.minus_one (Parser.parseInt ds)) msg])).
Proof.
  intros Hlit Hexec.
  destruct (@exec_some _ _ _ _ _ Hexec) as (_ & _ & Hm & _).
  apply result_pattern_match in Hm.
  destruct Hm as (ds & mid & j1 & j2 & Hne & Hds & Hmid & R1 & Hcase).
  exists ds, mid.
  rewrite (@checkTestResult_literal n out Hlit), Hexec.
  unfold group.
  destruct Hcase as [(post & Hs & R6 & ->) | (msg & post & j3 & Hs & Hend & Hmsg & R6 & R7 & ->)].
  - left. split.
    + repeat (split; [assumption|]). exists post. exact Hs.
    + simpl cap_get. cbv beta iota. rewrite (reads_substring R6). reflexivity.
  - right. exists msg. split.
    + repeat (split; [assumption|]). exists post. split; assumption.
    + simpl cap_get. cbv beta iota.
      rewrite (reads_substring (reads_app R6 R7)), (reads_substring R1),
        (reads_substring R7).
      rewrite str_eqb_neq by discriminate. reflexivity.
Qed.

(** C2. For a label without syntax characters [checkTestResult] classifies
    the first line that matches the result pattern of the test: when some
    line matches, the pattern matches at a first position [i]; no result
    line starts before [i]; and either a result line with PASS starts at [i]
    and the events are running and passed, or a result line with FAIL and
    the message [msg], which runs to the end of the line, starts at [i] and
    the events are running and failed, with the decoration line the number
    of the output minus 1 and the message [msg].  In particular the test of
    ":12:test_addTwoNumbers:PASS" is passed and the test of
    ":20:test_sub:FAIL: Expected 4 Was 5" is failed with line 19 and message
    "Expected 4 Was 5".  For the test [Examples.test_foo], which [loadTests]
    builds for a test written on one line, the label is spliced into the
    pattern source as it is and the source is no pattern: the output
    [Examples.guarded_output] has a result line with PASS for the label, and
    on every output [checkTestResult] fires the running event and is
    rejected; no passed and no failed event is fired. *)
Theorem checkTestResult_classifies :
  (forall n out,
     literal (node_label n) ->
     has_result_line (node_label n) out ->
     classified n out)
  /\ Parser.checkTestResult test_addTwoNumbers
       (str ":12:test_addTwoNumbers:PASS" ++ LF)
     = (Returned tt, [running test_addTwoNumbers; passed test_addTwoNumbers])
  /\ Parser.checkTestResult test_sub
       (str ":20:test_sub:FAIL: Expected 4 Was 5")
     = (Returned tt,
        [running test_sub; failed test_sub (Finite 19) (str "Expected 4 Was 5")])
  /\ has_result_line (node_label Examples.test_foo) Examples.guarded_output
  /\ (forall out,
        Parser.checkTestResult Examples.test_foo out =
        (Rejected, [running Examples.test_foo])).
Proof.
  split; [|split; [vm_compute; reflexivity|split; [vm_compute; reflexivity|]]].
  - intros n out Hlit (j & ds0 & mid0 & v & Hv & Hline). unfold classified.
    destruct (result_line_matches Hv Hline) as (e & c & Hm).
    assert (Hj : j < length out).
    { destruct Hline as (_ & _ & _ & post & Hs). simpl in Hs.
      eapply skipn_cons_lt; eauto. }
    destruct (@exec_complete _ _ _ 0 _ _ _ Hm) as (mr & Hexec & Hle); [lia|].
    destruct (@exec_some _ _ _ _ _ Hexec) as (_ & _ & _ & Hfirst).
    destruct (@checkTestResult_match n out mr Hlit Hexec) as (ds & mid & Hcase).
    exists (index mr), ds, mid. split; [|exact Hcase].
    intros j' ds' mid' v' Hlt Hv' Hline'.
    destruct (result_line_matches Hv' Hline') as (e' & c' & Hm').
    apply (Hfirst j' e' c'); [lia | exact Hm'].
  - split.
    + exists 19, (str "1"), [], PASS. split; [left; reflexivity|].
      split; [discriminate|]. split; [reflexivity|]. split; [reflexivity|].
      exists LF. reflexivity.
    + intros out. unfold Parser.checkTestResult.
      replace (testResultRegex (node_label Examples.test_foo))
        with (@Syntax.SyntaxError regex) by (vm_compute; reflexivity).
      reflexivity.
Qed.

Lemma checkTestResult_classifies_witness :
  literal (node_label test_sub) /\
  has_result_line (node_label test_sub)
    (str ":20:test_sub:FAIL: Expected 4 Was 5") /\
  classified test_sub (str ":20:test_sub:FAIL: Expected 4 Was 5").
Proof.
  assert (Hline : has_result_line (node_label test_sub)
                    (str ":20:test_sub:FAIL: Expected 4 Was 5")).
  { exists 0, (str "20"), [], FAIL. split; [right; reflexivity|].
    split; [discriminate|]. split; [reflexivity|]. split; [reflexivity|].
    exists (str "Expected 4 Was 5"). reflexivity. }
  split; [reflexivity|]. split; [exact Hline|].
  apply (proj1 checkTestResult_classifies test_sub
           (str ":20:test_sub:FAIL: Expected 4 Was 5"));
    [reflexivity | exact Hline].
Defined.

Lemma fail_line_has_result_line label out i ds mid msg :
  fail_line label out i ds mid msg -> has_result_line label out.
Proof.
  intros (Hne & Hds & Hmid & _ & post & Hs & _).
  exists i, ds, mid, FAIL. split; [right; reflexivity|].
  repeat (split; [assumption|]). exists (msg ++ post).
  rewrite Hs. reflexivity.
Qed.

(** C3, as amended.  For a test whose label holds no syntax character of
    the pattern grammar: when no line of the output matches the result
    pattern of the test, [checkTestResult] returns and fires the running
    event of the test and nothing else, no passed and no failed event. *)
Theorem checkTestResult_no_match n out :
  literal (node_label n) ->
  ~ has_result_line (node_label n) out ->
  Parser.checkTestResult n out = (Returned tt, [running n]).
Proof.
  intros Hlit Hno.
  destruct (exec no_flags out (result_pattern (Lit (node_label n))) 0)
    as [mr|] eqn:Hexec.
  - exfalso. apply Hno.
    destruct (@checkTestResult_match n out mr Hlit Hexec)
      as (ds & mid & [[Hl _] | (msg & Hl & _)]).
    + exists (index mr), ds, mid, PASS. split; [left; reflexivity | exact Hl].
    + eapply fail_line_has_result_line; eauto.
  - rewrite (@checkTestResult_literal n out Hlit), Hexec. reflexivity.
Qed.

Lemma no_result_line_in_empty label : ~ has_result_line label [].
Proof.
  intros (i & ds & mid & v & _ & _ & _ & _ & post & Hs).
  rewrite skipn_nil in Hs. discriminate.
Qed.

Lemma checkTestResult_no_match_witness :
  literal (node_label test_sub) /\
  ~ has_result_line (node_label test_sub) [] /\
  Parser.checkTestResult test_sub [] = (Returned tt, [running test_sub]).
Proof.
  split; [reflexivity|]. split; [apply no_result_line_in_empty|].
  apply (@checkTestResult_no_match test_sub []);
    [reflexivity | apply no_result_line_in_empty].
Defined.

(** C3 as stated fails: on the empty output no line matches, and
    [checkTestResult] still fires an event, the running event. *)
Lemma checkTestResult_no_match_not_silent :
  ~ has_result_line (node_label test_sub) [] /\
  literal (node_label test_sub) /\
  snd (Parser.checkTestResult test_sub []) = [running test_sub] /\
  snd (Parser.checkTestResult test_sub []) <> [].
Proof.
  split; [apply no_result_line_in_empty|].
  split; [reflexivity|].
  split; [vm_compute; reflexivity | vm_compute; discriminate].
Qed.

End ParserFacts.

(** ** Test extraction and labels *)

Module LoaderFacts.
Import Regex Patterns RegexFacts Spec Loader.

Lemma Seq_inv fl s r1 r2 i c l c'' :
  matches fl s (Seq r1 r2) i c l c'' ->
  exists j c', matches fl s r1 i c j c' /\ matches fl s r2 j c' l c''.
Proof. inversion 1; subst; eauto. Qed.

Lemma Group_inv fl s g r i c j c' :
  matches fl s (Group g r) i c j c' ->
  exists c0, matches fl s r i c j c0 /\ c' = (g, (i, j)) :: c0.
Proof. inversion 1; subst; eauto. Qed.

Lemma Bol_inv fl s i c j c' :
  matches fl s Bol i c j c' -> j = i /\ c' = c /\ at_line_start fl s i = true.
Proof. inversion 1; subst; auto. Qed.

Lemma Lit_m s l i c j c' :
  matches testNameFlags s (Lit l) i c j c' -> c' = c /\ reads s i j l.
Proof.
  intros H. apply matches_Lit in H. destruct H as (-> & l' & Hr & Hf).
  apply Forall2_char_eq_exact in Hf; [|reflexivity]. subst l'. auto.
Qed.

Lemma declaration_tail_match s i c e g :
  matches testNameFlags s declaration_tail i c e g ->
  exists tail a b, reads s i e tail /\ g = (3, (a, b)) :: c.
Proof.
  unfold declaration_tail. intros H.
  destruct (matches_reads H) as [tail Ht].
  exists tail.
  apply Seq_inv in H. destruct H as (j1 & c1 & M1 & H).
  apply matches_nocap in M1; [|reflexivity]. subst c1.
  apply Seq_inv in H. destruct H as (j2 & c2 & M2 & H).
  apply matches_nocap in M2; [|reflexivity]. subst c2.
  apply Seq_inv in H. destruct H as (j3 & c3 & M3 & H).
  apply matches_nocap in M3; [|reflexivity]. subst c3.
  apply Seq_inv in H. destruct H as (j4 & c4 & M4 & H).
  apply matches_nocap in M4; [|reflexivity]. subst c4.
  apply Seq_inv in H. destruct H as (j5 & c5 & M5 & H).
  apply matches_nocap in M5; [|reflexivity]. subst c5.
  apply Seq_inv in H. destruct H as (j6 & c6 & M6 & H).
  apply Group_inv in M6. destruct M6 as (c0 & M6 & ->).
  apply matches_nocap in M6; [|reflexivity]. subst c0.
  apply Seq_inv in H. destruct H as (j7 & c7 & M7 & H).
  apply matches_nocap in M7; [|reflexivity]. subst c7.
  apply matches_nocap in H; [|reflexivity]. subst g.
  exists j5, j6. split; [exact Ht | reflexivity].
Qed.

(** What a match of the declaration pattern reads and captures. *)
Lemma testName_match fileText lastIndex mr :
  exec testNameFlags fileText testNameRegex lastIndex = Some mr ->
  exists wsp sp g2 tail,
    reads fileText (index mr) (last mr)
      (wsp ++ str "void" ++ sp ++ testFunctionPrefix ++ g2 ++ tail) /\
    forallb is_space wsp = true /\
    forallb is_dot g2 = true /\
    group fileText 1 mr = Some testFunctionPrefix /\
    group fileText 2 mr = Some g2 /\
    lastIndex <= index mr.
Proof.
  intros Hexec.
  destruct (@exec_some _ _ _ _ _ Hexec) as (Hi & H & _ & _).
  unfold testNameRegex in H. fold declaration_tail in H.
  apply Seq_inv in H. destruct H as (j0 & c0 & M0 & H).
  apply Bol_inv in M0. destruct M0 as (-> & -> & _).
  apply Seq_inv in H. destruct H as (j1 & c1 & M1 & H).
  apply matches_Star_Cls in M1. destruct M1 as (-> & wsp & R1 & Hws).
  apply Seq_inv in H. destruct H as (j2 & c2 & M2 & H).
  apply Lit_m in M2. destruct M2 as (-> & R2).
  apply Seq_inv in H. destruct H as (j3 & c3 & M3 & H).
  pose proof (matches_nocap M3 eq_refl) as ->.
  apply matches_reads in M3. destruct M3 as [sp R3].
  apply Seq_inv in H. destruct H as (j4 & c4 & M4 & H).
  apply Group_inv in M4. destruct M4 as (c0 & M4 & ->).
  apply Lit_m in M4. destruct M4 as (-> & R4).
  apply Seq_inv in H. destruct H as (j5 & c5 & M5 & H).
  apply Group_inv in M5. destruct M5 as (c0 & M5 & ->).
  apply matches_Star_Cls in M5. destruct M5 as (-> & g2 & R5 & Hg2).
  apply declaration_tail_match in H. destruct H as (tail & a & b & R6 & Hg).
  exists wsp, sp, g2, tail.
  split; [exact (reads_app R1 (reads_app R2 (reads_app R3
                   (reads_app R4 (reads_app R5 R6)))))|].
  split; [exact Hws|]. split; [exact Hg2|].
  unfold group. rewrite Hg. simpl cap_get. cbv beta iota.
  rewrite (reads_substring R4), (reads_substring R5).
  repeat split. lia.
Qed.

(** ** Line numbers *)

Lemma split_nl_length t : length (split_nl t) = S (count_nl t).
Proof.
  unfold count_nl. induction t as [|a t IH]; simpl; [reflexivity|].
  destruct (code a =? 10); simpl.
  - rewrite IH. reflexivity.
  - destruct (split_nl t) as [|seg segs]; simpl in *; [discriminate | exact IH].
Qed.

Lemma count_nl_app a b : count_nl (a ++ b) = count_nl a + count_nl b.
Proof. unfold count_nl. rewrite filter_app, length_app. reflexivity. Qed.

Lemma firstn_plus (s : list ascii) : forall i n,
  firstn (i + n) s = firstn i s ++ firstn n (skipn i s).
Proof.
  induction s as [|a s IH]; intros [|i] n; simpl; try reflexivity.
  - destruct n; reflexivity.
  - rewrite IH. reflexivity.
Qed.

Lemma firstn_length_app (l x : list ascii) : firstn (length l) (l ++ x) = l.
Proof.
  rewrite firstn_app, firstn_all, Nat.sub_diag. simpl. apply app_nil_r.
Qed.

Lemma firstn_reads s i j l :
  reads s i j l -> firstn j s = firstn i s ++ l.
Proof.
  intros [H ->]. rewrite firstn_plus, H, firstn_length_app. reflexivity.
Qed.

Lemma nth_error_after (wsp : list ascii) b rest :
  nth_error (wsp ++ b :: rest) (length wsp) = Some b.
Proof.
  rewrite nth_error_app2 by lia. rewrite Nat.sub_diag. reflexivity.
Qed.

(** [search] with the pattern [\S] finds the end of the leading white
    space. *)
Lemma search_nonspace_leading wsp b rest :
  forallb is_space wsp = true -> is_nonspace b = true ->
  search_nonspace (wsp ++ b :: rest) = Z.of_nat (length wsp).
Proof.
  intros Hws Hb. unfold search_nonspace.
  set (t := wsp ++ b :: rest).
  assert (Hm : matches no_flags t (Cls is_nonspace) (length wsp) []
                 (S (length wsp)) []).
  { econstructor; [apply nth_error_after | exact Hb]. }
  destruct (@exec_complete _ _ _ 0 _ _ _ Hm) as (mr & Hexec & Hle).
  { unfold t. rewrite length_app. simpl. lia. }
  rewrite Hexec. f_equal.
  destruct (@exec_some _ _ _ _ _ Hexec) as (_ & H & _ & _).
  apply matches_Cls in H. destruct H as (_ & b' & Hb' & Hr).
  apply reads_head in Hr.
  destruct (Nat.eq_dec (index mr) (length wsp)) as [|Hne]; [assumption|].
  exfalso. unfold t in Hr. rewrite nth_error_app1 in Hr by lia.
  apply nth_error_In in Hr.
  rewrite forallb_forall in Hws. apply Hws in Hr.
  unfold is_nonspace in Hb'. rewrite Hr in Hb'. discriminate.
Qed.

(** The line recorded for a match: the line feeds before the match plus the
    line feeds of its leading white space. *)
Lemma test_line_spec fileText lastIndex mr :
  exec testNameFlags fileText testNameRegex lastIndex = Some mr ->
  exists wsp rest,
    skipn (index mr) fileText = wsp ++ str "void" ++ rest /\
    forallb is_space wsp = true /\
    test_line fileText mr = count_nl (firstn (index mr) fileText) + count_nl wsp /\
    test_line fileText mr = count_nl (firstn (index mr + length wsp) fileText).
Proof.
  intros Hexec.
  destruct (testName_match _ _ Hexec) as (wsp & sp & g2 & tail & R & Hws & _).
  set (rest := sp ++ testFunctionPrefix ++ g2 ++ tail) in *.
  assert (Hs : skipn (index mr) fileText =
               wsp ++ str "void" ++ rest ++ skipn (last mr) fileText).
  { destruct R as [-> _]. repeat rewrite <- app_assoc. reflexivity. }
  exists wsp, (rest ++ skipn (last mr) fileText).
  split; [exact Hs|]. split; [exact Hws|].
  assert (Hline : test_line fileText mr =
                  count_nl (firstn (index mr) fileText) + count_nl wsp).
  { unfold test_line, matched, substr0.
    rewrite (reads_substring R), Nat2Z.id.
    change (wsp ++ str "void" ++ rest)
      with (wsp ++ chr "v" :: (str "oid" ++ rest)).
    rewrite search_nonspace_leading by (assumption || reflexivity).
    rewrite Nat2Z.id, firstn_length_app, !split_nl_length. lia. }
  split; [exact Hline|].
  rewrite Hline. apply reads_of_skipn in Hs. destruct Hs as [Rw _].
  rewrite (firstn_reads Rw), count_nl_app. reflexivity.
Qed.

(** ** The extraction loop *)

Section Extraction.

Variable P : path_api.
Variable workspacePath : list ascii.
Variable isPrettyTestLabelEnable isPrettyTestFileLabelEnable : bool.
Variable readFile : list ascii -> option (list ascii).

(** A match of the declaration pattern is never empty and ends inside the
    text, so the loop ends. *)
Lemma testName_match_advances fileText lastIndex mr :
  exec testNameFlags fileText testNameRegex lastIndex = Some mr ->
  lastIndex < last mr <= length fileText.
Proof.
  intros Hexec.
  destruct (testName_match _ _ Hexec) as (wsp & sp & g2 & tail & R & _ & _ & _ & _ & Hli).
  assert (Hne : wsp ++ str "void" ++ sp ++ testFunctionPrefix ++ g2 ++ tail <> []).
  { destruct wsp; discriminate. }
  pose proof (reads_le R Hne) as Hle.
  destruct R as [_ E]. rewrite E in *. rewrite !length_app in *.
  change (length (str "void")) with 4 in *. lia.
Qed.

Lemma extract_spec (Q : node -> Prop) file fileText :
  (forall lastIndex mr,
     exec testNameFlags fileText testNameRegex lastIndex = Some mr ->
     Q (test_of_match isPrettyTestLabelEnable file fileText mr)) ->
  forall fuel lastIndex,
    length fileText - lastIndex < fuel ->
    exists tests,
      extract isPrettyTestLabelEnable fuel file fileText lastIndex = Some tests /\
      Forall Q tests.
Proof.
  intros HQ fuel. induction fuel as [|fuel IH]; intros lastIndex Hfuel; [lia|].
  simpl.
  destruct (exec testNameFlags fileText testNameRegex lastIndex) as [mr|] eqn:E.
  - pose proof (testName_match_advances _ _ E) as Hadv.
    destruct (IH (last mr)) as (tests & -> & Hall); [lia|].
    eexists. split; [reflexivity|]. constructor; [eapply HQ; eauto | exact Hall].
  - exists []. split; [reflexivity | constructor].
Qed.

Lemma loadSuite_spec (Q : list ascii -> node -> Prop) file fileText :
  readFile file = Some fileText ->
  (forall lastIndex mr,
     exec testNameFlags fileText testNameRegex lastIndex = Some mr ->
     Q fileText (test_of_match isPrettyTestLabelEnable file fileText mr)) ->
  exists tests,
    loadSuite P workspacePath isPrettyTestLabelEnable
              isPrettyTestFileLabelEnable readFile file =
    Returned (Suite file
                (setFileLabel P workspacePath isPrettyTestFileLabelEnable file)
                (Some file) tests) /\
    Forall (Q fileText) tests.
Proof.
  intros Hread HQ. unfold loadSuite. rewrite Hread.
  destruct (@extract_spec (Q fileText) file fileText HQ (S (length fileText)) 0)
    as (tests & -> & Hall); [lia|].
  exists tests. split; [reflexivity | exact Hall].
Qed.

(** The loop of [extract] ends, and its tests are the tests of the
    successive matches, in order. *)
Lemma extract_successive file fileText :
  forall fuel lastIndex,
    length fileText - lastIndex < fuel ->
    exists ms,
      successive fileText lastIndex ms /\
      extract isPrettyTestLabelEnable fuel file fileText lastIndex =
      Some (map (test_of_match isPrettyTestLabelEnable file fileText) ms).
Proof.
  intros fuel. induction fuel as [|fuel IH]; intros lastIndex Hfuel; [lia|].
  simpl.
  destruct (exec testNameFlags fileText testNameRegex lastIndex) as [mr|] eqn:E.
  - pose proof (testName_match_advances _ _ E) as Hadv.
    destruct (IH (last mr)) as (ms & Hms & ->); [lia|].
    exists (mr :: ms). split; [|reflexivity].
    apply successive_next; assumption.
  - exists []. split; [|reflexivity]. apply successive_end. exact E.
Qed.

Lemma loadSuite_successive file fileText :
  readFile file = Some fileText ->
  exists ms,
    successive fileText 0 ms /\
    loadSuite P workspacePath isPrettyTestLabelEnable
              isPrettyTestFileLabelEnable readFile file =
    Returned (Suite file
                (setFileLabel P workspacePath isPrettyTestFileLabelEnable file)
                (Some file)
                (map (test_of_match isPrettyTestLabelEnable file fileText) ms)).
Proof.
  intros Hread. unfold loadSuite. rewrite Hread.
  destruct (@extract_successive file fileText (S (length fileText)) 0)
    as (ms & Hms & ->); [lia|].
  exists ms. split; [exact Hms | reflexivity].
Qed.

End Extraction.

(** Every one of the successive matches was found by a search. *)
Lemma successive_exec fileText lastIndex ms :
  successive fileText lastIndex ms ->
  forall mr, In mr ms ->
    exists li, exec testNameFlags fileText testNameRegex li = Some mr.
Proof.
  induction 1 as [li E|li mr0 ms E _ IH]; intros mr Hin; [destruct Hin|].
  destruct Hin as [<-|Hin]; [exists li; exact E | apply IH; exact Hin].
Qed.

(** A declaration lies inside of the text. *)
Lemma declared_in_text fileText j :
  declared_at fileText j -> j < length fileText.
Proof.
  intros (e & c & H). unfold testNameRegex in H.
  apply Seq_inv in H. destruct H as (j0 & c0 & M0 & H).
  apply Bol_inv in M0. destruct M0 as (-> & -> & _).
  apply Seq_inv in H. destruct H as (j1 & c1 & M1 & H).
  apply matches_Star_Cls in M1. destruct M1 as (-> & wsp & R1 & Hws).
  apply Seq_inv in H. destruct H as (j2 & c2 & M2 & H).
  apply Lit_m in M2. destruct M2 as (-> & R2).
  pose proof (reads_app R1 R2) as R.
  assert (Hne : wsp ++ str "void" <> []) by (destruct wsp; discriminate).
  pose proof (reads_le R Hne) as Hle.
  destruct R as [_ E]. rewrite length_app in E.
  change (length (str "void")) with 4 in E. lia.
Qed.

(** No declaration is passed over: a position at which the declaration
    pattern matches lies in one of the successive matches. *)
Lemma successive_covers fileText lastIndex ms :
  successive fileText lastIndex ms ->
  forall j, lastIndex <= j -> declared_at fileText j ->
    exists mr, In mr ms /\ index mr <= j < last mr.
Proof.
  induction 1 as [li E|li mr ms E _ IH]; intros j Hj Hd.
  - exfalso. pose proof (declared_in_text Hd) as Hlt.
    destruct Hd as (e & c & Hm).
    apply (@exec_none _ _ _ li E) with (j := j) (e := e) (c := c);
      [lia | lia | exact Hm].
  - destruct (le_lt_dec (last mr) j) as [Hle|Hlt].
    + destruct (IH j Hle Hd) as (mr' & Hin & Hspan).
      exists mr'. split; [right; exact Hin | exact Hspan].
    + exists mr. split; [left; reflexivity|]. split; [|exact Hlt].
      destruct (@exec_some _ _ _ _ _ E) as (_ & _ & _ & Hn).
      destruct (le_lt_dec (index mr) j) as [|Hlt']; [assumption|].
      exfalso. destruct Hd as (e & c & Hm).
      apply (Hn j e c); [lia | exact Hm].
Qed.

(** C5. When every test file can be read, [loadTests] returns the tree, one
    suite per file in order.  The tests of a suite are the tests of the
    successive matches of the declaration pattern in the text of its file,
    one test for each match, in order; a position at which the pattern
    matches lies in one of these matches, so no declaration is passed over;
    and the line of the test of a match is the line of its [void] token: the
    number of line feeds before the start of the match plus the number of
    line feeds in the leading white space of the match, which is the number
    of line feeds before [void]. *)
Theorem loadTests_line_of_void
    (P : path_api) (workspacePath : list ascii)
    (isPrettyTestLabelEnable isPrettyTestFileLabelEnable : bool)
    (readFile : list ascii -> option (list ascii)) (files : list (list ascii)) :
  (forall file, In file files -> readFile file <> None) ->
  exists suites,
    loadTests P workspacePath isPrettyTestLabelEnable
              isPrettyTestFileLabelEnable readFile files =
    Returned (Suite (str "root") (str "Unity") None suites) /\
    Forall2 (fun file suite =>
               exists fileText ms,
                 readFile file = Some fileText /\
                 node_id suite = file /\
                 successive fileText 0 ms /\
                 node_children suite =
                   map (test_of_match isPrettyTestLabelEnable file fileText) ms /\
                 (forall j, declared_at fileText j ->
                    exists mr, In mr ms /\ index mr <= j < last mr) /\
                 Forall (fun mr =>
                           void_line fileText mr
                             (node_line (test_of_match isPrettyTestLabelEnable
                                           file fileText mr))) ms /\
                 Forall (on_void_line file fileText) (node_children suite))
            files suites.
Proof.
  intros Hread. unfold loadTests.
  induction files as [|file files IH]; simpl.
  - exists []. split; [reflexivity | constructor].
  - destruct (readFile file) as [fileText|] eqn:Hf;
      [|exfalso; apply (Hread file); [left; reflexivity | exact Hf]].
    destruct (@loadSuite_successive P workspacePath isPrettyTestLabelEnable
                isPrettyTestFileLabelEnable readFile file fileText Hf)
      as (ms & Hms & ->).
    destruct IH as (suites & Hs & Hall').
    { intros f Hin. apply Hread. right. exact Hin. }
    destruct (loadSuites _ _ _ _ _ files) as [suites'| | |]; try discriminate.
    inversion Hs; subst suites'.
    eexists. split; [reflexivity|].
    constructor; [|exact Hall'].
    exists fileText, ms.
    split; [exact Hf|]. split; [reflexivity|]. split; [exact Hms|].
    split; [reflexivity|].
    split; [intros j Hd; apply (successive_covers Hms); [lia | exact Hd]|].
    split.
    + apply Forall_forall. intros mr Hin.
      destruct (successive_exec Hms mr Hin) as (li & Hexec).
      destruct (test_line_spec _ _ Hexec) as (wsp & rest & Hs' & Hws & H1 & H2).
      exists wsp, rest. repeat split; assumption.
    + cbn [node_children]. apply Forall_forall. intros t Hin.
      apply in_map_iff in Hin. destruct Hin as (mr & <- & Hin).
      destruct (successive_exec Hms mr Hin) as (li & Hexec).
      destruct (test_line_spec _ _ Hexec) as (wsp & rest & Hs' & Hws & H1 & H2).
      exists li, mr, wsp, rest.
      split; [exact Hexec|]. split; [reflexivity|].
      repeat split; assumption.
Qed.

Lemma loadTests_line_of_void_witness :
  (forall file, In file [Examples.calc_path] -> Examples.readFile file <> None) /\
  exists suites,
    loadTests Examples.posix (str "/ws") false false Examples.readFile
              [Examples.calc_path] =
    Returned (Suite (str "root") (str "Unity") None suites) /\
    Forall2 (fun file suite =>
               exists fileText ms,
                 Examples.readFile file = Some fileText /\
                 node_id suite = file /\
                 successive fileText 0 ms /\
                 node_children suite = map (test_of_match false file fileText) ms /\
                 (forall j, declared_at fileText j ->
                    exists mr, In mr ms /\ index mr <= j < last mr) /\
                 Forall (fun mr =>
                           void_line fileText mr
                             (node_line (test_of_match false file fileText mr))) ms /\
                 Forall (on_void_line file fileText) (node_children suite))
            [Examples.calc_path] suites.
Proof.
  assert (H : forall file, In file [Examples.calc_path] ->
                           Examples.readFile file <> None).
  { intros file [<-|[]]. vm_compute. discriminate. }
  split; [exact H|].
  apply (@loadTests_line_of_void Examples.posix (str "/ws") false false
           Examples.readFile [Examples.calc_path] H).
Defined.

(** The lines of the example file: the first declaration is on line 2, the
    second, after a blank line and split by a backslash, on line 5. *)
Example loadTests_example_lines :
  option_map (map node_line)
    (extract false (S (length Examples.calc_test_c)) Examples.calc_path
             Examples.calc_test_c 0)
  = Some [2; 5].
Proof. vm_compute. reflexivity. Qed.

(** ** Labels *)

(** A literal that the input reads is matched and the continuation goes
    on. *)
Lemma m_Lit_reads s l : forall i j c (k : Cont),
  reads s i j l -> m no_flags s (Lit l) i c k = k j c.
Proof.
  induction l as [|a l IH]; intros i j c k Hr.
  - destruct Hr as [_ ->]. simpl. rewrite Nat.add_0_r. reflexivity.
  - pose proof (reads_head Hr) as Hn.
    apply reads_split in Hr. destruct Hr as [_ Hr].
    simpl Lit. rewrite m_Seq, m_Chr, Hn.
    unfold char_eq. simpl ignoreCase. unfold ascii_eqb.
    rewrite Ascii.eqb_refl. apply IH. exact Hr.
Qed.

Lemma setTestLabel_strips rest :
  forallb is_dot rest = true ->
  setTestLabel true (testFunctionPrefix ++ rest) = rest.
Proof.
  intros Hrest. unfold setTestLabel, exec.
  set (s := testFunctionPrefix ++ rest).
  assert (R1 : reads s 0 (length testFunctionPrefix) testFunctionPrefix).
  { apply (@reads_of_skipn s 0 testFunctionPrefix rest). reflexivity. }
  assert (R2 : reads s (length testFunctionPrefix) (length s) rest).
  { unfold s at 2. rewrite length_app.
    apply (@reads_of_skipn s (length testFunctionPrefix) rest []).
    rewrite app_nil_r. unfold s.
    rewrite skipn_app, skipn_all, Nat.sub_diag. reflexivity. }
  assert (Hm : m no_flags s testLabelRegex 0 [] accept =
               Some (length s,
                     [(2, (length testFunctionPrefix, length s));
                      (1, (0, length testFunctionPrefix))])).
  { unfold testLabelRegex. rewrite m_Seq, m_Bol.
    change (at_line_start no_flags s 0) with true. cbv iota.
    rewrite m_Seq, m_Group, (m_Lit_reads _ _ R1), m_Group, m_Star.
    apply star_cls_greedy with (post := []) (l := rest).
    - destruct R2 as [-> _]. rewrite skipn_all. reflexivity.
    - exact Hrest.
    - exact I.
    - lia.
    - destruct R2 as [_ <-]. reflexivity. }
  simpl Nat.leb. rewrite (exec_from_here _ _ _ _ _ Hm).
  unfold group. simpl cap_get. cbv beta iota.
  exact (reads_substring R2).
Qed.

Lemma at_line_start_no_flags s i : at_line_start no_flags s i = true -> i = 0.
Proof. destruct i; simpl; [reflexivity | discriminate]. Qed.

Lemma setTestLabel_unchanged pretty name :
  (forall rest, name <> testFunctionPrefix ++ rest) ->
  setTestLabel pretty name = name.
Proof.
  intros Hno. unfold setTestLabel. destruct pretty; [|reflexivity].
  destruct (exec no_flags name testLabelRegex 0) as [mr|] eqn:E; [|reflexivity].
  exfalso. destruct (@exec_some _ _ _ _ _ E) as (_ & H & _ & _).
  unfold testLabelRegex in H.
  apply Seq_inv in H. destruct H as (j0 & c0 & M0 & H).
  apply Bol_inv in M0. destruct M0 as (-> & -> & Hb).
  apply at_line_start_no_flags in Hb.
  apply Seq_inv in H. destruct H as (j1 & c1 & M1 & _).
  apply Group_inv in M1. destruct M1 as (c2 & M1 & _).
  apply Lit_exact in M1. destruct M1 as (_ & [Hs _]).
  rewrite Hb in Hs. simpl in Hs. apply (Hno _ Hs).
Qed.

Lemma Forall2_canonical l l' :
  Forall2 (fun a b => char_eq fileLabelFlags a b = true) l l' ->
  map canonicalize l' = map canonicalize l.
Proof.
  induction 1 as [|a b l l' Hab _ IH]; [reflexivity|].
  simpl. rewrite IH. f_equal.
  unfold char_eq in Hab. simpl in Hab. apply Ascii.eqb_eq in Hab. congruence.
Qed.

Lemma reads_middle s i j l :
  reads s i j l -> s = firstn i s ++ l ++ skipn j s.
Proof.
  intros [H _]. rewrite <- H. symmetry. apply firstn_skipn.
Qed.

Lemma setFileLabel_unchanged P workspacePath pretty fileName :
  ~ carries_suffix fileName ->
  setFileLabel P workspacePath pretty fileName =
  relative P workspacePath fileName.
Proof.
  intros Hno. unfold setFileLabel. destruct pretty; [|reflexivity].
  destruct (exec fileLabelFlags fileName fileLabelRegex 0) as [mr|] eqn:E;
    [|reflexivity].
  exfalso. apply Hno. destruct (@exec_some _ _ _ _ _ E) as (_ & H & _ & _).
  unfold fileLabelRegex in H.
  apply Seq_inv in H. destruct H as (j1 & c1 & _ & H).
  apply Seq_inv in H. destruct H as (j2 & c2 & _ & H).
  apply Seq_inv in H. destruct H as (j3 & c3 & M3 & _).
  apply Group_inv in M3. destruct M3 as (c4 & M3 & _).
  apply matches_Lit in M3. destruct M3 as (_ & u & Hr & Hf).
  exists (firstn j2 fileName), u, (skipn j3 fileName).
  split; [apply reads_middle; exact Hr | apply Forall2_canonical; exact Hf].
Qed.

(** *** File labels *)

Lemma colon_of_canonical a :
  canonicalize a = Patterns.chr ":" -> a = Patterns.chr ":".
Proof.
  destruct a as [[] [] [] [] [] [] [] []]; vm_compute; intros H;
    first [reflexivity | discriminate H].
Qed.

Lemma is_dot_canonicalize a : is_dot (canonicalize a) = is_dot a.
Proof. destruct a as [[] [] [] [] [] [] [] []]; vm_compute; reflexivity. Qed.

Lemma is_separator_canonicalize a :
  is_separator (canonicalize a) = is_separator a.
Proof. destruct a as [[] [] [] [] [] [] [] []]; vm_compute; reflexivity. Qed.

Lemma separator_is_dot a : is_separator a = true -> is_dot a = true.
Proof.
  destruct a as [[] [] [] [] [] [] [] []]; vm_compute; intros H;
    first [reflexivity | discriminate H].
Qed.

Lemma canonical_run (q : ascii -> bool) :
  (forall a, q (canonicalize a) = q a) ->
  forall u v, map canonicalize u = map canonicalize v ->
              forallb q u = forallb q v.
Proof.
  intros Hq. induction u as [|a u IH]; intros [|b v] H; try discriminate;
    [reflexivity|].
  simpl in H. injection H as Hab Huv. simpl.
  rewrite <- (Hq a), <- (Hq b), Hab, (IH v Huv). reflexivity.
Qed.

Lemma canonical_Forall2 u v :
  map canonicalize u = map canonicalize v ->
  Forall2 (fun a b => char_eq fileLabelFlags a b = true) v u.
Proof.
  revert v. induction u as [|a u IH]; intros [|b v] H; try discriminate;
    [constructor|].
  simpl in H. injection H as Hab Huv. constructor; [|apply IH; exact Huv].
  unfold char_eq. simpl. unfold ascii_eqb. rewrite Hab. apply Ascii.eqb_refl.
Qed.

(** A literal whose characters the input reads, up to the letter case that
    the flags allow, is matched and the continuation goes on. *)
Lemma m_Lit_matches fl s l : forall l' i j c (k : Cont),
  Forall2 (fun a b => char_eq fl a b = true) l l' ->
  reads s i j l' -> m fl s (Lit l) i c k = k j c.
Proof.
  induction l as [|a l IH]; intros l' i j c k Hf Hr;
    inversion Hf as [|a0 b l0 l1 Hab Hrest]; subst.
  - destruct Hr as [_ ->]. simpl. rewrite Nat.add_0_r. reflexivity.
  - pose proof (reads_head Hr) as Hn.
    apply reads_split in Hr. destruct Hr as [_ Hr].
    simpl Lit. rewrite m_Seq, m_Chr, Hn, Hab. apply (IH l1); assumption.
Qed.

(** What a match of the file label pattern reads and captures. *)
Lemma fileLabel_match fileName mr :
  exec fileLabelFlags fileName fileLabelRegex 0 = Some mr ->
  exists g2, drive_path fileName g2 /\ group fileName 2 mr = Some g2.
Proof.
  intros Hexec.
  destruct (@exec_some _ _ _ _ _ Hexec) as (_ & H & _ & _).
  unfold fileLabelRegex in H.
  apply Seq_inv in H. destruct H as (j1 & c1 & M1 & H).
  apply Group_inv in M1. destruct M1 as (c0 & M1 & ->).
  apply Seq_inv in M1. destruct M1 as (a1 & d1 & Mw & M1).
  apply matches_Cls in Mw. destruct Mw as (-> & w & Hw & Rw).
  apply Seq_inv in M1. destruct M1 as (a2 & d2 & Mc & M1).
  apply matches_Chr in Mc. destruct Mc as (-> & b & Hb & Rb).
  apply Seq_inv in M1. destruct M1 as (a3 & d3 & Mm & Ms).
  apply matches_Star_Cls in Mm. destruct Mm as (-> & mid & Rmid & Hmid).
  apply matches_Cls in Ms. destruct Ms as (-> & sep & Hsep & Rsep).
  apply Seq_inv in H. destruct H as (j2 & c2 & M2 & H).
  apply Group_inv in M2. destruct M2 as (c0' & M2 & ->).
  apply matches_Star_Cls in M2. destruct M2 as (-> & g2 & R2 & Hg2).
  apply Seq_inv in H. destruct H as (j3 & c3 & M3 & M4).
  apply Group_inv in M3. destruct M3 as (c0' & M3 & ->).
  apply matches_Lit in M3. destruct M3 as (-> & u & Ru & Hu).
  apply Group_inv in M4. destruct M4 as (c0' & M4 & Hg).
  apply matches_Lit in M4. destruct M4 as (-> & e & Re & He).
  assert (Eb : b = Patterns.chr ":").
  { apply colon_of_canonical. unfold char_eq in Hb.
    change (ignoreCase fileLabelFlags) with true in Hb. cbv iota in Hb.
    unfold ascii_eqb in Hb. apply Ascii.eqb_eq in Hb.
    rewrite <- Hb. reflexivity. }
  subst b.
  exists g2. split.
  - exists (firstn (index mr) fileName), w, mid, sep, u, e,
      (skipn (last mr) fileName).
    split.
    + pose proof (reads_app Rw (reads_app Rb (reads_app Rmid (reads_app Rsep
                   (reads_app R2 (reads_app Ru Re)))))) as R.
      apply reads_middle in R. rewrite R at 1.
      simpl. repeat (rewrite <- app_assoc; simpl). reflexivity.
    + split; [exact Hw|]. split; [exact Hmid|]. split; [exact Hsep|].
      split; [exact Hg2|].
      split; apply Forall2_canonical; assumption.
  - unfold group. rewrite Hg. simpl cap_get. cbv beta iota.
    rewrite (reads_substring R2). reflexivity.
Qed.

(** Where the shape of [drive_path] is found the file label pattern
    matches. *)
Lemma drive_path_exec fileName g2 :
  drive_path fileName g2 ->
  exists mr, exec fileLabelFlags fileName fileLabelRegex 0 = Some mr.
Proof.
  intros (pre & w & mid & sep & u & e & post & E & Hw & Hmid & Hsep & Hg2 & Hu & He).
  assert (Hs : skipn (length pre) fileName =
               [w] ++ str ":" ++ mid ++ [sep] ++ g2 ++ u ++ e ++ post).
  { rewrite E, skipn_app, skipn_all, Nat.sub_diag. reflexivity. }
  assert (Hlt : length pre <= length fileName)
    by (rewrite E, length_app; lia).
  apply reads_of_skipn in Hs. destruct Hs as [R0 Hs].
  apply reads_of_skipn in Hs. destruct Hs as [R1 Hs].
  apply reads_of_skipn in Hs. destruct Hs as [R2 Hs].
  apply reads_of_skipn in Hs. destruct Hs as [R3 Hs].
  apply reads_of_skipn in Hs. destruct Hs as [R4 Hs].
  apply reads_of_skipn in Hs. destruct Hs as [R5 Hs].
  apply reads_of_skipn in Hs. destruct Hs as [R6 Hs].
  assert (Hm : exists j c,
            matches fileLabelFlags fileName fileLabelRegex (length pre) [] j c).
  { do 2 eexists. unfold fileLabelRegex.
    eapply M_Seq.
    { apply M_Group.
      eapply M_Seq; [eapply Cls_intro; [exact R0 | exact Hw]|].
      eapply M_Seq; [eapply Chr_intro; [exact R1 | reflexivity]|].
      eapply M_Seq; [eapply Star_Cls_intro; [exact R2 | exact Hmid]|].
      eapply Cls_intro; [exact R3 | exact Hsep]. }
    eapply M_Seq; [apply M_Group; eapply Star_Cls_intro; [exact R4 | exact Hg2]|].
    eapply M_Seq.
    - apply M_Group. eapply Lit_intro; [exact R5 | apply canonical_Forall2; exact Hu].
    - apply M_Group. eapply Lit_intro; [exact R6 | apply canonical_Forall2; exact He]. }
  destruct Hm as (j & c & Hm).
  destruct (@exec_complete _ _ _ 0 _ _ _ Hm) as (mr & Hexec & _); [lia|].
  exists mr. exact Hexec.
Qed.

Lemma setFileLabel_no_drive_path P workspacePath pretty fileName :
  (forall g2, ~ drive_path fileName g2) ->
  setFileLabel P workspacePath pretty fileName =
  relative P workspacePath fileName.
Proof.
  intros Hno. unfold setFileLabel. destruct pretty; [|reflexivity].
  destruct (exec fileLabelFlags fileName fileLabelRegex 0) as [mr|] eqn:E;
    [|reflexivity].
  exfalso. destruct (fileLabel_match _ E) as (g2 & Hd & _).
  exact (Hno g2 Hd).
Qed.

Lemma setFileLabel_drive_path P workspacePath fileName g2 :
  drive_path fileName g2 ->
  exists g2', drive_path fileName g2' /\
              setFileLabel P workspacePath true fileName = g2'.
Proof.
  intros Hd. destruct (drive_path_exec Hd) as (mr & E).
  destruct (fileLabel_match _ E) as (g2' & Hd' & Hg).
  exists g2'. split; [exact Hd'|].
  unfold setFileLabel. rewrite E, Hg. reflexivity.
Qed.

(** A path with a drive letter whose last part is a name, the suffix and
    dot c: the label is the name. *)
Lemma setFileLabel_strips P workspacePath w dir sep name u e :
  is_word w = true ->
  forallb is_dot dir = true ->
  is_separator sep = true ->
  forallb (fun a => is_dot a && negb (is_separator a)) name = true ->
  map canonicalize u = map canonicalize testFileSuffix ->
  map canonicalize e = map canonicalize (str ".c") ->
  setFileLabel P workspacePath true
    (w :: str ":" ++ dir ++ sep :: name ++ u ++ e) = name.
Proof.
  intros Hw Hdir Hsep Hname Hu He.
  set (s := w :: str ":" ++ dir ++ sep :: name ++ u ++ e).
  assert (Hname_dot : forallb is_dot name = true).
  { rewrite forallb_forall in *. intros a Ha. specialize (Hname a Ha).
    apply andb_prop in Hname. tauto. }
  assert (Hname_sep : forallb (fun a => negb (is_separator a)) name = true).
  { rewrite forallb_forall in *. intros a Ha. specialize (Hname a Ha).
    apply andb_prop in Hname. tauto. }
  assert (Hu_dot : forallb is_dot u = true)
    by (rewrite (canonical_run is_dot is_dot_canonicalize _ _ Hu); reflexivity).
  assert (He_dot : forallb is_dot e = true)
    by (rewrite (canonical_run is_dot is_dot_canonicalize _ _ He); reflexivity).
  assert (Hq : forall a, negb (is_separator (canonicalize a))
                         = negb (is_separator a))
    by (intros a; rewrite is_separator_canonicalize; reflexivity).
  assert (Hu_sep : forallb (fun a => negb (is_separator a)) u = true)
    by (rewrite (canonical_run _ Hq _ _ Hu); reflexivity).
  assert (He_sep : forallb (fun a => negb (is_separator a)) e = true)
    by (rewrite (canonical_run _ Hq _ _ He); reflexivity).
  assert (Lu : length u = 5)
    by (apply (f_equal (@length ascii)) in Hu; rewrite !length_map in Hu;
        exact Hu).
  assert (Le : length e = 2)
    by (apply (f_equal (@length ascii)) in He; rewrite !length_map in He;
        exact He).
  assert (Hs2 : skipn 2 s = dir ++ (sep :: name ++ u ++ e) ++ [])
    by (rewrite app_nil_r; reflexivity).
  assert (Hlen : length s = 3 + length dir + length name + 7).
  { unfold s. simpl. rewrite !length_app. simpl. rewrite !length_app. lia. }
  pose proof Hs2 as Hs.
  apply reads_of_skipn in Hs. destruct Hs as [Rdir Hs].
  change ((sep :: name ++ u ++ e) ++ []) with ([sep] ++ (name ++ u ++ e) ++ [])
    in Hs.
  pose proof Hs as Hsep_at.
  apply reads_of_skipn in Hs. destruct Hs as [Rsep Hs].
  rewrite <- !app_assoc in Hs. pose proof Hs as Hs_name.
  apply reads_of_skipn in Hs. destruct Hs as [Rname Hs].
  apply reads_of_skipn in Hs. destruct Hs as [Ru Hs].
  apply reads_of_skipn in Hs. destruct Hs as [Re Hs].
  change (length [sep]) with 1 in *.
  set (p0 := 2 + length dir + 1) in *.
  assert (Hm : exists j g,
            m fileLabelFlags s fileLabelRegex 0 [] accept = Some (j, g) /\
            cap_get 2 g = Some (p0, p0 + length name)).
  { do 2 eexists. split.
    - unfold fileLabelRegex. rewrite m_Seq, m_Group, m_Seq, m_Cls.
      change (nth_error s 0) with (Some w). cbv beta match. rewrite Hw.
      rewrite m_Seq, m_Chr. change (nth_error s 1) with (Some (Patterns.chr ":")).
      cbv beta match.
      change (char_eq fileLabelFlags (chr ":") (chr ":")) with true.
      cbv beta match.
      rewrite m_Seq, m_Star.
      apply star_cls_backtrack
        with (l1 := dir) (l2 := sep :: name ++ u ++ e) (post := []).
      + exact Hs2.
      + exact Hdir.
      + simpl. rewrite (separator_is_dot _ Hsep), !forallb_app,
          Hname_dot, Hu_dot, He_dot. reflexivity.
      + exact I.
      + lia.
      + cbv beta. rewrite m_Cls.
        rewrite (reads_head Rsep), Hsep.
        rewrite m_Seq, m_Group, m_Star.
        apply star_cls_backtrack with (l1 := name) (l2 := u ++ e) (post := []).
        * replace (S (2 + length dir)) with p0 by (unfold p0; lia).
          rewrite <- app_assoc. exact Hs_name.
        * exact Hname_dot.
        * rewrite forallb_app, Hu_dot, He_dot. reflexivity.
        * exact I.
        * lia.
        * cbv beta. replace (S (2 + length dir)) with p0 by (unfold p0; lia).
          rewrite m_Seq, m_Group.
          rewrite (@m_Lit_matches _ _ _ u _ _ _ _ (canonical_Forall2 _ _ Hu) Ru).
          rewrite m_Group.
          rewrite (@m_Lit_matches _ _ _ e _ _ _ _ (canonical_Forall2 _ _ He) Re).
          unfold accept. reflexivity.
        * intros j Hj. cbv beta.
          match goal with
          | |- ?x = None => destruct x as [res|] eqn:E; [|reflexivity]
          end.
          exfalso. apply m_sound in E. destruct E as (j' & c' & M & _).
          apply Seq_inv in M. destruct M as (j3 & c3 & M3 & M4).
          apply Group_inv in M3. destruct M3 as (c0 & M3 & _).
          apply matches_Lit in M3. destruct M3 as (_ & u' & Ru' & Hu').
          apply Group_inv in M4. destruct M4 as (c0' & M4 & _).
          apply matches_Lit in M4. destruct M4 as (_ & e' & Re' & He').
          apply Forall2_length in Hu', He'. simpl in Hu', He'.
          pose proof (reads_app Ru' Re') as R.
          assert (Hne : u' ++ e' <> []) by (destruct u'; discriminate).
          pose proof (reads_le R Hne) as Hle.
          destruct R as [_ R]. rewrite length_app in R.
          rewrite length_app in Hj. unfold p0 in *. lia.
      + intros j Hj. cbv beta. rewrite m_Cls.
        destruct (nth_error s j) as [a|] eqn:Hn; [|reflexivity].
        assert (Ha : negb (is_separator a) = true).
        { assert (Hall : forallb (fun a => negb (is_separator a))
                           (name ++ u ++ e) = true)
            by (rewrite !forallb_app, Hname_sep, Hu_sep, He_sep; reflexivity).
          rewrite forallb_forall in Hall. apply Hall.
          assert (Es : s = (w :: str ":" ++ dir ++ [sep]) ++ name ++ u ++ e).
          { unfold s. simpl. rewrite <- !app_assoc. reflexivity. }
          rewrite Es in Hn. rewrite nth_error_app2 in Hn.
          - eapply nth_error_In. exact Hn.
          - simpl. rewrite length_app. simpl. simpl in Hj. lia. }
        apply negb_true_iff in Ha. rewrite Ha. reflexivity.
    - simpl. reflexivity. }
  destruct Hm as (j & g & Hm & Hg).
  unfold setFileLabel, exec. fold s. simpl Nat.leb.
  rewrite (exec_from_here _ _ _ _ _ Hm).
  unfold group. simpl groups. rewrite Hg.
  rewrite (reads_substring Rname). reflexivity.
Qed.

(** Every test that the loop extracts is named by the prefix followed by
    text of one line, and with pretty labels its label is that text. *)
Lemma extracted_names pretty file fileText lastIndex mr :
  exec testNameFlags fileText testNameRegex lastIndex = Some mr ->
  exists rest,
    forallb is_dot rest = true /\
    node_id (test_of_match pretty file fileText mr) =
      file ++ str "::" ++ testFunctionPrefix ++ rest /\
    node_label (test_of_match pretty file fileText mr) =
      setTestLabel pretty (testFunctionPrefix ++ rest).
Proof.
  intros Hexec.
  destruct (testName_match _ _ Hexec) as (wsp & sp & g2 & tail & _ & _ & Hg2 & G1 & G2 & _).
  exists g2. unfold test_of_match. rewrite G1, G2. simpl.
  repeat split. exact Hg2.
Qed.

(** C9, as amended.  Label prettification strips the prefix of a test name
    once and leaves other names alone; the file label is replaced for paths
    with a drive letter only: (1) for a name made of the prefix and text of
    one line, [setTestLabel] with pretty labels returns that text; (2) every
    test that [loadTests] extracts is named by the prefix followed by text
    of one line, and with pretty labels its label is that text; (3) a name
    that does not start with the prefix is returned unchanged; (4) for a
    file name that does not carry the suffix [setFileLabel] returns the
    relative path, the label without prettification; (5) so it does for
    every file name in which the shape of the file label pattern is not
    found: a word character and a colon, a slash or backslash later on the
    line, and after it on the line the suffix and dot c; (6) where that
    shape is found the label is the text that stands in the place of group
    2 in one such reading of the file name; (7) for a drive letter, a colon,
    a directory, a slash or backslash, a name without slash, backslash and
    line terminator, the suffix and dot c in any letter case, the label is
    that name: directory, suffix and extension are left out, and the suffix
    is taken off once; (8) without pretty labels both functions return the
    label without prettification. *)
Theorem label_prettification :
  (forall rest,
     forallb is_dot rest = true ->
     setTestLabel true (testFunctionPrefix ++ rest) = rest)
  /\ (forall file fileText lastIndex mr,
        exec testNameFlags fileText testNameRegex lastIndex = Some mr ->
        exists rest,
          forallb is_dot rest = true /\
          node_id (test_of_match true file fileText mr) =
            file ++ str "::" ++ testFunctionPrefix ++ rest /\
          node_label (test_of_match true file fileText mr) = rest)
  /\ (forall pretty name,
        (forall rest, name <> testFunctionPrefix ++ rest) ->
        setTestLabel pretty name = name)
  /\ (forall P workspacePath pretty fileName,
        ~ carries_suffix fileName ->
        setFileLabel P workspacePath pretty fileName =
        relative P workspacePath fileName)
  /\ (forall P workspacePath pretty fileName,
        (forall g2, ~ drive_path fileName g2) ->
        setFileLabel P workspacePath pretty fileName =
        relative P workspacePath fileName)
  /\ (forall P workspacePath fileName g2,
        drive_path fileName g2 ->
        exists g2', drive_path fileName g2' /\
                    setFileLabel P workspacePath true fileName = g2')
  /\ (forall P workspacePath w dir sep name u e,
        is_word w = true ->
        forallb is_dot dir = true ->
        is_separator sep = true ->
        forallb (fun a => is_dot a && negb (is_separator a)) name = true ->
        map canonicalize u = map canonicalize testFileSuffix ->
        map canonicalize e = map canonicalize (str ".c") ->
        setFileLabel P workspacePath true
          (w :: str ":" ++ dir ++ sep :: name ++ u ++ e) = name)
  /\ (forall P workspacePath name fileName,
        setTestLabel false name = name /\
        setFileLabel P workspacePath false fileName =
        relative P workspacePath fileName).
Proof.
  split; [exact setTestLabel_strips|].
  split; [|split; [exact setTestLabel_unchanged|
           split; [exact setFileLabel_unchanged|
           split; [exact setFileLabel_no_drive_path|
           split; [exact setFileLabel_drive_path|
           split; [exact setFileLabel_strips|]]]]]].
  - intros file fileText lastIndex mr Hexec.
    destruct (extracted_names true file _ _ Hexec)
      as (rest & Hrest & Hid & Hlabel).
    exists rest. split; [exact Hrest|]. split; [exact Hid|].
    rewrite Hlabel. apply setTestLabel_strips. exact Hrest.
  - intros P workspacePath name fileName. split; reflexivity.
Qed.

Lemma canonical_underscore a :
  canonicalize a = Patterns.chr "_" -> a = Patterns.chr "_".
Proof.
  destruct a as [[] [] [] [] [] [] [] []]; vm_compute; intros H;
    first [reflexivity | discriminate H].
Qed.

(** A name without underscore does not carry the suffix. *)
Lemma no_underscore_no_suffix name :
  forallb (fun a => negb (ascii_eqb a (Patterns.chr "_"))) name = true ->
  ~ carries_suffix name.
Proof.
  intros Hall (pre & u & post & -> & Hu).
  destruct u as [|a u]; [discriminate|].
  simpl in Hu. injection Hu as Ha _.
  assert (Ea : a = Patterns.chr "_") by (apply canonical_underscore; exact Ha).
  subst a.
  rewrite forallb_forall in Hall.
  specialize (Hall (Patterns.chr "_")).
  rewrite in_app_iff in Hall. simpl in Hall.
  discriminate Hall. right. left. reflexivity.
Qed.

(** The file label pattern is not anchored at the end of the path: the
    suffix and dot c are found in a directory name and before a further
    extension as well. *)
Example setFileLabel_not_anchored :
  setFileLabel Examples.posix (str "/ws") true (str "C:\ws\my_test.c\foo.h")
    = str "my" /\
  setFileLabel Examples.posix (str "/ws") true (str "C:\x\a_test.c.bak")
    = str "a" /\
  setFileLabel Examples.posix (str "/ws") true (str "C:\ws\unit_test\calc.c")
    = relative Examples.posix (str "/ws") (str "C:\ws\unit_test\calc.c").
Proof. repeat split; vm_compute; reflexivity. Qed.

(** The suffix is taken off once, from a path with a drive letter. *)
Example setFileLabel_windows_path :
  setFileLabel Examples.posix (str "/ws") true (str "C:\ws\test\calc_test_test.c")
  = str "calc_test".
Proof. vm_compute. reflexivity. Qed.

Lemma suffix_is_carried pre post :
  carries_suffix (pre ++ testFileSuffix ++ post).
Proof. exists pre, testFileSuffix, post. split; reflexivity. Qed.

(** C9 as stated fails.  With pretty file labels the POSIX path of a test
    file, whose name carries the suffix, keeps its label without
    prettification, the relative path: the file label pattern asks for a
    drive letter and a colon, and the suffix is not taken off. *)
Lemma setFileLabel_posix_keeps_suffix :
  carries_suffix (str "/ws/test/calc_test.c") /\
  setFileLabel Examples.posix (str "/ws") true (str "/ws/test/calc_test.c")
    = relative Examples.posix (str "/ws") (str "/ws/test/calc_test.c") /\
  setFileLabel Examples.posix (str "/ws") true (str "/ws/test/calc_test.c")
    = str "test/calc_test.c" /\
  setFileLabel Examples.posix (str "/ws") true (str "/ws/test/calc_test.c")
    <> str "test/calc.c" /\
  setFileLabel Examples.posix (str "/ws") true (str "/ws/test/calc_test.c")
    <> str "calc".
Proof.
  split; [apply (suffix_is_carried (str "/ws/test/calc") (str ".c"))|].
  split; [vm_compute; reflexivity|].
  split; [vm_compute; reflexivity|].
  split; vm_compute; discriminate.
Qed.

Lemma label_prettification_witness :
  (forallb is_dot (str "addTwoNumbers") = true /\
   setTestLabel true (testFunctionPrefix ++ str "addTwoNumbers")
     = str "addTwoNumbers")
  /\ ((forall rest, str "setUp" <> testFunctionPrefix ++ rest) /\
      setTestLabel true (str "setUp") = str "setUp")
  /\ (~ carries_suffix (str "/ws/src/calc.c") /\
      setFileLabel Examples.posix (str "/ws") true (str "/ws/src/calc.c")
        = relative Examples.posix (str "/ws") (str "/ws/src/calc.c"))
  /\ (exists mr,
        exec testNameFlags Examples.calc_test_c testNameRegex 0 = Some mr /\
        exists rest,
          forallb is_dot rest = true /\
          node_id (test_of_match true Examples.calc_path Examples.calc_test_c mr) =
            Examples.calc_path ++ str "::" ++ testFunctionPrefix ++ rest /\
          node_label (test_of_match true Examples.calc_path Examples.calc_test_c mr)
            = rest)
  /\ (is_word (Patterns.chr "C") = true /\
      forallb is_dot (str "\ws\test") = true /\
      is_separator (Patterns.chr "\") = true /\
      forallb (fun a => is_dot a && negb (is_separator a)) (str "calc_test") = true /\
      map canonicalize (str "_Test") = map canonicalize testFileSuffix /\
      map canonicalize (str ".C") = map canonicalize (str ".c") /\
      setFileLabel Examples.posix (str "/ws") true
        (str "C:\ws\test\calc_test_Test.C") = str "calc_test")
  /\ (drive_path (str "C:\ws\my_test.c\foo.h") (str "my") /\
      exists g2', drive_path (str "C:\ws\my_test.c\foo.h") g2' /\
                  setFileLabel Examples.posix (str "/ws") true
                    (str "C:\ws\my_test.c\foo.h") = g2').
Proof.
  assert (H2 : forall rest, str "setUp" <> testFunctionPrefix ++ rest)
    by (intros rest H; discriminate H).
  assert (H3 : ~ carries_suffix (str "/ws/src/calc.c"))
    by (apply no_underscore_no_suffix; reflexivity).
  assert (H6 : drive_path (str "C:\ws\my_test.c\foo.h") (str "my")).
  { exists [], (Patterns.chr "C"), (str "\ws"), (Patterns.chr "\"),
      (str "_test"), (str ".c"), (str "\foo.h").
    repeat split. }
  split; [split; [reflexivity|]|
  split; [split; [exact H2|]|
  split; [split; [exact H3|]|
  split; [|
  split; [repeat (split; [reflexivity|])|
          split; [exact H6|]]]]]].
  - apply (proj1 label_prettification). reflexivity.
  - apply (proj1 (proj2 (proj2 label_prettification)) true). exact H2.
  - apply (proj1 (proj2 (proj2 (proj2 label_prettification)))). exact H3.
  - destruct (exec testNameFlags Examples.calc_test_c testNameRegex 0)
      as [mr|] eqn:E; [|vm_compute in E; discriminate E].
    exists mr. split; [reflexivity|].
    apply (proj1 (proj2 label_prettification) Examples.calc_path
             Examples.calc_test_c 0 mr E).
  - apply (proj1 (proj2 (proj2 (proj2 (proj2 (proj2 (proj2
             label_prettification))))))
             Examples.posix (str "/ws") (Patterns.chr "C") (str "\ws\test")
             (Patterns.chr "\") (str "calc_test") (str "_Test") (str ".C"));
      reflexivity.
  - apply (proj1 (proj2 (proj2 (proj2 (proj2 (proj2 label_prettification)))))
             Examples.posix (str "/ws") (str "C:\ws\my_test.c\foo.h")
             (str "my") H6).
Defined.

End LoaderFacts.

(** ** Read failures *)

Module LoadFacts.
Import Regex Patterns RegexFacts Spec Scanner Loader Load LoaderFacts.

Section Reading.

Variable P : path_api.
Variable workspacePath projectSourcePath testSourcePath : list ascii.
Variable isPrettyTestLabelEnable isPrettyTestFileLabelEnable : bool.
Variable lookup : list ascii -> entry.
Variable readFile : list ascii -> option (list ascii).

Local Abbreviation loadSuite' :=
  (loadSuite P workspacePath isPrettyTestLabelEnable
             isPrettyTestFileLabelEnable readFile).
Local Abbreviation loadSuites' :=
  (loadSuites P workspacePath isPrettyTestLabelEnable
              isPrettyTestFileLabelEnable readFile).
Local Abbreviation loadTests' :=
  (loadTests P workspacePath isPrettyTestLabelEnable
             isPrettyTestFileLabelEnable readFile).

(** Reading one file either is rejected or returns its suite. *)
Lemma loadSuite_outcome file :
  (readFile file = None /\ loadSuite' file = Rejected) \/
  (exists suite, readFile file <> None /\ loadSuite' file = Returned suite).
Proof.
  destruct (readFile file) as [fileText|] eqn:Hf.
  - right.
    destruct (@loadSuite_spec P workspacePath isPrettyTestLabelEnable
                isPrettyTestFileLabelEnable readFile (fun _ _ => True)
                file fileText Hf) as (tests & E & _); [auto|].
    eexists. split; [discriminate | exact E].
  - left. split; [reflexivity|]. unfold loadSuite. rewrite Hf. reflexivity.
Qed.

Lemma loadSuites_rejected files :
  (exists file, In file files /\ readFile file = None) ->
  loadSuites' files = Rejected.
Proof.
  induction files as [|file files IH]; intros (f & Hin & Hf);
    [destruct Hin|].
  simpl.
  destruct (loadSuite_outcome file) as [[_ ->] | (suite & Hread & ->)];
    [reflexivity|].
  rewrite IH; [reflexivity|].
  destruct Hin as [<- | Hin]; [congruence|]. exists f. auto.
Qed.

(** Induction over a directory tree. *)
Lemma entry_tree_ind (Q : entry -> Prop) :
  Q RegularFile -> Q Other -> Q NoStat ->
  (forall items, Forall (fun p => Q (snd p)) items -> Q (Directory items)) ->
  forall e, Q e.
Proof.
  intros HFile HOther HNoStat HDir.
  exact (fix go (e : entry) : Q e :=
           match e with
           | RegularFile => HFile
           | Other => HOther
           | NoStat => HNoStat
           | Directory items =>
               HDir items
                 ((fix all (l : list (list ascii * entry))
                     : Forall (fun p => Q (snd p)) l :=
                     match l with
                     | [] => Forall_nil _
                     | p :: l' => Forall_cons p (go (snd p)) (all l')
                     end) items)
           end).
Qed.

Lemma getFileList_shows e : forall filePath fileRegex,
  Forall shows (snd (getFileList P filePath e fileRegex)).
Proof.
  induction e as [| | |items IH] using entry_tree_ind; intros filePath fileRegex;
    simpl; try (constructor; [eexists; reflexivity | constructor]).
  match goal with
  | |- Forall shows (snd (?each items [] [])) =>
      assert (Hacc : forall files shown,
                Forall shows shown -> Forall shows (snd (each items files shown)))
  end.
  { induction IH as [|[item sub] items Hsub _ IHl]; intros files shown Hacc;
      simpl.
    - exact Hacc.
    - simpl in Hsub. destruct sub as [|items'| |].
      + destruct (test fileRegex item); apply IHl; exact Hacc.
      + specialize (Hsub (resolve P filePath item) fileRegex).
        destruct (getFileList P (resolve P filePath item) (Directory items')
                    fileRegex) as [[found| | |] shown']; simpl in Hsub |- *;
          try (apply Forall_app; split; [exact Hacc | exact Hsub]).
        apply IHl. apply Forall_app. split; [exact Hacc | exact Hsub].
      + apply IHl. apply Forall_app. split; [exact Hacc|].
        constructor; [eexists; reflexivity | constructor].
      + exact Hacc. }
  apply Hacc. constructor.
Qed.

Lemma watchFiles_watches files : forall watched,
  Forall watches (snd (watchFiles P workspacePath watched files)).
Proof.
  induction files as [|file files IH]; intros watched; simpl.
  - constructor.
  - destruct (includes watched file); [apply IH|].
    specialize (IH (watched ++ [file])).
    destruct (watchFiles P workspacePath (watched ++ [file]) files).
    simpl in *. constructor; [eexists; reflexivity | exact IH].
Qed.

Lemma not_in_shows l a : Forall shows l -> (forall msg, a <> ShowError msg) -> ~ In a l.
Proof.
  intros Hall Ha Hin. rewrite Forall_forall in Hall.
  destruct (Hall a Hin) as [msg E]. apply (Ha msg E).
Qed.

Lemma not_in_watches l a : Forall watches l -> (forall f, a <> WatchFile f) -> ~ In a l.
Proof.
  intros Hall Ha Hin. rewrite Forall_forall in Hall.
  destruct (Hall a Hin) as [f E]. apply (Ha f E).
Qed.

(** A scan returns or is rejected. *)
Lemma getFileList_settles e : forall filePath fileRegex,
  (exists files, fst (getFileList P filePath e fileRegex) = Returned files) \/
  fst (getFileList P filePath e fileRegex) = Rejected.
Proof.
  induction e as [| | |items IH] using entry_tree_ind; intros filePath fileRegex;
    simpl; try (left; eexists; reflexivity).
  match goal with
  | |- (exists files, fst (?each items [] []) = _) \/ _ =>
      assert (Hacc : forall files shown,
                (exists files', fst (each items files shown) = Returned files') \/
                fst (each items files shown) = Rejected); [|apply Hacc]
  end.
  induction IH as [|[item sub] items Hsub _ IHl]; intros files shown; simpl.
  - left. eexists. reflexivity.
  - simpl in Hsub. destruct sub as [|items'| |].
    + destruct (test fileRegex item); apply IHl.
    + specialize (Hsub (resolve P filePath item) fileRegex).
      destruct (getFileList P (resolve P filePath item) (Directory items')
                  fileRegex) as [[found| | |] shown']; simpl in Hsub |- *.
      * apply IHl.
      * right. reflexivity.
      * destruct Hsub as [[x Hx]|Hx]; discriminate.
      * destruct Hsub as [[x Hx]|Hx]; discriminate.
    + apply IHl.
    + right. reflexivity.
Qed.

Lemma load_fails :
  (forall files,
     (exists file, In file files /\ readFile file = None) ->
     loadTests' files = Rejected)
  /\
  (forall a testFiles,
     fst (getFileList P testSourcePath (lookup testSourcePath) testSourceRegex)
       = Returned testFiles ->
     (exists file, In file testFiles /\ readFile file = None) ->
     let result :=
       load P workspacePath projectSourcePath testSourcePath
            isPrettyTestLabelEnable isPrettyTestFileLabelEnable
            lookup readFile a in
     fst (fst result) = Rejected /\
     testSuiteInfo (snd (fst result)) = testSuiteInfo a /\
     forall suite, ~ In (FireLoad (LoadFinished suite)) (snd result)).
Proof.
  assert (Hload : forall files,
            (exists file, In file files /\ readFile file = None) ->
            loadTests' files = Rejected).
  { intros files H. unfold loadTests. rewrite (@loadSuites_rejected files H).
    reflexivity. }
  split; [exact Hload|].
  intros a testFiles Htest Hfail. unfold load.
  pose proof (@getFileList_shows (lookup projectSourcePath) projectSourcePath
                sourceFileRegex) as S1.
  pose proof (@getFileList_shows (lookup testSourcePath) testSourcePath
                testSourceRegex) as S2.
  pose proof (@getFileList_settles (lookup projectSourcePath) projectSourcePath
                sourceFileRegex) as O1.
  destruct (getFileList P projectSourcePath (lookup projectSourcePath)
              sourceFileRegex) as [[sourceFiles| | |] shown1];
    simpl in S1, O1;
    try (destruct O1 as [[x Hx]|Hx]; discriminate).
  - destruct (getFileList P testSourcePath (lookup testSourcePath)
                testSourceRegex) as [o2 shown2].
    simpl in Htest, S2. subst o2.
    pose proof (@watchFiles_watches sourceFiles (watchedFileForAutorunList a)) as W1.
    destruct (watchFiles P workspacePath (watchedFileForAutorunList a) sourceFiles)
      as [auto1 w1].
    pose proof (@watchFiles_watches testFiles auto1) as W2.
    destruct (watchFiles P workspacePath auto1 testFiles) as [auto2 w2].
    pose proof (@watchFiles_watches testFiles (watchedFileForReloadList a)) as W3.
    destruct (watchFiles P workspacePath (watchedFileForReloadList a) testFiles)
      as [reload w3].
    simpl in W1, W2, W3.
    rewrite (Hload testFiles Hfail). simpl.
    split; [reflexivity|]. split; [reflexivity|].
    intros suite [Hin|Hin]; [discriminate|].
    repeat (apply in_app_or in Hin; destruct Hin as [Hin|Hin]);
      revert Hin;
      first [apply not_in_shows; solve [assumption | discriminate]
            |apply not_in_watches; solve [assumption | discriminate]].
  - simpl. split; [reflexivity|]. split; [reflexivity|].
    intros suite [Hin|Hin]; [discriminate|].
    revert Hin. apply not_in_shows; [assumption | discriminate].
Qed.

(** C8. A test file whose read fails makes the load cycle fail as a whole:
    [loadTests] is rejected instead of skipping the file, and [load], when
    the scan of the test sources returned such a file, is rejected, keeps
    the tree it had and fires no load-finished event. *)
Theorem load_read_failure :
  (forall files,
     (exists file, In file files /\ readFile file = None) ->
     loadTests' files = Rejected)
  /\
  (forall a testFiles,
     fst (getFileList P testSourcePath (lookup testSourcePath) testSourceRegex)
       = Returned testFiles ->
     (exists file, In file testFiles /\ readFile file = None) ->
     let result :=
       load P workspacePath projectSourcePath testSourcePath
            isPrettyTestLabelEnable isPrettyTestFileLabelEnable
            lookup readFile a in
     fst (fst result) = Rejected /\
     testSuiteInfo (snd (fst result)) = testSuiteInfo a /\
     forall suite, ~ In (FireLoad (LoadFinished suite)) (snd result)).
Proof. exact load_fails. Qed.

End Reading.

Lemma load_read_failure_witness :
  (exists file,
     In file [Examples.calc_path; Examples.io_path] /\
     Examples.readFile file = None) /\
  loadTests Examples.posix (str "/ws") false false Examples.readFile
            [Examples.calc_path; Examples.io_path] = Rejected /\
  fst (getFileList Examples.posix (str "/ws/test")
         (Examples.lookup (str "/ws/test")) testSourceRegex)
    = Returned [Examples.calc_path; Examples.io_path] /\
  let result :=
    load Examples.posix (str "/ws") (str "/ws/src") (str "/ws/test")
         false false Examples.lookup Examples.readFile Examples.fresh in
  fst (fst result) = Rejected /\
  testSuiteInfo (snd (fst result)) = testSuiteInfo Examples.fresh /\
  forall suite, ~ In (FireLoad (LoadFinished suite)) (snd result).
Proof.
  assert (H1 : exists file,
            In file [Examples.calc_path; Examples.io_path] /\
            Examples.readFile file = None).
  { exists Examples.io_path. split; [right; left; reflexivity | reflexivity]. }
  assert (H2 : fst (getFileList Examples.posix (str "/ws/test")
                      (Examples.lookup (str "/ws/test")) testSourceRegex)
               = Returned [Examples.calc_path; Examples.io_path]).
  { vm_compute. reflexivity. }
  split; [exact H1|]. split; [|split; [exact H2|]].
  - apply (proj1 (load_read_failure Examples.posix (str "/ws") (str "/ws/src")
                    (str "/ws/test") false false Examples.lookup
                    Examples.readFile) _ H1).
  - apply (proj2 (load_read_failure Examples.posix (str "/ws") (str "/ws/src")
                    (str "/ws/test") false false Examples.lookup
                    Examples.readFile) Examples.fresh _ H2 H1).
Defined.

End LoadFacts.

(** ** The scanner on a directory that cannot be read *)

Module ScannerFacts.
Import Regex Patterns Scanner Load.

(** C4, the code at the failing input.  For a root whose [readdir] is
    rejected [getFileList] shows the error and returns one path, the empty
    string: the result is not empty. *)
Theorem getFileList_unreadable_root P filePath fileRegex :
  getFileList P filePath Other fileRegex =
    (Returned [str ""], [ShowError (str "Cannot find test result path!")]) /\
  (forall files,
     fst (getFileList P filePath Other fileRegex) = Returned files ->
     length files = 1 /\ files <> []).
Proof.
  split; [reflexivity|]. intros files H. inversion H. split; [reflexivity|].
  discriminate.
Qed.

(** The empty path of an unreadable subdirectory joins the paths found in
    its siblings. *)
Lemma getFileList_unreadable_subdirectory P filePath item :
  fst (getFileList P filePath
         (Directory [(item, Other); (str "a_test.c", RegularFile)])
         testSourceRegex) =
  Returned [str ""; resolve P filePath (str "a_test.c")].
Proof. reflexivity. Qed.

(** When the test root cannot be read and reading the empty path fails, the
    load cycle is rejected: no tree, no load-finished event. *)
Lemma load_unreadable_test_root P workspacePath projectSourcePath testSourcePath
    prettyTest prettyFile lookup readFile a :
  lookup testSourcePath = Other ->
  readFile (str "") = None ->
  let result :=
    load P workspacePath projectSourcePath testSourcePath
         prettyTest prettyFile lookup readFile a in
  fst (fst result) = Rejected /\
  forall suite, ~ In (FireLoad (LoadFinished suite)) (snd result).
Proof.
  intros Hroot Hread.
  destruct (LoadFacts.load_fails P workspacePath projectSourcePath
              testSourcePath prettyTest prettyFile lookup readFile)
    as [_ H].
  destruct (H a [str ""]) as (H1 & _ & H3); [| |split; assumption].
  - rewrite Hroot. reflexivity.
  - exists (str ""). split; [left; reflexivity | exact Hread].
Qed.

End ScannerFacts.

(** ** The run orchestrator *)

Module OrchestratorFacts.
Import Regex Patterns RegexFacts Spec Orchestrator.

Lemma bind_ext {A B : Type} (c : Run A) (f g : A -> Run B) tr :
  (forall a tr', f a tr' = g a tr') -> bind c f tr = bind c g tr.
Proof.
  intros H. unfold bind. destruct (c tr) as [[a| | |] tr']; auto.
Qed.

Lemma bind_assoc {A B C : Type} (c : Run A) (f : A -> Run B) (g : B -> Run C) tr :
  bind (bind c f) g tr = bind c (fun a => bind (f a) g) tr.
Proof.
  unfold bind. destruct (c tr) as [[a| | |] tr']; reflexivity.
Qed.

Lemma bind_ret_unit (c : Run unit) tr : bind c (fun _ => ret tt) tr = c tr.
Proof.
  unfold bind, ret. destruct (c tr) as [[[]| | |] tr']; reflexivity.
Qed.

Lemma for_each_app {A : Type} (l1 l2 : list A) (body : A -> Run unit) tr :
  for_each (l1 ++ l2) body tr =
  bind (for_each l1 body) (fun _ => for_each l2 body) tr.
Proof.
  revert tr. induction l1 as [|a l1 IH]; intros tr; simpl.
  - reflexivity.
  - rewrite bind_assoc. apply bind_ext. intros _ tr'. apply IH.
Qed.

Section Facts.

Variable P : path_api.
Variable workspacePath testBuildPath : list ascii.
Variable testBuildCommandArgs foldersCommandArgs : list ascii.
Variable world : list action -> RunResult.
Variable testSuiteInfo : node.

Local Abbreviation runSuiteExe' :=
  (runSuiteExe P workspacePath testBuildPath testBuildCommandArgs world).
Local Abbreviation runSuiteOrTest' :=
  (runSuiteOrTest P workspacePath testBuildPath testBuildCommandArgs world
                  testSuiteInfo).
Local Abbreviation runSuites' :=
  (runSuites P workspacePath testBuildPath testBuildCommandArgs world
             testSuiteInfo).
Local Abbreviation run' :=
  (run P workspacePath testBuildPath testBuildCommandArgs foldersCommandArgs
       world testSuiteInfo).

Lemma not_in_existsb (x : id) l : existsb (str_eqb x) l = false -> ~ In x l.
Proof.
  intros H Hin. assert (existsb (str_eqb x) l = true); [|congruence].
  apply existsb_exists. exists x. split; [exact Hin|].
  apply ParserFacts.str_eqb_refl.
Qed.

Lemma str_eqb_false a b : a <> b -> str_eqb a b = false.
Proof. apply ParserFacts.str_eqb_neq. Qed.

(** No test of a well-formed suite answers to the id of a suite. *)
Lemma findSuite_tests_none ids i a b c tests :
  forallb (well_formed_test ids) tests = true -> In i ids ->
  findSuite (Suite a b c tests) i = None.
Proof.
  intros Hwf Hin. simpl.
  match goal with
  | |- ?each tests = None =>
      assert (H : forall l, forallb (well_formed_test ids) l = true ->
                            each l = None); [|apply H; exact Hwf]
  end.
  induction l as [|t l IH]; intros Hl; [reflexivity|].
  simpl in Hl. apply andb_prop in Hl. destruct Hl as [Ht Hl].
  unfold well_formed_test in Ht.
  apply andb_prop in Ht. destruct Ht as [Ht Hid].
  apply andb_prop in Ht. destruct Ht as [Hleaf _].
  apply negb_true_iff in Hleaf, Hid. apply not_in_existsb in Hid.
  rewrite str_eqb_false by congruence. rewrite Hleaf. apply IH. exact Hl.
Qed.

Lemma well_formed_suite_inv ids s :
  well_formed_suite ids s = true ->
  exists i l f tests,
    s = Suite i l (Some f) tests /\ forallb (well_formed_test ids) tests = true.
Proof.
  destruct s as [|i l [f|] tests]; simpl; try discriminate.
  intros H. exists i, l, f, tests. auto.
Qed.

(** In a well-formed tree the id of a top-level suite finds that suite. *)
Lemma findSuite_top suite :
  well_formed testSuiteInfo = true ->
  In suite (node_children testSuiteInfo) ->
  findSuite testSuiteInfo (node_id suite) = Some suite.
Proof.
  unfold well_formed. intros Hwf Hin.
  apply andb_prop in Hwf. destruct Hwf as [Hwf Hall].
  apply andb_prop in Hwf. destruct Hwf as [Hroot Hdist].
  destruct testSuiteInfo as [|rid rl rf children]; [discriminate|].
  simpl in Hin, Hdist, Hall.
  assert (Hids : In (node_id suite) (map node_id children))
    by (apply in_map; exact Hin).
  set (ids := map node_id children) in Hall, Hids.
  cbn [findSuite].
  match goal with
  | |- ?each children = Some suite =>
      assert (H : forall l,
                In suite l -> distinct (map node_id l) = true ->
                forallb (well_formed_suite ids) l = true ->
                each l = Some suite); [|apply H; assumption]
  end.
  clear Hin Hdist Hall.
  induction l as [|c l IH]; intros Hin Hdist Hall; [destruct Hin|].
  simpl in Hdist, Hall.
  apply andb_prop in Hdist. destruct Hdist as [Hc Hdist].
  apply andb_prop in Hall. destruct Hall as [Hwc Hall].
  apply negb_true_iff in Hc. apply not_in_existsb in Hc.
  destruct (well_formed_suite_inv _ _ Hwc) as (ci & cl & cf & tests & -> & Htests).
  simpl is_suite. cbv iota. simpl node_id at 1.
  destruct (str_eqb ci (node_id suite)) eqn:E.
  - apply ParserFacts.str_eqb_eq in E.
    destruct Hin as [<- | Hin]; [reflexivity|].
    exfalso. apply Hc. simpl. rewrite E. apply in_map. exact Hin.
  - rewrite (@findSuite_tests_none ids _ _ _ _ _ Htests Hids).
    destruct Hin as [<- | Hin].
    + simpl in E. rewrite ParserFacts.str_eqb_refl in E. discriminate.
    + apply IH; assumption.
Qed.

Lemma well_formed_children suite :
  well_formed testSuiteInfo = true ->
  In suite (node_children testSuiteInfo) ->
  is_suite suite = true /\
  (exists file, node_file suite = Some file) /\
  (forall child, In child (node_children suite) ->
     is_suite child = false /\ compiles (node_label child) = true).
Proof.
  unfold well_formed. intros Hwf Hin.
  apply andb_prop in Hwf. destruct Hwf as [_ Hall].
  rewrite forallb_forall in Hall. specialize (Hall suite Hin).
  destruct (well_formed_suite_inv _ _ Hall) as (i & l & f & tests & -> & Htests).
  split; [reflexivity|]. split; [exists f; reflexivity|].
  intros child Hc. simpl in Hc.
  rewrite forallb_forall in Htests. specialize (Htests child Hc).
  unfold well_formed_test in Htests.
  apply andb_prop in Htests. destruct Htests as [Ht _].
  apply andb_prop in Ht. destruct Ht as [Hleaf Hlit].
  apply negb_true_iff in Hleaf. split; assumption.
Qed.

(** Running the top-level suites one call at a time is [runSuites] on their
    ids. *)
Lemma root_loop_is_runSuites children tr :
  for_each children
    (fun suite => if is_suite suite then runSuites' [node_id suite] else ret tt) tr
  = runSuites' (map node_id (filter is_suite children)) tr.
Proof.
  revert tr. unfold runSuites.
  induction children as [|c l IH]; intros tr; [reflexivity|].
  simpl for_each at 1. simpl filter. destruct (is_suite c).
  - simpl map. simpl for_each. rewrite bind_assoc.
    apply bind_ext. intros _ tr'.
    unfold bind at 1, ret at 1. apply IH.
  - unfold bind at 1, ret at 1. apply IH.
Qed.

Lemma root_requested rest :
  match nth_error (str "root" :: rest) 0 with
  | Some first => str_eqb first (str "root")
  | None => false
  end = true.
Proof. reflexivity. Qed.

Lemma other_requested (tests : list id) :
  nth_error tests 0 <> Some (str "root") ->
  match nth_error tests 0 with
  | Some first => str_eqb first (str "root")
  | None => false
  end = false.
Proof.
  destruct tests as [|first rest]; simpl; [reflexivity|].
  intros H. apply str_eqb_false. intros E. apply H. rewrite E. reflexivity.
Qed.

(** C10. With no folders command the empty request fires run-started and
    run-finished and nothing else: no suite event, no test event, no
    process. *)
Theorem run_empty_request tr :
  run P workspacePath testBuildPath testBuildCommandArgs [] world
      testSuiteInfo [] tr
  = (Returned tt, tr ++ [Fire (RunStarted []); Fire RunFinished]).
Proof.
  unfold run, prepareFolders, runSuites, bind, emit, ret. simpl.
  rewrite <- app_assoc. reflexivity.
Qed.

(** ** Total failure of a suite *)

Local Abbreviation suite_started :=
  (suite_started P testBuildPath testBuildCommandArgs).
Local Abbreviation suite_result :=
  (suite_result P workspacePath testBuildPath testBuildCommandArgs world).
Local Abbreviation suite_effects :=
  (suite_effects P workspacePath testBuildPath testBuildCommandArgs world).

Lemma runSuiteExe_trace suite file tr :
  node_file suite = Some file ->
  runSuiteExe' suite tr =
  (Returned (Some (suite_result suite file tr)),
   tr ++ suite_effects suite file tr).
Proof.
  intros Hfile.
  unfold runSuiteExe, buildTest, runTest, suite_result, suite_effects,
    suite_started.
  rewrite Hfile. unfold bind, emit, ret, runMake, runExe. cbv zeta.
  rewrite <- !app_assoc. simpl app.
  destruct (error (world _)) as [e|]; cbv beta iota zeta;
    rewrite <- !app_assoc; reflexivity.
Qed.

Lemma for_each_emit {A : Type} (l : list A) (f : A -> action) tr :
  for_each l (fun a => emit (f a)) tr = (Returned tt, tr ++ map f l).
Proof.
  revert tr. induction l as [|a l IH]; intros tr; simpl.
  - unfold ret. rewrite app_nil_r. reflexivity.
  - unfold bind, emit at 1. rewrite IH, <- app_assoc. reflexivity.
Qed.

Lemma fail_children_trace suite tr :
  fail_children suite tr = (Returned tt, tr ++ failed_children suite).
Proof. unfold fail_children, failed_children. apply for_each_emit. Qed.

Lemma parser_silent_suite_effects suite file tr :
  ~ parser_fired (suite_effects suite file tr).
Proof.
  intros (i & dec & [H|H]); unfold suite_effects in H; simpl in H;
    destruct H as [H|[H|H]]; try discriminate;
    destruct (error (world _)); simpl in H;
    destruct H as [H|[H|[]]]; discriminate.
Qed.

Lemma parser_silent_failed_children suite :
  ~ parser_fired (failed_children suite).
Proof.
  intros (i & dec & [H|H]); unfold failed_children in H;
    apply in_map_iff in H; destruct H as (child & H & _); discriminate.
Qed.

Lemma parser_fired_app a b :
  parser_fired (a ++ b) -> parser_fired a \/ parser_fired b.
Proof.
  intros (i & dec & [H|H]); apply in_app_or in H; destruct H as [H|H];
    [left|right|left|right]; exists i, dec; auto.
Qed.

(** C7, as amended.  When the build or the executable of the suite of a
    requested id ends with an error and no output, [runSuites] fires the
    failed event of every child of the suite after the suite events and the
    result parser fires nothing; an error message is shown when the build
    failed, when the requested id is the id of a test, or when the error
    stream does not hold the text of the file in use. *)
Theorem suite_total_failure i suite file tr :
  findSuite testSuiteInfo i = Some suite ->
  is_suite suite = true ->
  node_file suite = Some file ->
  truthy_error (suite_result suite file tr) = true ->
  stdout (suite_result suite file tr) = [] ->
  exists shown,
    let d := suite_effects suite file tr ++ failed_children suite ++ shown in
    runSuiteOrTest' i tr = (Returned tt, tr ++ d) /\
    (shown = [] \/ shown = [cannot_run i]) /\
    ~ parser_fired d /\
    (truthy_error (world (suite_started suite file tr)) = true \/
     i <> node_id suite \/
     search_text (stderr (suite_result suite file tr)) file_in_use = (-1)%Z ->
     error_shown d).
Proof.
  intros Hfind Hs Hfile Herr Hout.
  set (r := suite_result suite file tr) in *.
  set (shown := if str_eqb i (node_id suite)
                then if (search_text (stderr r) file_in_use =? 0)%Z
                     then [] else [cannot_run i]
                else [cannot_run i]).
  exists shown. cbv zeta.
  assert (Hshown : shown = [] \/ shown = [cannot_run i]).
  { unfold shown. destruct (str_eqb i (node_id suite)); auto.
    destruct (search_text (stderr r) file_in_use =? 0)%Z; auto. }
  split; [|split; [exact Hshown|split]].
  - unfold runSuiteOrTest. rewrite Hfind, Hs.
    unfold bind at 1. rewrite (runSuiteExe_trace _ tr Hfile).
    fold r. rewrite Herr. unfold no_stdout. rewrite Hout.
    change (true && true) with true. cbv iota. unfold shown.
    destruct (str_eqb i (node_id suite)).
    + unfold bind. rewrite fail_children_trace.
      destruct (search_text (stderr r) file_in_use =? 0)%Z.
      * unfold ret. rewrite app_nil_r, <- app_assoc. reflexivity.
      * unfold emit. rewrite <- !app_assoc. reflexivity.
    + unfold bind. rewrite fail_children_trace.
      unfold emit. rewrite <- !app_assoc. reflexivity.
  - intros H. apply parser_fired_app in H. destruct H as [H|H].
    { revert H. apply parser_silent_suite_effects. }
    apply parser_fired_app in H. destruct H as [H|H].
    { revert H. apply parser_silent_failed_children. }
    destruct H as (j & dec & H).
    destruct Hshown as [E|E]; rewrite E in H; simpl in H.
    + destruct H as [[]|[]].
    + destruct H as [[H|[]]|[H|[]]]; discriminate.
  - intros [Hbuild | [Hid | Hsearch]].
    + unfold truthy_error in Hbuild. unfold error_shown, suite_effects.
      destruct (error (world (suite_started suite file tr))) as [e|] eqn:E;
        [|discriminate].
      eexists. apply in_or_app. left. cbv zeta.
      simpl. right. right. left. reflexivity.
    + unfold shown. rewrite str_eqb_false by exact Hid.
      eexists. apply in_or_app. right. apply in_or_app. right.
      left. reflexivity.
    + unfold shown. rewrite Hsearch. simpl Z.eqb.
      destruct (str_eqb i (node_id suite));
        eexists; (apply in_or_app; right; apply in_or_app; right;
                  left; reflexivity).
Qed.

End Facts.

Lemma suite_total_failure_witness :
  let i := Examples.calc_path ++ str "::test_sub" in
  let r := suite_result Examples.posix (str "/ws") (str "build") (str "-s")
             Examples.world_in_use Examples.calc_suite Examples.calc_path [] in
  findSuite Examples.tree i = Some Examples.calc_suite /\
  is_suite Examples.calc_suite = true /\
  node_file Examples.calc_suite = Some Examples.calc_path /\
  truthy_error r = true /\
  stdout r = [] /\
  exists shown,
    let d := suite_effects Examples.posix (str "/ws") (str "build") (str "-s")
               Examples.world_in_use Examples.calc_suite Examples.calc_path []
             ++ failed_children Examples.calc_suite ++ shown in
    runSuiteOrTest Examples.posix (str "/ws") (str "build") (str "-s")
                   Examples.world_in_use Examples.tree i []
    = (Returned tt, [] ++ d) /\
    (shown = [] \/ shown = [cannot_run i]) /\
    ~ parser_fired d /\
    (truthy_error (Examples.world_in_use
                     (suite_started Examples.posix (str "build") (str "-s")
                        Examples.calc_suite Examples.calc_path [])) = true \/
     i <> node_id Examples.calc_suite \/
     search_text (stderr r) file_in_use = (-1)%Z ->
     error_shown d).
Proof.
  cbv zeta.
  split; [reflexivity|]. split; [reflexivity|]. split; [reflexivity|].
  split; [reflexivity|]. split; [reflexivity|].
  apply (@suite_total_failure Examples.posix (str "/ws") (str "build") (str "-s")
           Examples.world_in_use Examples.tree
           (Examples.calc_path ++ str "::test_sub")
           Examples.calc_suite Examples.calc_path []);
    reflexivity.
Defined.

(** C7 as stated fails.  The suite is requested by its id, the build
    succeeds, and the executable ends with an error, no output, and an error
    stream that begins with the text of the file in use: the children are
    failed and no error message is shown.  [search] returns 0, which the
    condition of the message takes for false. *)
Lemma suite_failure_without_message :
  let r := suite_result Examples.posix (str "/ws") (str "build") (str "-s")
             Examples.world_in_use Examples.calc_suite Examples.calc_path [] in
  findSuite Examples.tree Examples.calc_path = Some Examples.calc_suite /\
  truthy_error r = true /\
  stdout r = [] /\
  search_text (stderr r) file_in_use = 0%Z /\
  exists d,
    runSuiteOrTest Examples.posix (str "/ws") (str "build") (str "-s")
                   Examples.world_in_use Examples.tree Examples.calc_path []
    = (Returned tt, d) /\
    ~ error_shown d.
Proof.
  cbv zeta.
  split; [reflexivity|]. split; [reflexivity|]. split; [reflexivity|].
  split; [vm_compute; reflexivity|].
  eexists. split; [vm_compute; reflexivity|].
  intros [msg H]. simpl in H.
  repeat (destruct H as [H|H]; [discriminate H|]). exact H.
Qed.

End OrchestratorFacts.

(** ** The process coordinator *)

Module CoordinatorFacts.
Import Coordinator.

(** When a caller goes on after [acquire], its process runs and the mutex
    has been released in the same step: it is free or already passed to the
    next caller. *)
Lemma resume_releases t st st' c d cmd :
  nth_error (callers st) t = Some c ->
  ph c = Granted d cmd ->
  step (Resume t) st = Some st' ->
  In {| pid := spawned st; dom := d; command := cmd |} (running st') /\
  mutex_of d st' = fst (release (mutex_of d st)).
Proof.
  intros Hc Hph H. unfold step in H. rewrite Hc in H.
  destruct c as [p td rs]. simpl in Hph. subst p.
  destruct d; simpl in H; unfold release in *; simpl mutex_of;
    [destruct (queue (makeMutex st)) as [|t' q]
    |destruct (queue (suiteMutex st)) as [|t' q]];
    inversion H; subst st'; clear H; simpl;
    (split; [apply in_or_app; right; left; reflexivity | reflexivity]).
Qed.

(** C1, the code at the failing input.  Two callers build at the same time:
    the first starts its process and releases the mutex at once, so the
    second, arriving while that process runs, finds the mutex free and
    starts its own; the same when both arrive in one turn of the event
    loop, and the same for the executables.  Two processes of one domain
    then run together and the mutex is free. *)
Theorem concurrent_processes_overlap :
  (exists st,
     steps [Call 0; Resume 0; Call 1; Resume 1] Examples.two_builds = Some st /\
     length (running_in Build st) = 2 /\
     locked (makeMutex st) = false)
  /\
  (exists st,
     steps [Call 0; Call 1; Resume 0; Resume 1] Examples.two_builds = Some st /\
     length (running_in Build st) = 2 /\
     locked (makeMutex st) = false)
  /\
  (exists st,
     steps [Call 0; Resume 0; Call 1; Resume 1] Examples.two_executables = Some st /\
     length (running_in Execute st) = 2 /\
     locked (suiteMutex st) = false).
Proof.
  repeat split; eexists; (split; [vm_compute; reflexivity|]);
    split; reflexivity.
Qed.

(** A caller that arrives while another holds the mutex waits for
    [acquire]: the mutex does order the callers up to the start of their
    processes. *)
Example second_caller_waits_for_acquire :
  exists st,
    steps [Call 0; Call 1] Examples.two_builds = Some st /\
    map ph (callers st) =
      [Granted Build (str "-s build/calc_test.exe");
       Waiting Build (str "-s build/io_test.exe")] /\
    running st = [].
Proof. eexists. split; [vm_compute; reflexivity|]. split; reflexivity. Qed.

(** After the first caller has gone on, its process runs and the mutex is
    not held. *)
Example mutex_free_while_process_runs :
  exists st,
    steps [Call 0; Resume 0] Examples.two_builds = Some st /\
    length (running_in Build st) = 1 /\
    locked (makeMutex st) = false.
Proof. eexists. split; [vm_compute; reflexivity|]. split; reflexivity. Qed.

End CoordinatorFacts.

(** * Further properties *)

(** ** Searching the tree *)

Module TreeFacts.
Import Spec Orchestrator Tree.

(** Induction over a tree of suites and tests. *)
Lemma node_tree_ind (Q : node -> Prop) :
  (forall i l f line, Q (Test i l f line)) ->
  (forall i l f children, Forall Q children -> Q (Suite i l f children)) ->
  forall n, Q n.
Proof.
  intros HTest HSuite.
  exact (fix go (n : node) : Q n :=
           match n with
           | Test i l f line => HTest i l f line
           | Suite i l f children =>
               HSuite i l f children
                 ((fix all (ch : list node) : Forall Q ch :=
                     match ch with
                     | [] => Forall_nil _
                     | c :: ch' => Forall_cons c (go c) (all ch')
                     end) children)
           end).
Qed.

Lemma nodes_self n : In n (nodes n).
Proof. destruct n; left; reflexivity. Qed.

Lemma nodes_child i l f children c n :
  In c children -> In n (nodes c) -> In n (nodes (Suite i l f children)).
Proof.
  intros Hc Hn. simpl. right. apply in_flat_map. exists c. auto.
Qed.

Lemma descendants_nodes n x : In x (descendants n) -> In x (nodes n).
Proof. destruct n; simpl; [intros [] | intros H; right; exact H]. Qed.

(** What [findSuite] returns, loop by loop. *)
Lemma findSuite_spec tree : forall i,
  match findSuite tree i with
  | Some s =>
      is_suite s = true /\ In s (nodes tree) /\
      ((node_id s = i /\ In s (descendants tree)) \/ exists t, owns s i t)
  | None => forall n, In n (descendants tree) -> node_id n <> i
  end.
Proof.
  induction tree as [ti tl tf line|ti tl tf children IH] using node_tree_ind;
    intros i.
  - simpl. intros n [].
  - cbn [findSuite]. unfold descendants. cbn [node_children].
    match goal with
    | |- match ?each children with _ => _ end =>
        assert (H : forall l,
                  Forall (fun c => forall i,
                    match findSuite c i with
                    | Some s =>
                        is_suite s = true /\ In s (nodes c) /\
                        ((node_id s = i /\ In s (descendants c)) \/
                         exists t, owns s i t)
                    | None => forall n, In n (descendants c) -> node_id n <> i
                    end) l ->
                  (forall c, In c l -> In c children) ->
                  match each l with
                  | Some s =>
                      is_suite s = true /\
                      In s (nodes (Suite ti tl tf children)) /\
                      ((node_id s = i /\ In s (flat_map nodes l)) \/
                       exists t, owns s i t)
                  | None => forall n, In n (flat_map nodes l) -> node_id n <> i
                  end)
    end.
    { clear IH. induction l as [|c l IHl]; intros Hall Hsub.
      - intros n [].
      - inversion Hall as [|c' l' Hc Hl]; subst.
        assert (Hin : In c children) by (apply Hsub; left; reflexivity).
        assert (Hsub' : forall x, In x l -> In x children)
          by (intros x Hx; apply Hsub; right; exact Hx).
        specialize (IHl Hl Hsub'). specialize (Hc i).
        destruct (str_eqb (node_id c) i) eqn:E.
        + apply ParserFacts.str_eqb_eq in E.
          destruct (is_suite c) eqn:Es.
          * split; [exact Es|]. split.
            { eapply nodes_child; [exact Hin | apply nodes_self]. }
            left. split; [exact E|]. simpl. apply in_or_app. left.
            apply nodes_self.
          * split; [reflexivity|]. split; [apply nodes_self|].
            right. exists c. repeat split; assumption.
        + assert (Hne : node_id c <> i).
          { intros Heq. rewrite Heq, ParserFacts.str_eqb_refl in E.
            discriminate. }
          destruct (is_suite c) eqn:Es.
          * destruct (findSuite c i) as [s|].
            { destruct Hc as (H1 & H2 & H3). split; [exact H1|]. split.
              - eapply nodes_child; eauto.
              - destruct H3 as [[H3 H4]|H3]; [left|right; exact H3].
                split; [exact H3|]. simpl. apply in_or_app. left.
                apply descendants_nodes. exact H4. }
            destruct (_ l) as [s|].
            { destruct IHl as (H1 & H2 & H3). split; [exact H1|].
              split; [exact H2|].
              destruct H3 as [[H3 H4]|H3]; [left|right; exact H3].
              split; [exact H3|]. simpl. apply in_or_app. right. exact H4. }
            intros n Hn. simpl in Hn. apply in_app_or in Hn.
            destruct Hn as [Hn|Hn]; [|apply IHl; exact Hn].
            destruct c; [discriminate|]. simpl in Hn.
            destruct Hn as [<-|Hn]; [exact Hne | apply Hc; exact Hn].
          * destruct (_ l) as [s|].
            { destruct IHl as (H1 & H2 & H3). split; [exact H1|].
              split; [exact H2|].
              destruct H3 as [[H3 H4]|H3]; [left|right; exact H3].
              split; [exact H3|]. simpl. apply in_or_app. right. exact H4. }
            intros n Hn. simpl in Hn. apply in_app_or in Hn.
            destruct Hn as [Hn|Hn]; [|apply IHl; exact Hn].
            destruct c; [|discriminate]. simpl in Hn.
            destruct Hn as [<-|[]]. exact Hne. }
    apply H; [exact IH | auto].
Qed.

Lemma in_flat_map_nodes (l : list node) c x :
  In c l -> In x (nodes c) -> In x (flat_map nodes l).
Proof. intros Hc Hx. apply in_flat_map. exists c. auto. Qed.

(** The children of a node of the tree are below the root. *)
Lemma child_of_node_is_descendant tree : forall s t,
  In s (nodes tree) -> In t (node_children s) -> In t (descendants tree).
Proof.
  induction tree as [ti tl tf line|ti tl tf children IH] using node_tree_ind;
    intros s t Hs Ht.
  - destruct Hs as [<-|[]]. destruct Ht.
  - simpl in Hs. destruct Hs as [<-|Hs].
    + unfold descendants. simpl in *.
      eapply in_flat_map_nodes; [exact Ht | apply nodes_self].
    + apply in_flat_map in Hs. destruct Hs as (c & Hc & Hs).
      rewrite Forall_forall in IH.
      unfold descendants. simpl.
      eapply in_flat_map_nodes; [exact Hc|].
      apply descendants_nodes. eapply IH; eauto.
Qed.

(** What [findNode] returns. *)
Lemma findNode_spec tree : forall i,
  match findNode tree i with
  | Some n => node_id n = i /\ In n (nodes tree)
  | None => forall n, In n (nodes tree) -> node_id n <> i
  end.
Proof.
  induction tree as [ti tl tf line|ti tl tf children IH] using node_tree_ind;
    intros i.
  - simpl. destruct (str_eqb ti i) eqn:E.
    + apply ParserFacts.str_eqb_eq in E. split; [exact E | left; reflexivity].
    + intros n [<-|[]]. simpl. intros Heq.
      rewrite Heq, ParserFacts.str_eqb_refl in E. discriminate.
  - cbn [findNode node_id].
    destruct (str_eqb ti i) eqn:E.
    + apply ParserFacts.str_eqb_eq in E. split; [exact E | apply nodes_self].
    + assert (Hne : ti <> i).
      { intros Heq. rewrite Heq, ParserFacts.str_eqb_refl in E. discriminate. }
      match goal with
      | |- match ?each children with _ => _ end =>
          assert (H : forall l,
                    Forall (fun c => forall i,
                      match findNode c i with
                      | Some n => node_id n = i /\ In n (nodes c)
                      | None => forall n, In n (nodes c) -> node_id n <> i
                      end) l ->
                    match each l with
                    | Some n => node_id n = i /\ In n (flat_map nodes l)
                    | None => forall n, In n (flat_map nodes l) -> node_id n <> i
                    end)
      end.
      { clear IH. induction l as [|c l IHl]; intros Hall.
        - intros n [].
        - inversion Hall as [|c' l' Hc Hl]; subst.
          specialize (IHl Hl). specialize (Hc i).
          destruct (findNode c i) as [n|].
          + destruct Hc as [H1 H2]. split; [exact H1|].
            simpl. apply in_or_app. left. exact H2.
          + destruct (_ l) as [n|].
            * destruct IHl as [H1 H2]. split; [exact H1|].
              simpl. apply in_or_app. right. exact H2.
            * intros n Hn. simpl in Hn. apply in_app_or in Hn.
              destruct Hn as [Hn|Hn]; [apply Hc | apply IHl]; exact Hn. }
      specialize (H children IH).
      destruct (_ children) as [n|].
      * destruct H as [H1 H2]. split; [exact H1 | right; exact H2].
      * intros n [<-|Hn]; [exact Hne | apply H; exact Hn].
Qed.

(** [findNode] and [findSuite] walk the tree in the same order: below a root
    that does not carry the id, a suite found by [findNode] is the suite
    that [findSuite] returns, and a test found by [findNode] is a child of
    it. *)
Lemma findNode_findSuite tree : forall i,
  node_id tree <> i ->
  match findNode tree i with
  | Some n =>
      exists s, findSuite tree i = Some s /\
                (if is_suite n then s = n else In n (node_children s))
  | None => findSuite tree i = None
  end.
Proof.
  induction tree as [ti tl tf line|ti tl tf children IH] using node_tree_ind;
    intros i Hne.
  - simpl in *. rewrite OrchestratorFacts.str_eqb_false by exact Hne.
    reflexivity.
  - cbn [findNode findSuite node_id] in *.
    rewrite OrchestratorFacts.str_eqb_false by exact Hne.
    match goal with
    | |- match ?eachN children with
         | Some n => exists s, ?eachS children = Some s /\ _
         | None => _
         end =>
        assert (H : forall l,
                  Forall (fun c => forall i, node_id c <> i ->
                    match findNode c i with
                    | Some n =>
                        exists s, findSuite c i = Some s /\
                          (if is_suite n then s = n
                           else In n (node_children s))
                    | None => findSuite c i = None
                    end) l ->
                  (forall c, In c l -> In c children) ->
                  match eachN l with
                  | Some n =>
                      exists s, eachS l = Some s /\
                        (if is_suite n then s = n else In n (node_children s))
                  | None => eachS l = None
                  end)
    end.
    { clear IH. induction l as [|c l IHl]; intros Hall Hsub; [reflexivity|].
      inversion Hall as [|c' l' Hc Hl]; subst.
      assert (Hin : In c children) by (apply Hsub; left; reflexivity).
      assert (Hsub' : forall x, In x l -> In x children)
        by (intros x Hx; apply Hsub; right; exact Hx).
      specialize (IHl Hl Hsub'). specialize (Hc i).
      destruct (str_eqb (node_id c) i) eqn:E.
      - assert (Hf : findNode c i = Some c).
        { destruct c; simpl in *; rewrite E; reflexivity. }
        rewrite Hf. destruct (is_suite c) eqn:Es.
        + exists c. split; reflexivity.
        + eexists. split; [reflexivity|]. simpl. exact Hin.
      - assert (Hne' : node_id c <> i).
        { intros Heq. rewrite Heq, ParserFacts.str_eqb_refl in E.
          discriminate. }
        specialize (Hc Hne').
        destruct (is_suite c) eqn:Es.
        + destruct (findNode c i) as [n|].
          * destruct Hc as (s & -> & Hs). exists s. split; [reflexivity|exact Hs].
          * rewrite Hc. exact IHl.
        + assert (Hf : findNode c i = None).
          { destruct c; [|discriminate]. simpl in *. rewrite E. reflexivity. }
          rewrite Hf. exact IHl. }
    apply H; [exact IH | auto].
Qed.

(** X1. What [findSuite] finds is the suite that contains the id: a suite of
    the tree that carries the id itself and lies below the root, or a suite
    of the tree with a test child that carries it.  It is never a test. *)
Theorem findSuite_containing_suite tree i s :
  findSuite tree i = Some s ->
  is_suite s = true /\ In s (nodes tree) /\
  ((node_id s = i /\ In s (descendants tree)) \/ exists t, owns s i t).
Proof.
  intros H. pose proof (findSuite_spec tree i) as Hs. rewrite H in Hs. exact Hs.
Qed.

Lemma findSuite_containing_suite_witness :
  findSuite Examples.tree (Examples.calc_path ++ str "::test_sub")
    = Some Examples.calc_suite /\
  (is_suite Examples.calc_suite = true /\
   In Examples.calc_suite (nodes Examples.tree) /\
   ((node_id Examples.calc_suite = Examples.calc_path ++ str "::test_sub" /\
     In Examples.calc_suite (descendants Examples.tree)) \/
    exists t, owns Examples.calc_suite (Examples.calc_path ++ str "::test_sub") t)).
Proof.
  split; [reflexivity|].
  apply (@findSuite_containing_suite Examples.tree
           (Examples.calc_path ++ str "::test_sub") Examples.calc_suite).
  reflexivity.
Defined.

(** X2. [findSuite] returns nothing exactly when no node below the root
    carries the id; the id of the root itself is not searched for. *)
Theorem findSuite_none_iff tree i :
  findSuite tree i = None <->
  (forall n, In n (descendants tree) -> node_id n <> i).
Proof.
  pose proof (findSuite_spec tree i) as Hs. split.
  - intros H. rewrite H in Hs. exact Hs.
  - intros Hno. destruct (findSuite tree i) as [s|]; [|reflexivity].
    exfalso. destruct Hs as (_ & Hin & [[Hid Hd]|(t & Ht & _ & Hid)]).
    + apply (Hno s Hd Hid).
    + apply (Hno t); [|exact Hid].
      eapply child_of_node_is_descendant; eauto.
Qed.

(** X3. [findNode] returns a node of the tree that carries the id, the root
    included, and returns nothing exactly when no node of the tree carries
    it. *)
Theorem findNode_found tree i :
  (forall n, findNode tree i = Some n -> node_id n = i /\ In n (nodes tree)) /\
  (findNode tree i = None <-> forall n, In n (nodes tree) -> node_id n <> i).
Proof.
  pose proof (findNode_spec tree i) as Hs. split; [|split].
  - intros n H. rewrite H in Hs. exact Hs.
  - intros H. rewrite H in Hs. exact Hs.
  - intros Hno. destruct (findNode tree i) as [n|]; [|reflexivity].
    exfalso. destruct Hs as [Hid Hin]. apply (Hno n Hin Hid).
Qed.

(** X4. The test that [findNode] finds for an id is a child of the suite that
    [findSuite] finds for it: a request for one test checks a test of the
    suite that was built and run. *)
Theorem findNode_test_in_found_suite tree i n :
  node_id tree <> i ->
  findNode tree i = Some n ->
  is_suite n = false ->
  exists s, findSuite tree i = Some s /\ In n (node_children s).
Proof.
  intros Hne Hn Ht. pose proof (findNode_findSuite tree Hne) as H.
  rewrite Hn, Ht in H. exact H.
Qed.

Lemma findNode_test_in_found_suite_witness :
  let i := Examples.calc_path ++ str "::test_sub" in
  let n := Test i (str "test_sub") Examples.calc_path 5 in
  node_id Examples.tree <> i /\
  findNode Examples.tree i = Some n /\
  is_suite n = false /\
  exists s, findSuite Examples.tree i = Some s /\ In n (node_children s).
Proof.
  cbv zeta.
  assert (H : node_id Examples.tree <> Examples.calc_path ++ str "::test_sub")
    by (vm_compute; discriminate).
  split; [exact H|]. split; [reflexivity|]. split; [reflexivity|].
  apply (@findNode_test_in_found_suite Examples.tree
           (Examples.calc_path ++ str "::test_sub")
           (Test (Examples.calc_path ++ str "::test_sub") (str "test_sub")
                 Examples.calc_path 5) H); reflexivity.
Defined.

End TreeFacts.

(** ** Which names the patterns accept *)

Module PatternFacts.
Import Regex Patterns RegexFacts Spec Scanner Loader LoaderFacts.

Lemma skipn_length_app (pre x : list ascii) : skipn (length pre) (pre ++ x) = x.
Proof. rewrite skipn_app, skipn_all, Nat.sub_diag. reflexivity. Qed.

Lemma test_true_iff r item :
  test r item = true <-> exists mr, exec no_flags item r 0 = Some mr.
Proof.
  unfold test. destruct (exec no_flags item r 0) as [mr|].
  - split; [intros _; exists mr; reflexivity | reflexivity].
  - split; [discriminate | intros [mr H]; discriminate].
Qed.

Lemma existsb_eqb_In (b : ascii) l : existsb (ascii_eqb b) l = true <-> In b l.
Proof.
  rewrite existsb_exists. split.
  - intros (x & Hx & E). apply Ascii.eqb_eq in E. subst. exact Hx.
  - intros H. exists b. split; [exact H | apply Ascii.eqb_refl].
Qed.

(** X5. The test file pattern is not anchored and its dot is not escaped: a
    name is a test file exactly when it holds the suffix followed by any
    character of the line and a c, wherever that is.  So [calc_test.c] is a
    test file, and so are [calc_test.cpp] and [my_testXc.txt]. *)
Theorem test_file_names item :
  test testSourceRegex item = true <->
  exists pre a post,
    item = pre ++ testFileSuffix ++ a :: sourceExtension ++ post /\
    is_dot a = true.
Proof.
  rewrite test_true_iff. unfold testSourceRegex. split.
  - intros [mr Hexec].
    destruct (@exec_some _ _ _ _ _ Hexec) as (_ & H & _ & _).
    apply Seq_inv in H. destruct H as (j1 & c1 & M1 & H).
    apply matches_reads in M1. destruct M1 as [l1 R1].
    apply Seq_inv in H. destruct H as (j2 & c2 & M2 & H).
    apply Lit_exact in M2. destruct M2 as (_ & R2).
    apply Seq_inv in H. destruct H as (j3 & c3 & M3 & H).
    apply matches_Cls in M3. destruct M3 as (_ & a & Ha & R3).
    apply Lit_exact in H. destruct H as (_ & R4).
    exists (firstn (index mr) item ++ l1), a, (skipn (last mr) item).
    split; [|exact Ha].
    pose proof (reads_middle
                  (reads_app R1 (reads_app R2 (reads_app R3 R4)))) as E.
    rewrite E at 1. repeat rewrite <- app_assoc. reflexivity.
  - intros (pre & a & post & E & Ha).
    assert (Hs : skipn (length pre) item =
                 testFileSuffix ++ [a] ++ sourceExtension ++ post).
    { rewrite E. apply skipn_length_app. }
    apply reads_of_skipn in Hs. destruct Hs as [R2 Hs].
    apply reads_of_skipn in Hs. destruct Hs as [R3 Hs].
    apply reads_of_skipn in Hs. destruct Hs as [R4 _].
    assert (Hm : matches no_flags item
                   (Seq (Star dot) (Seq (Lit testFileSuffix)
                      (Seq dot (Lit sourceExtension))))
                   (length pre) []
                   (length pre + length testFileSuffix + length [a]
                    + length sourceExtension) []).
    { eapply M_Seq; [apply M_Star0|].
      eapply M_Seq; [eapply Lit_intro; [exact R2 | apply Forall2_char_eq_refl]|].
      eapply M_Seq; [eapply Cls_intro; [exact R3 | exact Ha]|].
      eapply Lit_intro; [exact R4 | apply Forall2_char_eq_refl]. }
    destruct (@exec_complete _ _ _ 0 _ _ _ Hm) as (mr & Hexec & _).
    { split; [lia|]. rewrite E, length_app. lia. }
    exists mr. exact Hexec.
Qed.

(** X6. The source file pattern is one character class, not two extensions:
    a name is watched as a source file exactly when some character after the
    first is one of ( h ) c and follows a character of the line.  A dot is
    not asked for. *)
Theorem source_file_names item :
  test sourceFileRegex item = true <->
  exists pre a b post,
    item = pre ++ a :: b :: post /\
    is_dot a = true /\ In b (str "(h)c").
Proof.
  rewrite test_true_iff. unfold sourceFileRegex. split.
  - intros [mr Hexec].
    destruct (@exec_some _ _ _ _ _ Hexec) as (_ & H & _ & _).
    apply Seq_inv in H. destruct H as (j1 & c1 & M1 & H).
    apply matches_reads in M1. destruct M1 as [l1 R1].
    apply Seq_inv in H. destruct H as (j2 & c2 & M2 & H).
    apply matches_Cls in M2. destruct M2 as (_ & a & Ha & R2).
    apply matches_Cls in H. destruct H as (_ & b & Hb & R3).
    exists (firstn (index mr) item ++ l1), a, b, (skipn (last mr) item).
    split; [|split; [exact Ha|]].
    + pose proof (reads_middle (reads_app R1 (reads_app R2 R3))) as E.
      rewrite E at 1. repeat rewrite <- app_assoc. reflexivity.
    + apply existsb_eqb_In in Hb. simpl in Hb. simpl.
      destruct Hb as [Hb|[Hb|[Hb|[Hb|[Hb|[Hb|[]]]]]]]; auto.
  - intros (pre & a & b & post & E & Ha & Hb).
    assert (Hs : skipn (length pre) item = [a] ++ [b] ++ post).
    { rewrite E. apply skipn_length_app. }
    apply reads_of_skipn in Hs. destruct Hs as [R2 Hs].
    apply reads_of_skipn in Hs. destruct Hs as [R3 _].
    assert (Hm : matches no_flags item
                   (Seq (Star dot)
                      (Seq dot (Cls (fun a => existsb (ascii_eqb a)
                         (str "(" ++ headerExtension ++ str ")(" ++
                          sourceExtension ++ str ")")))))
                   (length pre) [] (length pre + length [a] + length [b]) []).
    { eapply M_Seq; [apply M_Star0|].
      eapply M_Seq; [eapply Cls_intro; [exact R2 | exact Ha]|].
      eapply Cls_intro; [exact R3|].
      apply existsb_eqb_In. simpl in Hb. simpl.
      destruct Hb as [Hb|[Hb|[Hb|[Hb|[]]]]]; auto 10. }
    destruct (@exec_complete _ _ _ 0 _ _ _ Hm) as (mr & Hexec & _).
    { split; [lia|]. rewrite E, length_app. simpl. lia. }
    exists mr. exact Hexec.
Qed.

Example test_file_names_examples :
  map (fun name => test testSourceRegex (str name))
      ["calc_test.c"; "calc_test.cpp"; "my_testXc.txt"; "calc.c"; "notes.txt"]%string
  = [true; true; true; false; false].
Proof. vm_compute. reflexivity. Qed.

Example source_file_names_examples :
  map (fun name => test sourceFileRegex (str name))
      ["calc.c"; "calc.h"; "archive.zip"; "Makefile"; "c"; "notes.txt"]%string
  = [true; true; true; false; false; false].
Proof. vm_compute. reflexivity. Qed.

Lemma canonical_colon a :
  canonicalize (chr ":") = canonicalize a -> a = chr ":".
Proof.
  destruct a as [[] [] [] [] [] [] [] []]; vm_compute; intros H;
    first [reflexivity | discriminate H].
Qed.

(** X7. The file label pattern asks for a word character and a colon, a
    drive letter: for a file name without colon [setFileLabel] returns the
    relative path whether pretty file labels are enabled or not. *)
Theorem setFileLabel_without_drive P workspacePath pretty fileName :
  existsb (ascii_eqb (chr ":")) fileName = false ->
  setFileLabel P workspacePath pretty fileName = relative P workspacePath fileName.
Proof.
  intros Hno. unfold setFileLabel. destruct pretty; [|reflexivity].
  destruct (exec fileLabelFlags fileName fileLabelRegex 0) as [mr|] eqn:E;
    [|reflexivity].
  exfalso. destruct (@exec_some _ _ _ _ _ E) as (_ & H & _ & _).
  unfold fileLabelRegex in H.
  apply Seq_inv in H. destruct H as (j1 & c1 & M1 & _).
  apply Group_inv in M1. destruct M1 as (c0 & M1 & _).
  apply Seq_inv in M1. destruct M1 as (j2 & c2 & _ & M1).
  apply Seq_inv in M1. destruct M1 as (j3 & c3 & M1 & _).
  apply matches_Chr in M1. destruct M1 as (_ & b & Hb & R).
  assert (Hb' : Ascii.eqb (canonicalize (chr ":")) (canonicalize b) = true)
    by exact Hb.
  apply Ascii.eqb_eq in Hb'. apply canonical_colon in Hb'. subst b.
  apply reads_head in R. apply nth_error_In in R.
  assert (Hyes : existsb (ascii_eqb (chr ":")) fileName = true)
    by (apply existsb_eqb_In; exact R).
  congruence.
Qed.

Lemma setFileLabel_without_drive_witness :
  existsb (ascii_eqb (chr ":")) (str "/ws/test/calc_test.c") = false /\
  setFileLabel Examples.posix (str "/ws") true (str "/ws/test/calc_test.c")
    = relative Examples.posix (str "/ws") (str "/ws/test/calc_test.c").
Proof.
  split; [reflexivity|].
  apply (@setFileLabel_without_drive Examples.posix (str "/ws") true
           (str "/ws/test/calc_test.c")).
  reflexivity.
Defined.

End PatternFacts.

(** ** The watch lists *)

Module WatchFacts.
Import Spec Load.

Section Watching.

Variable P : path_api.
Variable workspacePath : list ascii.

Local Abbreviation watchFiles' := (watchFiles P workspacePath).

Lemma includes_In watched file : includes watched file = true <-> In file watched.
Proof.
  unfold includes. rewrite existsb_exists. split.
  - intros (x & Hx & E). apply ParserFacts.str_eqb_eq in E. subst. exact Hx.
  - intros H. exists file. split; [exact H | apply ParserFacts.str_eqb_refl].
Qed.

Lemma includes_not_In watched file : includes watched file = false -> ~ In file watched.
Proof.
  intros H Hin. apply includes_In in Hin. congruence.
Qed.

Lemma watchFiles_spec files : forall watched,
  exists added,
    fst (watchFiles' watched files) = watched ++ added /\
    snd (watchFiles' watched files) =
      map (fun file => WatchFile (resolve P workspacePath file)) added /\
    NoDup added /\
    (forall file, In file added -> In file files /\ ~ In file watched) /\
    (forall file, In file files -> In file (watched ++ added)).
Proof.
  induction files as [|file files IH]; intros watched; simpl.
  - exists []. rewrite app_nil_r.
    split; [reflexivity|]. split; [reflexivity|]. split; [constructor|].
    split; intros f [].
  - destruct (includes watched file) eqn:E.
    + destruct (IH watched) as (added & H1 & H2 & H3 & H4 & H5).
      exists added. split; [exact H1|]. split; [exact H2|]. split; [exact H3|].
      split.
      * intros f Hf. destruct (H4 f Hf). split; [right|]; assumption.
      * intros f [<-|Hf]; [|apply H5; exact Hf].
        apply in_or_app. left. apply includes_In. exact E.
    + apply includes_not_In in E.
      destruct (IH (watched ++ [file])) as (added & H1 & H2 & H3 & H4 & H5).
      destruct (watchFiles' (watched ++ [file]) files) as [watched' acts].
      simpl in *. exists (file :: added).
      split; [rewrite H1, <- app_assoc; reflexivity|].
      split; [rewrite H2; reflexivity|]. split.
      * constructor; [|exact H3]. intros Hin. destruct (H4 file Hin) as [_ Hn].
        apply Hn. apply in_or_app. right. left. reflexivity.
      * split.
        { intros f [<-|Hf]; [split; [left; reflexivity | exact E]|].
          destruct (H4 f Hf) as [Ha Hb]. split; [right; exact Ha|].
          intros Hw. apply Hb. apply in_or_app. left. exact Hw. }
        { intros f [<-|Hf].
          - apply in_or_app. right. left. reflexivity.
          - specialize (H5 f Hf). rewrite <- app_assoc in H5. exact H5. }
Qed.

(** X8. [watchFilesForAutorun] and [watchFilesForReload] watch a file once:
    the list grows by the files that were not in it, each once, a watcher is
    registered for exactly these, in order, and afterwards every file of the
    call is in the list. *)
Theorem watchFiles_once files watched :
  exists added,
    fst (watchFiles P workspacePath watched files) = watched ++ added /\
    snd (watchFiles P workspacePath watched files) =
      map (fun file => WatchFile (resolve P workspacePath file)) added /\
    NoDup added /\
    (forall file, In file added -> In file files /\ ~ In file watched) /\
    (forall file, In file files -> In file (watched ++ added)).
Proof. apply watchFiles_spec. Qed.

Lemma watchFiles_known files : forall watched,
  (forall file, In file files -> In file watched) ->
  watchFiles' watched files = (watched, []).
Proof.
  induction files as [|file files IH]; intros watched H; simpl; [reflexivity|].
  assert (E : includes watched file = true)
    by (apply includes_In; apply H; left; reflexivity).
  rewrite E. apply IH. intros f Hf. apply H. right. exact Hf.
Qed.

(** X9. Watching is idempotent: a second call with the same files, as a
    reload of unchanged files makes, registers no watcher and leaves the list
    as it is. *)
Theorem watchFiles_again watched files :
  watchFiles P workspacePath
             (fst (watchFiles P workspacePath watched files)) files =
  (fst (watchFiles P workspacePath watched files), []).
Proof.
  apply watchFiles_known.
  destruct (watchFiles_spec files watched) as (added & H1 & _ & _ & _ & H5).
  rewrite H1. exact H5.
Qed.

(** The watch list keeps having no duplicates. *)
Lemma watchFiles_NoDup watched files :
  NoDup watched -> NoDup (fst (watchFiles' watched files)).
Proof.
  intros Hnd.
  destruct (watchFiles_spec files watched) as (added & H1 & _ & H3 & H4 & _).
  rewrite H1. apply NoDup_app; [exact Hnd | exact H3|].
  intros f Hw Ha. destruct (H4 f Ha) as [_ Hn]. apply Hn. exact Hw.
Qed.

End Watching.

End WatchFacts.

(** ** The scanner *)

Module ScanFacts.
Import Regex Patterns Spec Scanner Scan.

Section Scanning.

Variable P : path_api.
Variable fileRegex : regex.

(** The loop of [getFileList] without its accumulators: a scan in which
    [lstat] answers for every entry returns, and any other is rejected after
    some of the messages. *)
Lemma getFileList_listed e : forall filePath,
  if listable e then
    getFileList P filePath e fileRegex =
    (Returned (listed P fileRegex filePath e),
     repeat cannot_find (unreadable e))
  else
    exists n,
      getFileList P filePath e fileRegex = (Rejected, repeat cannot_find n) /\
      n <= unreadable e.
Proof.
  induction e as [| | |items IH] using LoadFacts.entry_tree_ind; intros filePath;
    try reflexivity.
  cbn [getFileList listed unreadable listable].
  match goal with
  | |- if ?ok items then ?g items [] [] = (Returned (?f items), repeat _ (?u items))
       else _ =>
      assert (H : forall files shown,
                if ok items then
                  g items files shown =
                  (Returned (files ++ f items),
                   shown ++ repeat cannot_find (u items))
                else
                  exists n,
                    g items files shown =
                    (Rejected, shown ++ repeat cannot_find n) /\ n <= u items)
  end.
  { induction IH as [|[item sub] items Hsub _ IHl]; intros files shown.
    - simpl. rewrite !app_nil_r. reflexivity.
    - simpl in Hsub. destruct sub as [|items'| |].
      + simpl. destruct (test fileRegex item).
        * specialize (IHl (files ++ [resolve P filePath item]) shown).
          match type of IHl with
          | if ?b then _ else _ => destruct b
          end.
          { rewrite IHl, <- app_assoc. reflexivity. }
          { exact IHl. }
        * specialize (IHl files shown).
          match type of IHl with
          | if ?b then _ else _ => destruct b
          end; exact IHl.
      + specialize (Hsub (resolve P filePath item)).
        cbn [getFileList listed unreadable listable] in Hsub.
        cbn [getFileList listed unreadable listable].
        cbv beta iota.
        match type of Hsub with
        | if ?b then _ else _ => destruct b
        end.
        * rewrite Hsub. simpl andb.
          match goal with
          | |- if ?b then _ else _ =>
              match type of IHl with
              | forall files shown, if ?b' then _ else _ =>
                  change b with b'
              end
          end.
          match goal with
          | |- context [unreadable (Directory items')] => idtac
          | _ => idtac
          end.
          specialize (IHl (files ++ listed P fileRegex
                                      (resolve P filePath item)
                                      (Directory items'))
                          (shown ++ repeat cannot_find
                                      (unreadable (Directory items')))).
          cbn [listed unreadable] in IHl.
          match type of IHl with
          | if ?b then _ else _ => destruct b
          end.
          { rewrite IHl, repeat_app, <- !app_assoc. reflexivity. }
          { destruct IHl as (n & E & Hn).
            eexists. rewrite E, <- app_assoc, <- repeat_app.
            split; [reflexivity | lia]. }
        * simpl andb. cbv iota. destruct Hsub as (n & E & Hn).
          rewrite E. exists n. split; [reflexivity | lia].
      + cbn [getFileList listed unreadable listable andb]. cbv beta iota.
        specialize (IHl (files ++ [str ""])
                        (shown ++ [ShowError (str "Cannot find test result path!")])).
        match type of IHl with
        | if ?b then _ else _ => destruct b
        end.
        * rewrite IHl, <- !app_assoc. reflexivity.
        * destruct IHl as (n & E & Hn). exists (S n).
          rewrite E, <- app_assoc. split; [reflexivity | lia].
      + cbn [getFileList listed unreadable listable andb]. cbv beta iota.
        exists 0. rewrite app_nil_r. split; [reflexivity | lia]. }
  specialize (H [] []).
  match type of H with
  | if ?b then _ else _ => destruct b
  end; exact H.
Qed.

Lemma listed_found e : forall filePath full,
  In full (listed P fileRegex filePath e) <-> found P fileRegex filePath e full.
Proof.
  induction e as [| | |items IH] using LoadFacts.entry_tree_ind;
    intros filePath full.
  - simpl. split.
    + intros [<-|[]]. apply found_unreadable. discriminate.
    + inversion 1; left; reflexivity.
  - simpl. split.
    + intros [<-|[]]. apply found_unreadable. discriminate.
    + inversion 1; left; reflexivity.
  - simpl. split.
    + intros [<-|[]]. apply found_unreadable. discriminate.
    + inversion 1; left; reflexivity.
  - cbn [listed].
    match goal with
    | |- In full (?f items) <-> _ =>
        assert (H : forall l,
                  Forall (fun p => forall filePath full,
                    In full (listed P fileRegex filePath (snd p)) <->
                    found P fileRegex filePath (snd p) full) l ->
                  (In full (f l) <->
                   (exists item, In (item, RegularFile) l /\
                      test fileRegex item = true /\
                      full = resolve P filePath item) \/
                   (exists item sub, In (item, sub) l /\ sub <> RegularFile /\
                      found P fileRegex (resolve P filePath item) sub full)))
    end.
    { clear IH. induction l as [|[item sub] l IHl]; intros Hall.
      - simpl. split; [intros [] | intros [(x & [] & _)|(x & y & [] & _)]].
      - inversion Hall as [|p l' Hsub Hl]; subst. simpl in Hsub.
        specialize (IHl Hl). rewrite in_app_iff, IHl. clear IHl. split.
        + intros [Hhere|[(x & Hx & Ht & E)|(x & y & Hx & Hy & Hf)]].
          * destruct sub as [|items'| |].
            { destruct (test fileRegex item) eqn:Et; [|destruct Hhere].
              destruct Hhere as [<-|[]]. left. exists item.
              split; [left; reflexivity | auto]. }
            { right. exists item, (Directory items').
              split; [left; reflexivity|]. split; [discriminate|].
              apply Hsub. exact Hhere. }
            { right. exists item, Other.
              split; [left; reflexivity|]. split; [discriminate|].
              apply Hsub. exact Hhere. }
            { right. exists item, NoStat.
              split; [left; reflexivity|]. split; [discriminate|].
              apply Hsub. exact Hhere. }
          * left. exists x. split; [right; exact Hx | auto].
          * right. exists x, y. split; [right; exact Hx | auto].
        + intros [(x & [Hx|Hx] & Ht & E)|(x & y & [Hx|Hx] & Hy & Hf)].
          * inversion Hx; subst. left. rewrite Ht. left. reflexivity.
          * right. left. exists x. auto.
          * inversion Hx; subst. left.
            destruct y as [|items'| |]; [congruence| | |]; apply Hsub; exact Hf.
          * right. right. exists x, y. auto. }
    rewrite (H items IH). split.
    + intros [(item & Hi & Ht & ->)|(item & sub & Hi & Hs & Hf)].
      * apply found_file; assumption.
      * eapply found_below; eauto.
    + inversion 1; subst.
      * left. eauto.
      * right. eauto.
      * exfalso. eapply H1. reflexivity.
Qed.

(** X10. When [lstat] answers for every entry the scan meets, [getFileList]
    returns, and returns exactly what the scan meets: the resolved path of
    every regular file, in the directory or below, whose name the pattern
    accepts, and the empty path for a directory that cannot be read.  When
    [lstat] is rejected for an entry, [getFileList] is rejected. *)
Theorem getFileList_found e filePath :
  (listable e = true ->
   exists files,
     fst (getFileList P filePath e fileRegex) = Returned files /\
     forall full, In full files <-> found P fileRegex filePath e full) /\
  (listable e = false ->
   fst (getFileList P filePath e fileRegex) = Rejected).
Proof.
  pose proof (getFileList_listed e filePath) as H. split; intros Hl;
    rewrite Hl in H.
  - rewrite H. eexists. split; [reflexivity|]. intros full. apply listed_found.
  - destruct H as (n & -> & _). reflexivity.
Qed.

(** X11. [getFileList] shows nothing but the error message of a directory
    that cannot be read: once for each such directory when the scan returns,
    and for some of them when the scan is rejected on the way. *)
Theorem getFileList_errors e filePath :
  exists n,
    snd (getFileList P filePath e fileRegex) = repeat cannot_find n /\
    n <= unreadable e /\
    (listable e = true -> n = unreadable e).
Proof.
  pose proof (getFileList_listed e filePath) as H.
  destruct (listable e).
  - rewrite H. exists (unreadable e). repeat split. lia.
  - destruct H as (n & -> & Hn). exists n. repeat split; [exact Hn|].
    discriminate.
Qed.

End Scanning.

End ScanFacts.

(** ** The shape of the loaded tree *)

Module ShapeFacts.
Import Regex Patterns RegexFacts Spec Loader LoaderFacts Shape.

Section Loading.

Variable P : path_api.
Variable workspacePath : list ascii.
Variable isPrettyTestLabelEnable isPrettyTestFileLabelEnable : bool.
Variable readFile : list ascii -> option (list ascii).

Local Abbreviation loadSuite' :=
  (loadSuite P workspacePath isPrettyTestLabelEnable
             isPrettyTestFileLabelEnable readFile).
Local Abbreviation loadSuites' :=
  (loadSuites P workspacePath isPrettyTestLabelEnable
              isPrettyTestFileLabelEnable readFile).
Local Abbreviation loadTests' :=
  (loadTests P workspacePath isPrettyTestLabelEnable
             isPrettyTestFileLabelEnable readFile).

Lemma loadSuite_shape file suite :
  loadSuite' file = Returned suite -> suite_of file suite.
Proof.
  intros H. destruct (readFile file) as [fileText|] eqn:Hf;
    [|unfold loadSuite in H; rewrite Hf in H; discriminate].
  destruct (@loadSuite_spec P workspacePath isPrettyTestLabelEnable
              isPrettyTestFileLabelEnable readFile
              (fun _ t => test_of file t) file fileText Hf)
    as (tests & E & Hall).
  { intros lastIndex mr Hexec.
    destruct (extracted_names isPrettyTestLabelEnable file _ _ Hexec)
      as (rest & Hrest & Hid & _).
    split; [reflexivity|]. split; [reflexivity|].
    exists rest. split; assumption. }
  rewrite E in H. inversion H; subst suite.
  eexists _, tests. split; [reflexivity | exact Hall].
Qed.

Lemma loadSuites_shape files : forall suites,
  loadSuites' files = Returned suites -> Forall2 suite_of files suites.
Proof.
  induction files as [|file files IH]; intros suites H; simpl in H.
  - inversion H. constructor.
  - destruct (loadSuite' file) as [suite| | |] eqn:E; try discriminate.
    destruct (loadSuites' files) as [rest| | |]; try discriminate.
    inversion H; subst suites.
    constructor; [apply loadSuite_shape; exact E | apply IH; reflexivity].
Qed.

(** X12. The tree of [loadTests] has depth two: the root named root holds
    one suite per file, in the order of the files, whose id and file are the
    file; the children of a suite are tests, each with the file of its suite
    and an id made of the file, two colons and the name of the test. *)
Theorem loadTests_shape files tree :
  loadTests' files = Returned tree ->
  exists suites,
    tree = Suite (str "root") (str "Unity") None suites /\
    Forall2 suite_of files suites.
Proof.
  unfold loadTests. intros H.
  destruct (loadSuites' files) as [suites| | |] eqn:E; try discriminate.
  inversion H. exists suites. split; [reflexivity|].
  apply loadSuites_shape. exact E.
Qed.

Lemma prefixb_app pat post : Orchestrator.prefixb pat (pat ++ post) = true.
Proof.
  induction pat as [|a pat IH]; simpl; [reflexivity|].
  unfold ascii_eqb. rewrite Ascii.eqb_refl. exact IH.
Qed.

Lemma occursb_app pat pre post : occursb pat (pre ++ pat ++ post) = true.
Proof.
  induction pre as [|a pre IH].
  - simpl app. destruct (pat ++ post) eqn:E; simpl;
      rewrite <- ?E, prefixb_app; reflexivity.
  - simpl. rewrite IH. apply orb_true_r.
Qed.

(** X13. A file whose text does not hold the word void has no test
    declaration: [loadTests] keeps the file as a suite without children. *)
Theorem loadSuite_without_declaration file fileText :
  readFile file = Some fileText ->
  occursb (str "void") fileText = false ->
  loadSuite' file =
  Returned (Suite file
              (setFileLabel P workspacePath isPrettyTestFileLabelEnable file)
              (Some file) []).
Proof.
  intros Hf Hno. unfold loadSuite. rewrite Hf. simpl extract.
  destruct (exec testNameFlags fileText testNameRegex 0) as [mr|] eqn:E;
    [|reflexivity].
  exfalso.
  destruct (testName_match _ _ E) as (wsp & sp & g2 & tail & R & _).
  apply reads_middle in R.
  assert (Hyes : occursb (str "void") fileText = true).
  { rewrite R.
    replace (firstn (index mr) fileText ++
             (wsp ++ str "void" ++ sp ++ testFunctionPrefix ++ g2 ++ tail) ++
             skipn (last mr) fileText)
      with ((firstn (index mr) fileText ++ wsp) ++ str "void" ++
            (sp ++ testFunctionPrefix ++ g2 ++ tail) ++
            skipn (last mr) fileText)
      by (rewrite <- !app_assoc; reflexivity).
    apply occursb_app. }
  congruence.
Qed.

End Loading.

Lemma loadTests_shape_witness :
  loadTests Examples.posix (str "/ws") false false Examples.readFile
            [Examples.calc_path]
  = Returned (Suite (str "root") (str "Unity") None
                [Suite Examples.calc_path (str "test/calc_test.c")
                   (Some Examples.calc_path)
                   [Test (Examples.calc_path ++ str "::test_addTwoNumbers")
                      (str "test_addTwoNumbers") Examples.calc_path 2;
                    Test (Examples.calc_path ++ str "::test_sub\")
                      (str "test_sub\") Examples.calc_path 5]])
  /\
  exists suites,
    Suite (str "root") (str "Unity") None
      [Suite Examples.calc_path (str "test/calc_test.c")
         (Some Examples.calc_path)
         [Test (Examples.calc_path ++ str "::test_addTwoNumbers")
            (str "test_addTwoNumbers") Examples.calc_path 2;
          Test (Examples.calc_path ++ str "::test_sub\")
            (str "test_sub\") Examples.calc_path 5]]
    = Suite (str "root") (str "Unity") None suites /\
    Forall2 suite_of [Examples.calc_path] suites.
Proof.
  assert (H : loadTests Examples.posix (str "/ws") false false Examples.readFile
                [Examples.calc_path]
              = Returned (Suite (str "root") (str "Unity") None
                  [Suite Examples.calc_path (str "test/calc_test.c")
                     (Some Examples.calc_path)
                     [Test (Examples.calc_path ++ str "::test_addTwoNumbers")
                        (str "test_addTwoNumbers") Examples.calc_path 2;
                      Test (Examples.calc_path ++ str "::test_sub\")
                        (str "test_sub\") Examples.calc_path 5]]))
    by (vm_compute; reflexivity).
  split; [exact H|].
  apply (@loadTests_shape Examples.posix (str "/ws") false false
           Examples.readFile [Examples.calc_path] _ H).
Defined.

Lemma loadSuite_without_declaration_witness :
  loadSuite Examples.posix (str "/ws") false false
    (fun _ => Some (str "#include <unity.h>" ++ Spec.LF ++
                    str "int helper(int x);" ++ Spec.LF))
    (str "/ws/test/helper_test.c")
  = Returned (Suite (str "/ws/test/helper_test.c")
                (setFileLabel Examples.posix (str "/ws") false
                   (str "/ws/test/helper_test.c"))
                (Some (str "/ws/test/helper_test.c")) []).
Proof.
  apply (@loadSuite_without_declaration Examples.posix (str "/ws") false false
           (fun _ => Some (str "#include <unity.h>" ++ Spec.LF ++
                           str "int helper(int x);" ++ Spec.LF))
           (str "/ws/test/helper_test.c")
           (str "#include <unity.h>" ++ Spec.LF ++
            str "int helper(int x);" ++ Spec.LF)).
  - reflexivity.
  - vm_compute. reflexivity.
Defined.

End ShapeFacts.

(** ** What a request runs and reports *)

Module RunFacts.
Import Regex Patterns RegexFacts Spec Orchestrator OrchestratorFacts.
Import Tree TreeFacts Report.

Section Running.

Variable P : path_api.
Variable workspacePath testBuildPath : list ascii.
Variable testBuildCommandArgs foldersCommandArgs : list ascii.
Variable world : list action -> RunResult.
Variable testSuiteInfo : node.

Local Abbreviation runSuiteExe' :=
  (runSuiteExe P workspacePath testBuildPath testBuildCommandArgs world).
Local Abbreviation runSuiteOrTest' :=
  (runSuiteOrTest P workspacePath testBuildPath testBuildCommandArgs world
                  testSuiteInfo).
Local Abbreviation runSuites' :=
  (runSuites P workspacePath testBuildPath testBuildCommandArgs world
             testSuiteInfo).
Local Abbreviation run' :=
  (run P workspacePath testBuildPath testBuildCommandArgs foldersCommandArgs
       world testSuiteInfo).
Local Abbreviation suite_result' :=
  (suite_result P workspacePath testBuildPath testBuildCommandArgs world).
Local Abbreviation suite_effects' :=
  (suite_effects P workspacePath testBuildPath testBuildCommandArgs world).
Local Abbreviation buildCommand' :=
  (buildCommand P testBuildPath testBuildCommandArgs).
Local Abbreviation exeCommand' := (exeCommand P workspacePath testBuildPath).
Local Abbreviation suites_in_order' :=
  (suites_in_order P workspacePath testBuildPath testBuildCommandArgs world).

(** A suite whose children are tests is the only suite that [findSuite]
    finds in it. *)
Lemma findSuite_leaves ids a b c tests i s :
  forallb (well_formed_test ids) tests = true ->
  findSuite (Suite a b c tests) i = Some s -> s = Suite a b c tests.
Proof.
  intros Hwf. simpl.
  match goal with
  | |- ?each tests = Some s -> _ =>
      assert (H : forall l, forallb (well_formed_test ids) l = true ->
                            each l = Some s -> s = Suite a b c tests);
        [|apply H; exact Hwf]
  end.
  induction l as [|t l IH]; intros Hl; [discriminate|].
  simpl in Hl. apply andb_prop in Hl. destruct Hl as [Ht Hl].
  unfold well_formed_test in Ht.
  apply andb_prop in Ht. destruct Ht as [Ht _].
  apply andb_prop in Ht. destruct Ht as [Hleaf _].
  apply negb_true_iff in Hleaf. rewrite Hleaf.
  destruct (str_eqb (node_id t) i).
  - intros E. inversion E. reflexivity.
  - apply IH. exact Hl.
Qed.

(** In a well-formed tree [findSuite] finds top-level suites only. *)
Lemma findSuite_child i s :
  well_formed testSuiteInfo = true ->
  findSuite testSuiteInfo i = Some s ->
  In s (node_children testSuiteInfo).
Proof.
  unfold well_formed. intros Hwf.
  apply andb_prop in Hwf. destruct Hwf as [Hwf Hall].
  destruct testSuiteInfo as [|rid rl rf children]; [discriminate|].
  simpl in Hall. simpl node_children.
  set (ids := map node_id children) in Hall.
  cbn [findSuite].
  match goal with
  | |- ?each children = Some s -> _ =>
      assert (H : forall l, forallb (well_formed_suite ids) l = true ->
                            each l = Some s -> In s l);
        [|apply H; exact Hall]
  end.
  induction l as [|c l IH]; intros Hl; [discriminate|].
  simpl in Hl. apply andb_prop in Hl. destruct Hl as [Hc Hl].
  destruct (well_formed_suite_inv _ _ Hc) as (ci & cl & cf & tests & -> & Htests).
  simpl is_suite. cbv iota. simpl node_id.
  destruct (str_eqb ci i).
  - intros E. inversion E. left. reflexivity.
  - destruct (findSuite (Suite ci cl (Some cf) tests) i) as [found|] eqn:E.
    + intros E'. inversion E'; subst found.
      left. symmetry. eapply findSuite_leaves; eauto.
    + intros E'. right. apply IH; assumption.
Qed.

(** The result pattern of every test of a well-formed tree can be built. *)
Lemma tests_compile n :
  well_formed testSuiteInfo = true ->
  In n (nodes testSuiteInfo) -> is_suite n = false ->
  compiles (node_label n) = true.
Proof.
  intros Hwf Hin Hn.
  assert (Hroot : is_suite testSuiteInfo = true).
  { unfold well_formed in Hwf. apply andb_prop in Hwf. destruct Hwf as [Hwf _].
    apply andb_prop in Hwf. tauto. }
  destruct testSuiteInfo as [|rid rl rf children] eqn:Htree; [discriminate|].
  simpl in Hin. destruct Hin as [<-|Hin]; [discriminate|].
  apply in_flat_map in Hin. destruct Hin as (c & Hc & Hin).
  assert (Hc' : In c (node_children testSuiteInfo)) by (rewrite Htree; exact Hc).
  rewrite <- Htree in Hwf.
  destruct (@well_formed_children testSuiteInfo c Hwf Hc') as (Hs & _ & Hch).
  destruct c as [|ci cl cf tests]; [discriminate|].
  simpl in Hin. destruct Hin as [<-|Hin]; [discriminate|].
  apply in_flat_map in Hin. destruct Hin as (t & Ht & Hin).
  destruct (Hch t Ht) as [Hleaf Hlit].
  destruct t; [|discriminate].
  simpl in Hin. destruct Hin as [<-|[]]. exact Hlit.
Qed.

(** When the result pattern of the test can be built, [checkTestResult]
    returns after the events of the parser. *)
Lemma checkTestResult_trace n out tr :
  compiles (node_label n) = true ->
  checkTestResult n out tr = (Returned tt, tr ++ parsed n out).
Proof.
  unfold compiles, checkTestResult, parsed, Parser.checkTestResult.
  destruct (testResultRegex (node_label n)) as [r| |]; try discriminate.
  intros _. destruct (exec no_flags out r 0) as [mr|]; [|reflexivity].
  destruct (match group out 2 mr with Some g => _ | None => _ end);
    reflexivity.
Qed.

(** The events of the parser are events of the test. *)
Lemma parsed_reports suite n out :
  In n (node_children suite) -> Forall (reports suite) (parsed n out).
Proof.
  intros Hin. unfold parsed, Parser.checkTestResult.
  assert (H : forall st dec,
            reports suite (Fire (TestEvent (node_id n) st dec))).
  { intros st dec. left. exists n, st, dec. auto. }
  assert (Hall : forall evs,
            Forall (fun e => exists st dec, e = TestEvent (node_id n) st dec) evs ->
            Forall (reports suite) (map Fire evs)).
  { induction 1 as [|e evs (st & dec & ->) _ IH]; simpl; constructor; auto. }
  apply Hall.
  destruct (testResultRegex (node_label n)) as [r| |]; simpl;
    try (repeat (apply Forall_cons; [eexists; eexists; reflexivity|]);
         apply Forall_nil).
  destruct (exec no_flags out r 0) as [mr|]; simpl;
    [|repeat (apply Forall_cons; [eexists; eexists; reflexivity|]);
      apply Forall_nil].
  destruct (match group out 2 mr with Some g => _ | None => _ end); simpl;
    repeat (apply Forall_cons; [eexists; eexists; reflexivity|]);
    apply Forall_nil.
Qed.

Lemma children_trace (l : list node) out : forall tr,
  (forall c, In c l -> is_suite c = false /\ compiles (node_label c) = true) ->
  for_each l (fun child => if is_suite child then ret tt
                           else checkTestResult child out) tr
  = (Returned tt, tr ++ flat_map (fun c => parsed c out) l).
Proof.
  induction l as [|c l IH]; intros tr H; simpl.
  - unfold ret. rewrite app_nil_r. reflexivity.
  - destruct (H c (or_introl eq_refl)) as [Hc Hlit].
    unfold bind. rewrite Hc, (@checkTestResult_trace c out _ Hlit).
    rewrite IH by (intros c' Hc'; apply H; right; exact Hc').
    rewrite <- app_assoc. reflexivity.
Qed.


Lemma failed_children_reports suite :
  Forall (reports suite) (failed_children suite).
Proof.
  unfold failed_children. apply Forall_forall. intros a Ha.
  apply in_map_iff in Ha. destruct Ha as (child & <- & Hin).
  left. exists child, Failed, []. auto.
Qed.

Lemma cannot_run_reports suite i : reports suite (cannot_run i).
Proof. right. eexists. reflexivity. Qed.

(** In a well-formed tree an id that no node carries runs nothing, and any
    other id runs the suite that contains it: the effects of [runSuiteExe]
    and then reports on the suite. *)
Lemma runSuiteOrTest_reports i tr :
  well_formed testSuiteInfo = true ->
  match findSuite testSuiteInfo i with
  | Some suite =>
      exists file rest,
        node_file suite = Some file /\
        Forall (reports suite) rest /\
        runSuiteOrTest' i tr =
          (Returned tt, tr ++ suite_effects' suite file tr ++ rest)
  | None => runSuiteOrTest' i tr = (Returned tt, tr)
  end.
Proof.
  intros Hwf. unfold runSuiteOrTest.
  destruct (findSuite testSuiteInfo i) as [suite|] eqn:Hfind; [|reflexivity].
  pose proof (findSuite_child _ Hwf Hfind) as Hin.
  destruct (@well_formed_children testSuiteInfo suite Hwf Hin)
    as (Hs & (file & Hfile) & Hch).
  rewrite Hs. exists file.
  unfold bind at 1. rewrite (runSuiteExe_trace _ _ _ _ _ _ tr Hfile).
  set (r := suite_result' suite file tr).
  destruct (str_eqb i (node_id suite)) eqn:Hid.
  - destruct (truthy_error r && no_stdout r).
    + unfold bind. rewrite fail_children_trace.
      destruct (search_text (stderr r) file_in_use =? 0)%Z.
      * exists (failed_children suite).
        split; [exact Hfile|]. split; [apply failed_children_reports|].
        unfold ret. rewrite <- app_assoc. reflexivity.
      * exists (failed_children suite ++ [cannot_run i]).
        split; [exact Hfile|]. split.
        { apply Forall_app. split; [apply failed_children_reports|].
          constructor; [apply cannot_run_reports | constructor]. }
        unfold emit. rewrite <- !app_assoc. reflexivity.
    + exists (flat_map (fun c => parsed c (stdout r)) (node_children suite)).
      split; [exact Hfile|]. split.
      * apply Forall_forall. intros a Ha. apply in_flat_map in Ha.
        destruct Ha as (c & Hc & Ha).
        pose proof (@parsed_reports suite c (stdout r) Hc) as Hrep.
        rewrite Forall_forall in Hrep. apply Hrep. exact Ha.
      * rewrite (@children_trace _ _ _ Hch), <- app_assoc. reflexivity.
  - destruct (truthy_error r && no_stdout r).
    + exists (failed_children suite ++ [cannot_run i]).
      split; [exact Hfile|]. split.
      { apply Forall_app. split; [apply failed_children_reports|].
        constructor; [apply cannot_run_reports | constructor]. }
      unfold bind. rewrite fail_children_trace.
      unfold emit. rewrite <- !app_assoc. reflexivity.
    + destruct (str_eqb (node_id testSuiteInfo) i) eqn:Hroot.
      * assert (Hn0 : forall t, str_eqb (node_id t) i = true ->
                                findNode t i = Some t)
          by (intros [] Ht; simpl in *; rewrite Ht; reflexivity).
        rewrite (Hn0 _ Hroot).
        assert (Hr : is_suite testSuiteInfo = true).
        { unfold well_formed in Hwf. apply andb_prop in Hwf.
          destruct Hwf as [Hwf _]. apply andb_prop in Hwf. tauto. }
        rewrite Hr. exists []. split; [exact Hfile|]. split; [constructor|].
        unfold ret. rewrite app_nil_r. reflexivity.
      * assert (Hne : node_id testSuiteInfo <> i).
        { intros E. rewrite E, ParserFacts.str_eqb_refl in Hroot.
          discriminate. }
        pose proof (findNode_findSuite testSuiteInfo Hne) as H.
        destruct (findNode testSuiteInfo i) as [n|].
        -- destruct (is_suite n) eqn:Hn.
           { exists []. split; [exact Hfile|]. split; [constructor|].
             unfold ret. rewrite app_nil_r. reflexivity. }
           destruct H as (s & Hs' & Hin').
           rewrite Hfind in Hs'. inversion Hs'; subst s.
           exists (parsed n (stdout r)).
           split; [exact Hfile|]. split; [apply parsed_reports; exact Hin'|].
           rewrite (@checkTestResult_trace n _ _ (proj2 (Hch n Hin'))),
             <- app_assoc. reflexivity.
        -- exists []. split; [exact Hfile|]. split; [constructor|].
           unfold ret. rewrite app_nil_r. reflexivity.
Qed.

Lemma prepareFolders_trace tr :
  prepareFolders foldersCommandArgs world tr =
  (Returned tt, tr ++ folders_effects foldersCommandArgs world tr).
Proof.
  unfold prepareFolders, folders_effects.
  destruct foldersCommandArgs as [|a args].
  - unfold ret. rewrite app_nil_r. reflexivity.
  - unfold bind, createFolders, runMake. cbv zeta.
    destruct (truthy_error (world _)).
    + unfold emit. rewrite <- app_assoc. reflexivity.
    + unfold ret. reflexivity.
Qed.

(** In a well-formed tree [runSuites] returns, and it runs the suites of
    the requested ids in the order of the request. *)
Lemma runSuites_in_order (tests : list id) :
  well_formed testSuiteInfo = true ->
  forall tr, exists tr',
    runSuites' tests tr = (Returned tt, tr') /\
    suites_in_order' (requested testSuiteInfo tests) tr tr'.
Proof.
  intros Hwf. unfold runSuites.
  induction tests as [|i tests IH]; intros tr.
  - exists tr. split; [reflexivity | constructor].
  - simpl for_each. unfold requested. simpl flat_map.
    pose proof (runSuiteOrTest_reports i tr Hwf) as H.
    destruct (findSuite testSuiteInfo i) as [suite|].
    + destruct H as (file & rest & Hfile & Hrest & E).
      destruct (IH (tr ++ suite_effects' suite file tr ++ rest))
        as (tr' & E' & Hord).
      exists tr'. split.
      * unfold bind. rewrite E. exact E'.
      * simpl app. econstructor; eauto.
    + destruct (IH tr) as (tr' & E' & Hord).
      exists tr'. split; [|exact Hord].
      unfold bind. rewrite H. exact E'.
Qed.

(** In a well-formed tree the ids of the children of the root stand for
    the children themselves. *)
Lemma requested_children :
  well_formed testSuiteInfo = true ->
  requested testSuiteInfo
    (map node_id (filter is_suite (node_children testSuiteInfo)))
  = node_children testSuiteInfo.
Proof.
  intros Hwf.
  assert (H : forall l, incl l (node_children testSuiteInfo) ->
            requested testSuiteInfo (map node_id (filter is_suite l)) = l).
  { induction l as [|c l IH]; intros Hl; [reflexivity|].
    assert (Hc : In c (node_children testSuiteInfo))
      by (apply Hl; left; reflexivity).
    destruct (@well_formed_children testSuiteInfo c Hwf Hc) as (Hs & _).
    simpl filter. rewrite Hs. unfold requested. simpl.
    rewrite (@findSuite_top testSuiteInfo c Hwf Hc). simpl. f_equal.
    apply IH. intros x Hx. apply Hl. right. exact Hx. }
  apply H. apply incl_refl.
Qed.

(** The requests of a well-formed tree.  [run] returns; it fires
    run-started first and run-finished last; after the folders block it
    runs, in the order of the children of the root, every top-level suite
    once when the first id is "root", and else the suites of the requested
    ids in the order of the request. *)
Lemma run_in_order (tests : list id) tr :
  well_formed testSuiteInfo = true ->
  let started := tr ++ [Fire (RunStarted tests)] in
  let prepared := started ++ folders_effects foldersCommandArgs world started in
  exists tr',
    run' tests tr = (Returned tt, tr' ++ [Fire RunFinished]) /\
    ((nth_error tests 0 = Some (str "root") ->
      suites_in_order' (node_children testSuiteInfo) prepared tr') /\
     (nth_error tests 0 <> Some (str "root") ->
      suites_in_order' (requested testSuiteInfo tests) prepared tr')).
Proof.
  intros Hwf started prepared.
  destruct (list_eq_dec ascii_dec (match nth_error tests 0 with
                                   | Some first => first | None => [] end)
              (str "root")) as [Hroot|Hroot].
  - destruct tests as [|first rest]; [discriminate|]. simpl in Hroot.
    subst first.
    destruct (@runSuites_in_order
                (map node_id (filter is_suite (node_children testSuiteInfo)))
                Hwf prepared) as (tr' & E & Hord).
    rewrite (requested_children Hwf) in Hord.
    exists tr'. split; [|split; [intros _; exact Hord|]].
    + unfold run. rewrite root_requested.
      unfold bind at 1. unfold emit at 1.
      unfold bind at 1. rewrite prepareFolders_trace.
      unfold bind at 1. rewrite root_loop_is_runSuites.
      fold started. fold prepared. rewrite E. reflexivity.
    + intros H. exfalso. apply H. reflexivity.
  - assert (Hno : nth_error tests 0 <> Some (str "root")).
    { intros E. rewrite E in Hroot. apply Hroot. reflexivity. }
    destruct (@runSuites_in_order tests Hwf prepared) as (tr' & E & Hord).
    exists tr'. split; [|split; [intros H; contradiction | intros _; exact Hord]].
    unfold run. rewrite (other_requested _ Hno).
    unfold bind at 1. unfold emit at 1.
    unfold bind at 1. rewrite prepareFolders_trace.
    unfold bind at 1. fold started. fold prepared. rewrite E. reflexivity.
Qed.

(** X15. Ids that no node below the root carries are skipped without a
    trace: no event, no process and no message. *)
Theorem runSuites_unknown_ids (tests : list id) tr :
  (forall i n, In i tests -> In n (descendants testSuiteInfo) -> node_id n <> i) ->
  runSuites' tests tr = (Returned tt, tr).
Proof.
  unfold runSuites. induction tests as [|i tests IH]; intros H; [reflexivity|].
  simpl. unfold bind, runSuiteOrTest.
  pose proof (findSuite_spec testSuiteInfo i) as Hs.
  destruct (findSuite testSuiteInfo i) as [s|].
  - exfalso. destruct Hs as (_ & Hin & [[Hid Hd]|(t & Ht & Hleaf & Hid)]).
    + apply (H i s); [left; reflexivity | exact Hd | exact Hid].
    + apply (H i t); [left; reflexivity | | exact Hid].
      eapply child_of_node_is_descendant; eauto.
  - unfold ret. apply IH. intros j n Hj. apply H. right. exact Hj.
Qed.

(** X16. [runSuiteExe] fires the running event, builds, and starts the
    executable only when the build reports no error; after a failed build it
    shows the error of make and returns the result of the build.  The
    completed event is fired in both cases. *)
Theorem runSuiteExe_build_then_execute suite file tr :
  node_file suite = Some file ->
  let started := tr ++ [Fire (SuiteEvent (node_id suite) SuiteRunning);
                        Make (buildCommand' file)] in
  match error (world started) with
  | None =>
      runSuiteExe' suite tr =
      (Returned (Some (world (started ++ [Exe (exeCommand' file)]))),
       started ++ [Exe (exeCommand' file);
                   Fire (SuiteEvent (node_id suite) SuiteCompleted)])
  | Some e =>
      runSuiteExe' suite tr =
      (Returned (Some (world started)),
       started ++ [ShowError (str "Cannot build test executable. Make error:"
                              ++ newline ++ e);
                   Fire (SuiteEvent (node_id suite) SuiteCompleted)])
  end.
Proof.
  intros Hfile. cbv zeta.
  rewrite (runSuiteExe_trace _ _ _ _ _ _ tr Hfile).
  unfold suite_result, suite_effects, suite_started.
  destruct (error (world _)) as [e|]; rewrite <- !app_assoc; reflexivity.
Qed.



End Running.

(** C6. In a tree that [run] can search and check (a root over suites with
    distinct ids, each with its file and with tests whose result patterns
    can be built) every request returns, with run-started fired first and
    run-finished last; after the folders block a request whose first element
    is "root" runs every top-level suite once, in the order of the children
    of the root, and any other request runs the suites of the requested ids
    in the order of the request, once for each id that a node carries: each
    of these suites in turn is built and, when the build reported no error,
    executed between its running and its completed event, and what follows
    until the next suite is events of its tests and messages.  The tree
    [Examples.guarded_tree], which [loadTests] builds for two test files, is
    no such tree: the label of its first test is no pattern, and the request
    for the root is rejected in the check of that test, after the first
    suite was built and executed; the second suite is not run and
    run-finished is not fired. *)
Theorem run_requests_in_order :
  (forall P workspacePath testBuildPath testBuildCommandArgs foldersCommandArgs
          world testSuiteInfo (tests : list id) tr,
     well_formed testSuiteInfo = true ->
     let started := tr ++ [Fire (RunStarted tests)] in
     let prepared :=
       started ++ folders_effects foldersCommandArgs world started in
     exists tr',
       run P workspacePath testBuildPath testBuildCommandArgs
           foldersCommandArgs world testSuiteInfo tests tr
       = (Returned tt, tr' ++ [Fire RunFinished]) /\
       ((nth_error tests 0 = Some (str "root") ->
         suites_in_order P workspacePath testBuildPath testBuildCommandArgs
           world (node_children testSuiteInfo) prepared tr') /\
        (nth_error tests 0 <> Some (str "root") ->
         suites_in_order P workspacePath testBuildPath testBuildCommandArgs
           world (requested testSuiteInfo tests) prepared tr')))
  /\ Loader.loadTests Examples.posix (str "/ws") false false Examples.files
       [Examples.guarded_path; Examples.calc_path]
     = Returned Examples.guarded_tree
  /\ well_formed Examples.guarded_tree = false
  /\ run Examples.posix (str "/ws") (str "build") (str "-s") []
         Examples.world_guarded Examples.guarded_tree [str "root"] []
     = (Rejected,
        [Fire (RunStarted [str "root"]);
         Fire (SuiteEvent Examples.guarded_path SuiteRunning);
         Make (str "-s build/guarded_test.exe");
         Exe (quote ++ str "/ws/build/guarded_test.exe" ++ quote);
         Fire (SuiteEvent Examples.guarded_path SuiteCompleted);
         Fire (TestEvent (node_id Examples.test_foo) Running [])]).
Proof.
  split; [|split; [|split]].
  - intros P workspacePath testBuildPath testBuildCommandArgs
      foldersCommandArgs world testSuiteInfo tests tr Hwf.
    apply run_in_order. exact Hwf.
  - vm_compute. reflexivity.
  - vm_compute. reflexivity.
  - vm_compute. reflexivity.
Qed.

Lemma run_requests_in_order_witness :
  Loader.loadTests Examples.posix (str "/ws") false false Examples.readFile
    [Examples.calc_path] = Returned Examples.calc_tree /\
  well_formed Examples.calc_tree = true /\
  let started := [] ++ [Fire (RunStarted [str "root"])] in
  let prepared :=
    started ++ folders_effects (str "folders") Examples.world_ok started in
  exists tr',
    run Examples.posix (str "/ws") (str "build") (str "-s") (str "folders")
        Examples.world_ok Examples.calc_tree [str "root"] []
    = (Returned tt, tr' ++ [Fire RunFinished]) /\
    ((nth_error [str "root"] 0 = Some (str "root") ->
      suites_in_order Examples.posix (str "/ws") (str "build") (str "-s")
        Examples.world_ok (node_children Examples.calc_tree) prepared tr') /\
     (nth_error [str "root"] 0 <> Some (str "root") ->
      suites_in_order Examples.posix (str "/ws") (str "build") (str "-s")
        Examples.world_ok (requested Examples.calc_tree [str "root"])
        prepared tr')).
Proof.
  split; [vm_compute; reflexivity|].
  split; [vm_compute; reflexivity|].
  apply (proj1 run_requests_in_order Examples.posix (str "/ws") (str "build")
           (str "-s") (str "folders") Examples.world_ok Examples.calc_tree
           [str "root"] []).
  vm_compute. reflexivity.
Defined.

Lemma runSuites_unknown_ids_witness :
  (forall i n, In i [str "/ws/test/gone_test.c"; str "root"] ->
               In n (descendants Examples.tree) -> node_id n <> i) /\
  runSuites Examples.posix (str "/ws") (str "build") (str "-s")
            Examples.world_ok Examples.tree
            [str "/ws/test/gone_test.c"; str "root"] []
  = (Returned tt, []).
Proof.
  assert (H : forall i n, In i [str "/ws/test/gone_test.c"; str "root"] ->
                In n (descendants Examples.tree) -> node_id n <> i).
  { intros i n Hi Hn. vm_compute in Hn.
    destruct Hi as [<-|[<-|[]]];
      repeat (destruct Hn as [<-|Hn]; [vm_compute; discriminate|]);
      destruct Hn. }
  split; [exact H|].
  apply (@runSuites_unknown_ids Examples.posix (str "/ws") (str "build")
           (str "-s") Examples.world_ok Examples.tree
           [str "/ws/test/gone_test.c"; str "root"] [] H).
Defined.

Lemma runSuiteExe_build_then_execute_witness :
  node_file Examples.calc_suite = Some Examples.calc_path /\
  let started := [] ++ [Fire (SuiteEvent (node_id Examples.calc_suite) SuiteRunning);
                        Make (buildCommand Examples.posix (str "build") (str "-s")
                                Examples.calc_path)] in
  match error (Examples.world_make_fails started) with
  | None =>
      runSuiteExe Examples.posix (str "/ws") (str "build") (str "-s")
                  Examples.world_make_fails Examples.calc_suite [] =
      (Returned (Some (Examples.world_make_fails
                         (started ++ [Exe (exeCommand Examples.posix (str "/ws")
                                             (str "build") Examples.calc_path)]))),
       started ++ [Exe (exeCommand Examples.posix (str "/ws") (str "build")
                          Examples.calc_path);
                   Fire (SuiteEvent (node_id Examples.calc_suite) SuiteCompleted)])
  | Some e =>
      runSuiteExe Examples.posix (str "/ws") (str "build") (str "-s")
                  Examples.world_make_fails Examples.calc_suite [] =
      (Returned (Some (Examples.world_make_fails started)),
       started ++ [ShowError (str "Cannot build test executable. Make error:"
                              ++ newline ++ e);
                   Fire (SuiteEvent (node_id Examples.calc_suite) SuiteCompleted)])
  end.
Proof.
  split; [reflexivity|].
  apply (@runSuiteExe_build_then_execute Examples.posix (str "/ws") (str "build")
           (str "-s") Examples.world_make_fails Examples.calc_suite
           Examples.calc_path [] eq_refl).
Defined.



End RunFacts.

(** ** A load cycle that succeeds, and the next one *)

Module ReloadFacts.
Import Regex Patterns RegexFacts Spec Scanner Loader Load LoaderFacts LoadFacts.
Import Shape ShapeFacts WatchFacts.

Section Reloading.

Variable P : path_api.
Variable workspacePath projectSourcePath testSourcePath : list ascii.
Variable isPrettyTestLabelEnable isPrettyTestFileLabelEnable : bool.
Variable lookup : list ascii -> entry.
Variable readFile : list ascii -> option (list ascii).

Local Abbreviation load' :=
  (load P workspacePath projectSourcePath testSourcePath
        isPrettyTestLabelEnable isPrettyTestFileLabelEnable lookup readFile).
Local Abbreviation loadTests' :=
  (loadTests P workspacePath isPrettyTestLabelEnable
             isPrettyTestFileLabelEnable readFile).
Local Abbreviation sourceScan :=
  (getFileList P projectSourcePath (lookup projectSourcePath) sourceFileRegex).
Local Abbreviation testScan :=
  (getFileList P testSourcePath (lookup testSourcePath) testSourceRegex).
Local Abbreviation watch := (watchFiles P workspacePath).

Lemma load_unfold a sourceFiles testFiles :
  fst sourceScan = Returned sourceFiles ->
  fst testScan = Returned testFiles ->
  load' a =
  let w1 := watch (watchedFileForAutorunList a) sourceFiles in
  let w2 := watch (fst w1) testFiles in
  let w3 := watch (watchedFileForReloadList a) testFiles in
  let before := [FireLoad LoadStarted] ++ snd sourceScan ++ snd testScan
                ++ snd w1 ++ snd w2 ++ snd w3 in
  let watching :=
    {| testSuiteInfo := testSuiteInfo a;
       watchedFileForAutorunList := fst w2;
       watchedFileForReloadList := fst w3 |} in
  match loadTests' testFiles with
  | Returned suite =>
      (Returned tt,
       {| testSuiteInfo := suite;
          watchedFileForAutorunList := fst w2;
          watchedFileForReloadList := fst w3 |},
       before ++ [FireLoad (LoadFinished suite)])
  | Rejected => (Rejected, watching, before)
  | Diverged => (Diverged, watching, before)
  | Unmodelled => (Unmodelled, watching, before)
  end.
Proof.
  unfold load.
  destruct sourceScan as [o1 shown1]. destruct testScan as [o2 shown2].
  cbn [fst snd]. intros -> ->.
  destruct (watch (watchedFileForAutorunList a) sourceFiles) as [auto1 w1].
  cbn [fst snd].
  destruct (watch auto1 testFiles) as [auto2 w2].
  destruct (watch (watchedFileForReloadList a) testFiles) as [reload w3].
  cbn [fst snd].
  destruct (loadTests' testFiles); reflexivity.
Qed.

(** When a scan is rejected [load] is rejected before any file is watched. *)
Lemma load_scan_rejected a :
  fst sourceScan = Rejected \/
  ((exists sourceFiles, fst sourceScan = Returned sourceFiles) /\
   fst testScan = Rejected) ->
  exists shown,
    load' a = (Rejected, a, [FireLoad LoadStarted] ++ shown) /\
    Forall shows shown.
Proof.
  unfold load.
  pose proof (@getFileList_shows P (lookup projectSourcePath) projectSourcePath
                sourceFileRegex) as S1.
  pose proof (@getFileList_shows P (lookup testSourcePath) testSourcePath
                testSourceRegex) as S2.
  destruct sourceScan as [o1 shown1]. destruct testScan as [o2 shown2].
  cbn [fst snd] in *.
  intros [-> | [[sourceFiles ->] ->]].
  - exists shown1. split; [reflexivity | exact S1].
  - exists (shown1 ++ shown2). split; [reflexivity|].
    apply Forall_app. split; assumption.
Qed.

Lemma loadTests_readable files :
  (forall file, In file files -> exists text, readFile file = Some text) ->
  exists suites,
    loadTests' files = Returned (Suite (str "root") (str "Unity") None suites) /\
    Forall2 suite_of files suites.
Proof.
  intros Hread.
  assert (H : exists suites,
            loadSuites P workspacePath isPrettyTestLabelEnable
                       isPrettyTestFileLabelEnable readFile files
            = Returned suites).
  { induction files as [|file files IH]; [exists []; reflexivity|].
    destruct (Hread file (or_introl eq_refl)) as [text Ht].
    destruct (@loadSuite_spec P workspacePath isPrettyTestLabelEnable
                isPrettyTestFileLabelEnable readFile (fun _ _ => True)
                file text Ht (fun _ _ _ => I)) as (tests & E & _).
    destruct IH as [suites Es]; [intros f Hf; apply Hread; right; exact Hf|].
    eexists. simpl. rewrite E, Es. reflexivity. }
  destruct H as [suites E]. exists suites.
  split; [unfold loadTests; rewrite E; reflexivity|].
  eapply loadSuites_shape. exact E.
Qed.

(** X19. When both scans return and every test file that the scan returns
    can be read, [load] returns: load-started is fired first and
    load-finished last, carrying the new tree, which is also the tree the
    adapter keeps; the tree has one suite for each scanned test file, in the
    order of the scan; in between only error messages of the scans are shown
    and watchers registered.  When a scan is rejected, [load] is rejected
    after load-started and the messages of the scans: the adapter stays as
    it was and no file is watched. *)
Theorem load_readable a :
  (forall sourceFiles testFiles,
     fst (getFileList P projectSourcePath (lookup projectSourcePath)
            sourceFileRegex) = Returned sourceFiles ->
     fst (getFileList P testSourcePath (lookup testSourcePath)
            testSourceRegex) = Returned testFiles ->
     (forall file, In file testFiles ->
                   exists text, readFile file = Some text) ->
     exists suites between,
       let tree := Suite (str "root") (str "Unity") None suites in
       load' a =
         (Returned tt,
          {| testSuiteInfo := tree;
             watchedFileForAutorunList :=
               fst (watch (fst (watch (watchedFileForAutorunList a)
                                      sourceFiles))
                          testFiles);
             watchedFileForReloadList :=
               fst (watch (watchedFileForReloadList a) testFiles) |},
          [FireLoad LoadStarted] ++ between ++ [FireLoad (LoadFinished tree)]) /\
       Forall2 suite_of testFiles suites /\
       Forall (fun x => shows x \/ watches x) between)
  /\
  (fst (getFileList P projectSourcePath (lookup projectSourcePath)
          sourceFileRegex) = Rejected \/
   ((exists sourceFiles,
       fst (getFileList P projectSourcePath (lookup projectSourcePath)
              sourceFileRegex) = Returned sourceFiles) /\
    fst (getFileList P testSourcePath (lookup testSourcePath)
           testSourceRegex) = Rejected) ->
   exists shown,
     load' a = (Rejected, a, [FireLoad LoadStarted] ++ shown) /\
     Forall shows shown).
Proof.
  split; [|apply load_scan_rejected].
  intros sourceFiles testFiles Hs Ht Hread.
  destruct (loadTests_readable _ Hread) as (suites & E & Hshape).
  exists suites.
  exists (snd sourceScan ++ snd testScan
          ++ snd (watch (watchedFileForAutorunList a) sourceFiles)
          ++ snd (watch (fst (watch (watchedFileForAutorunList a)
                                    sourceFiles))
                        testFiles)
          ++ snd (watch (watchedFileForReloadList a) testFiles)).
  cbv zeta.
  rewrite (load_unfold a Hs Ht). cbv zeta. rewrite E.
  split; [|split; [exact Hshape|]].
  - rewrite <- !app_assoc. reflexivity.
  - repeat (apply Forall_app; split);
      first [ eapply Forall_impl; [|apply getFileList_shows]; intros x Hx; left; exact Hx
            | eapply Forall_impl; [|apply watchFiles_watches]; intros x Hx; right; exact Hx ].
Qed.

Lemma watch_twice watched files more :
  watch (fst (watch watched files) ++ more) files
  = (fst (watch watched files) ++ more, []).
Proof.
  apply watchFiles_known.
  destruct (watchFiles_spec P workspacePath files watched)
    as (added & H1 & _ & _ & _ & H5).
  intros file Hf. apply in_or_app. left. rewrite H1. apply H5. exact Hf.
Qed.

(** X20. A second load cycle over the same files registers no watcher and
    leaves both watch lists as the first cycle left them, whether or not the
    cycles succeed: the watchers of a file are registered once however often
    the tests are reloaded. *)
Theorem load_again a :
  let first :=
    load P workspacePath projectSourcePath testSourcePath
         isPrettyTestLabelEnable isPrettyTestFileLabelEnable lookup readFile
         a in
  let second :=
    load P workspacePath projectSourcePath testSourcePath
         isPrettyTestLabelEnable isPrettyTestFileLabelEnable lookup readFile
         (snd (fst first)) in
  watchedFileForAutorunList (snd (fst second))
    = watchedFileForAutorunList (snd (fst first)) /\
  watchedFileForReloadList (snd (fst second))
    = watchedFileForReloadList (snd (fst first)) /\
  (forall f, ~ In (WatchFile f) (snd second)).
Proof.
  cbv zeta.
  assert (Hno : forall f shown,
            Forall shows shown ->
            ~ In (WatchFile f) ([FireLoad LoadStarted] ++ shown)).
  { intros f shown Hs [Hin|Hin]; [discriminate|].
    revert Hin. apply not_in_shows; [exact Hs | discriminate]. }
  destruct (@getFileList_settles P (lookup projectSourcePath) projectSourcePath
              sourceFileRegex) as [[sourceFiles Hs]|Hs].
  2:{ destruct (load_scan_rejected a (or_introl Hs)) as (shown & E & Hshown).
      rewrite E. cbn [fst snd]. rewrite E. cbn [fst snd].
      split; [reflexivity|]. split; [reflexivity|].
      intros f. apply Hno. exact Hshown. }
  destruct (@getFileList_settles P (lookup testSourcePath) testSourcePath
              testSourceRegex) as [[testFiles Ht]|Ht].
  2:{ destruct (load_scan_rejected a
                  (or_intror (conj (ex_intro _ sourceFiles Hs) Ht)))
        as (shown & E & Hshown).
      rewrite E. cbn [fst snd]. rewrite E. cbn [fst snd].
      split; [reflexivity|]. split; [reflexivity|].
      intros f. apply Hno. exact Hshown. }
  set (w1 := watch (watchedFileForAutorunList a) sourceFiles).
  set (w2 := watch (fst w1) testFiles).
  set (w3 := watch (watchedFileForReloadList a) testFiles).
  assert (Hlists : watchedFileForAutorunList (snd (fst (load' a))) = fst w2 /\
                   watchedFileForReloadList (snd (fst (load' a))) = fst w3).
  { rewrite (load_unfold a Hs Ht). cbv zeta.
    destruct (loadTests' testFiles); split; reflexivity. }
  destruct Hlists as [Ha Hr].
  assert (H1 : watch (fst w2) sourceFiles = (fst w2, [])).
  { destruct (watchFiles_spec P workspacePath testFiles (fst w1))
      as (added & E & _).
    fold w2 in E. rewrite E. apply watch_twice. }
  assert (H2 : watch (fst w2) testFiles = (fst w2, [])).
  { pose proof (watch_twice (fst w1) testFiles []) as H.
    rewrite app_nil_r in H. exact H. }
  assert (H3 : watch (fst w3) testFiles = (fst w3, [])).
  { pose proof (watch_twice (watchedFileForReloadList a) testFiles []) as H.
    rewrite app_nil_r in H. exact H. }
  rewrite (load_unfold (snd (fst (load' a))) Hs Ht). cbv zeta.
  rewrite Ha, Hr, H1. cbn [fst snd]. rewrite H2, H3. cbn [fst snd].
  assert (Hbefore : forall f,
            ~ In (WatchFile f)
                 ([FireLoad LoadStarted] ++ snd sourceScan ++ snd testScan
                  ++ [] ++ [] ++ [])).
  { intros f. rewrite !app_nil_r. apply Hno. apply Forall_app.
    split; apply getFileList_shows. }
  destruct (loadTests' testFiles) as [suite| | |]; cbn [fst snd];
    (split; [reflexivity|]); (split; [reflexivity|]); try exact Hbefore.
  intros f Hin. apply in_app_or in Hin. destruct Hin as [Hin|[Hin|[]]].
  - exact (Hbefore f Hin).
  - discriminate.
Qed.

End Reloading.

Lemma load_readable_witness :
  let sourceFiles := [str "/ws/src/calc.c"; str "/ws/src/calc.h"] in
  let testFiles := [str "/ws/test/calc_test.c"] in
  let look := fun path : list ascii =>
                if str_eqb path (str "/ws/test") then
                  Directory [(str "calc_test.c", RegularFile);
                             (str "notes.txt", RegularFile)]
                else Examples.lookup path in
  fst (getFileList Examples.posix (str "/ws/src") (look (str "/ws/src"))
         sourceFileRegex) = Returned sourceFiles /\
  fst (getFileList Examples.posix (str "/ws/test") (look (str "/ws/test"))
         testSourceRegex) = Returned testFiles /\
  (forall file, In file testFiles ->
                exists text, Examples.readFile file = Some text) /\
  exists suites between,
    let tree := Suite (str "root") (str "Unity") None suites in
    load Examples.posix (str "/ws") (str "/ws/src") (str "/ws/test")
         false false look Examples.readFile Examples.fresh =
      (Returned tt,
       {| testSuiteInfo := tree;
          watchedFileForAutorunList :=
            fst (watchFiles Examples.posix (str "/ws")
                   (fst (watchFiles Examples.posix (str "/ws")
                           (watchedFileForAutorunList Examples.fresh)
                           sourceFiles))
                   testFiles);
          watchedFileForReloadList :=
            fst (watchFiles Examples.posix (str "/ws")
                   (watchedFileForReloadList Examples.fresh) testFiles) |},
       [FireLoad LoadStarted] ++ between ++ [FireLoad (LoadFinished tree)]) /\
    Forall2 suite_of testFiles suites /\
    Forall (fun x => shows x \/ watches x) between.
Proof.
  cbv zeta.
  set (look := fun path : list ascii =>
                 if str_eqb path (str "/ws/test") then
                   Directory [(str "calc_test.c", RegularFile);
                              (str "notes.txt", RegularFile)]
                 else Examples.lookup path).
  assert (Hs : fst (getFileList Examples.posix (str "/ws/src")
                      (look (str "/ws/src")) sourceFileRegex)
               = Returned [str "/ws/src/calc.c"; str "/ws/src/calc.h"])
    by (vm_compute; reflexivity).
  assert (Ht : fst (getFileList Examples.posix (str "/ws/test")
                      (look (str "/ws/test")) testSourceRegex)
               = Returned [str "/ws/test/calc_test.c"])
    by (vm_compute; reflexivity).
  assert (H : forall file,
            In file [str "/ws/test/calc_test.c"] ->
            exists text, Examples.readFile file = Some text).
  { intros file [<-|[]]. eexists. vm_compute. reflexivity. }
  split; [exact Hs|]. split; [exact Ht|]. split; [exact H|].
  apply (proj1 (@load_readable Examples.posix (str "/ws") (str "/ws/src")
                  (str "/ws/test") false false look Examples.readFile
                  Examples.fresh) _ _ Hs Ht H).
Defined.

End ReloadFacts.

(** ** The name of the executable *)

Module CommandFacts.
Import Patterns Orchestrator.

Lemma skipn_over_prefix (pre x : list ascii) : skipn (length pre) (pre ++ x) = x.
Proof. induction pre as [|a pre IH]; simpl; auto. Qed.

(** Text is replaced where it first occurs. *)
Lemma replace_first_occurrence (d : ascii) e pre post rep :
  existsb (ascii_eqb d) pre = false ->
  replace_first (pre ++ (d :: e) ++ post) (d :: e) rep = pre ++ rep ++ post.
Proof.
  induction pre as [|a pre IH]; intros Hpre.
  - simpl app at 1.
    assert (Hp : prefixb (d :: e) ((d :: e) ++ post) = true).
    { generalize (d :: e). intros pat.
      induction pat as [|b pat IHp]; simpl; [reflexivity|].
      unfold ascii_eqb. rewrite Ascii.eqb_refl. exact IHp. }
    unfold replace_first. simpl app. simpl app in Hp.
    destruct (prefixb (d :: e) (d :: e ++ post)); [|discriminate].
    change (d :: e ++ post) with ((d :: e) ++ post).
    rewrite skipn_over_prefix. reflexivity.
  - simpl in Hpre. apply orb_false_iff in Hpre. destruct Hpre as [Ha Hpre].
    simpl. rewrite Ha. simpl. f_equal. apply IH. exact Hpre.
Qed.

(** X21. The executable is named by replacing, in the base name of the test
    file, the extension where it first occurs, which need not be at the end:
    with no dot before that occurrence the name is the text before it, the
    extension of executables, and whatever followed. *)
Theorem exeName_first_occurrence P file pre e post :
  basename P file = pre ++ (chr "." :: e) ++ post ->
  extname P file = chr "." :: e ->
  existsb (ascii_eqb (chr ".")) pre = false ->
  exeName P file = pre ++ str ".exe" ++ post.
Proof.
  intros Hb He Hpre. unfold exeName. rewrite Hb, He.
  apply replace_first_occurrence. exact Hpre.
Qed.

Lemma exeName_first_occurrence_witness :
  basename Examples.posix (str "/ws/test/calc.c_test.c")
    = str "calc" ++ (chr "." :: str "c") ++ str "_test.c" /\
  extname Examples.posix (str "/ws/test/calc.c_test.c") = chr "." :: str "c" /\
  existsb (ascii_eqb (chr ".")) (str "calc") = false /\
  exeName Examples.posix (str "/ws/test/calc.c_test.c")
    = str "calc" ++ str ".exe" ++ str "_test.c".
Proof.
  split; [reflexivity|]. split; [reflexivity|]. split; [reflexivity|].
  apply (@exeName_first_occurrence Examples.posix
           (str "/ws/test/calc.c_test.c") (str "calc") (str "c")
           (str "_test.c")); reflexivity.
Defined.

(** X22. A test file without extension gets an executable whose name is the
    extension of executables followed by the whole base name: the empty
    text is replaced at the start. *)
Theorem exeName_without_extension P file :
  extname P file = [] ->
  exeName P file = str ".exe" ++ basename P file.
Proof.
  intros He. unfold exeName. rewrite He.
  destruct (basename P file); reflexivity.
Qed.

Lemma exeName_without_extension_witness :
  extname Examples.posix (str "/ws/test/my_test_cases") = [] /\
  Scanner.test testSourceRegex (str "my_test_cases") = true /\
  exeName Examples.posix (str "/ws/test/my_test_cases")
    = str ".exe" ++ basename Examples.posix (str "/ws/test/my_test_cases").
Proof.
  split; [reflexivity|]. split; [vm_compute; reflexivity|].
  apply (@exeName_without_extension Examples.posix
           (str "/ws/test/my_test_cases")).
  reflexivity.
Defined.

End CommandFacts.

(** ** Result lines of tests with a common tail *)

Module AttributionFacts.
Import Regex Patterns RegexFacts Spec ParserFacts.

Lemma classified_of_result_line n out :
  literal (node_label n) ->
  has_result_line (node_label n) out ->
  classified n out.
Proof.
  intros Hlit (j & ds0 & mid0 & v & Hv & Hline). unfold classified.
  destruct (result_line_matches Hv Hline) as (e & c & Hm).
  assert (Hj : j < length out).
  { destruct Hline as (_ & _ & _ & post & Hs). simpl in Hs.
    eapply skipn_cons_lt; eauto. }
  destruct (@exec_complete _ _ _ 0 _ _ _ Hm) as (mr & Hexec & Hle); [lia|].
  destruct (@exec_some _ _ _ _ _ Hexec) as (_ & _ & _ & Hfirst).
  destruct (@checkTestResult_match n out mr Hlit Hexec) as (ds & mid & Hcase).
  exists (index mr), ds, mid. split; [|exact Hcase].
  intros j' ds' mid' v' Hlt Hv' Hline'.
  destruct (result_line_matches Hv' Hline') as (e' & c' & Hm').
  apply (Hfirst j' e' c'); [lia | exact Hm'].
Qed.

Lemma result_line_tail other label out i ds mid v :
  forallb is_dot other = true ->
  result_line (other ++ label) out i ds mid v ->
  result_line label out i ds (mid ++ other) v.
Proof.
  intros Ho (Hne & Hds & Hmid & post & Hs).
  split; [exact Hne|]. split; [exact Hds|]. split.
  - rewrite forallb_app, Hmid, Ho. reflexivity.
  - exists post. rewrite Hs, <- !app_assoc. reflexivity.
Qed.

(** X23. The result pattern does not ask where the name of the test begins:
    for a test [n] whose label holds no syntax character of the pattern
    grammar, a result line of a test whose name ends with the label of [n]
    is a result line of [n] as well, and [checkTestResult] classifies [n]
    from the output even when no line of the output reports [n] itself. *)
Theorem checkTestResult_name_tail n other out :
  literal (node_label n) ->
  forallb is_dot other = true ->
  has_result_line (other ++ node_label n) out ->
  has_result_line (node_label n) out /\ classified n out.
Proof.
  intros Hlit Ho (i & ds & mid & v & Hv & Hline).
  assert (H : has_result_line (node_label n) out).
  { exists i, ds, (mid ++ other), v. split; [exact Hv|].
    apply result_line_tail; assumption. }
  split; [exact H|]. apply classified_of_result_line; assumption.
Qed.

Lemma checkTestResult_name_tail_witness :
  let out := str "test/calc_test.c:7:test_mul_test_sub:PASS" ++ LF in
  literal (node_label test_sub) /\
  forallb is_dot (str "test_mul_") = true /\
  has_result_line (str "test_mul_" ++ node_label test_sub) out /\
  Parser.checkTestResult test_sub out
    = (Returned tt, [running test_sub; passed test_sub]) /\
  has_result_line (node_label test_sub) out /\ classified test_sub out.
Proof.
  cbv zeta.
  assert (H : has_result_line (str "test_mul_" ++ node_label test_sub)
                (str "test/calc_test.c:7:test_mul_test_sub:PASS" ++ LF)).
  { exists 16, (str "7"), [], PASS. split; [left; reflexivity|].
    split; [discriminate|]. split; [reflexivity|]. split; [reflexivity|].
    exists LF. reflexivity. }
  split; [reflexivity|]. split; [reflexivity|]. split; [exact H|].
  split; [vm_compute; reflexivity|].
  apply (@checkTestResult_name_tail test_sub (str "test_mul_")
           (str "test/calc_test.c:7:test_mul_test_sub:PASS" ++ LF)
           eq_refl eq_refl H).
Defined.

End AttributionFacts.

(** ** Debugging a test *)

Module DebugFacts.
Import Spec Orchestrator Debugger TreeFacts.

Section Debugging.

Variable P : path_api.
Variable testBuildPath : list ascii.
Variable testBuildCommandArgs foldersCommandArgs : list ascii.
Variable world : list debug_action -> RunResult.
Variable startDebugging : list debug_action -> option bool.
Variable testSuiteInfo : node.

Local Abbreviation debug' :=
  (debug P testBuildPath testBuildCommandArgs foldersCommandArgs world
         startDebugging testSuiteInfo).
Local Abbreviation folders := (debugFolders foldersCommandArgs world).
Local Abbreviation build file :=
  (Did (Make (buildCommand P testBuildPath testBuildCommandArgs file))).

Lemma folders_effects : Forall message_or_make folders.
Proof.
  unfold debugFolders. destruct foldersCommandArgs as [|a args]; [constructor|].
  destruct (truthy_error _); repeat constructor;
    eexists; split; try reflexivity;
    first [right; eexists; reflexivity | left; eexists; reflexivity].
Qed.

Lemma not_a_start l c exe :
  Forall message_or_make l -> ~ In (StartDebugging c exe) l.
Proof.
  intros H Hin. rewrite Forall_forall in H.
  destruct (H _ Hin) as (a & E & _). discriminate.
Qed.

Lemma launch_effects cfg suite file g tr :
  node_file suite = Some file ->
  exists after,
    effects (launch P testBuildPath startDebugging cfg suite g tr)
    = tr ++ [StartDebugging cfg (debugTestExecutable P testBuildPath file)]
         ++ after /\
    (after = [] \/ after = [Did (ShowError not_started)]).
Proof.
  intros Hfile. unfold launch. rewrite Hfile. cbv zeta.
  destruct (startDebugging _) as [[|]|]; simpl effects.
  - exists []. split; [reflexivity | left; reflexivity].
  - exists [Did (ShowError not_started)].
    split; [rewrite <- app_assoc; reflexivity | right; reflexivity].
  - exists []. split; [reflexivity | left; reflexivity].
Qed.

(** X24. [debug] starts the debugger only for the suite that contains the
    first requested id, only with a debug configuration, and only right after
    a build of that suite that reported no error; while the debugger is
    started, [getDebugTestExecutable] gives the executable of that suite in
    the build folder. *)
Theorem debug_starts_after_build cfg tests g c exe :
  In (StartDebugging c exe) (effects (debug' cfg tests g)) ->
  c = cfg /\ cfg <> [] /\
  exists first suite file before after,
    nth_error tests 0 = Some first /\
    findSuite testSuiteInfo first = Some suite /\
    node_file suite = Some file /\
    getDebugTestExecutable exe = debugTestExecutable P testBuildPath file /\
    effects (debug' cfg tests g)
      = before ++ [build file; StartDebugging cfg exe] ++ after /\
    error (world (before ++ [build file])) = None /\
    Forall message_or_make before /\ Forall message_or_make after.
Proof.
  unfold debug, debug_try. cbn [effects].
  destruct cfg as [|c0 cfg].
  { cbn [effects]. intros [H|[]]. discriminate. }
  cbv zeta.
  destruct (nth_error tests 0) as [first|] eqn:Hfirst;
    [|intros H; exfalso; revert H; apply not_a_start, folders_effects].
  pose proof (findSuite_spec testSuiteInfo first) as Hspec.
  destruct (findSuite testSuiteInfo first) as [suite|] eqn:Hfind;
    [|intros H; exfalso; revert H; apply not_a_start, folders_effects].
  destruct Hspec as (Hs & _). rewrite Hs.
  destruct (node_file suite) as [file|] eqn:Hfile;
    [|intros H; exfalso; revert H; apply not_a_start, folders_effects].
  destruct (error (world (folders ++ [build file]))) as [e|] eqn:Hbuild.
  { cbn [effects]. intros H. exfalso. revert H. apply not_a_start.
    repeat (apply Forall_app; split); try apply folders_effects;
      repeat constructor; eexists; split; try reflexivity;
      first [right; eexists; reflexivity | left; eexists; reflexivity]. }
  destruct (@launch_effects (c0 :: cfg) suite file g (folders ++ [build file])
              Hfile) as (after & E & Hafter).
  rewrite E. intros Hin.
  assert (Hstart : StartDebugging c exe
                   = StartDebugging (c0 :: cfg)
                       (debugTestExecutable P testBuildPath file)).
  { apply in_app_or in Hin. destruct Hin as [Hin|Hin].
    - exfalso. revert Hin. apply not_a_start.
      apply Forall_app; split; [apply folders_effects|].
      repeat constructor. eexists; split; [reflexivity|].
      right; eexists; reflexivity.
    - simpl in Hin. destruct Hin as [Hin|Hin]; [symmetry; exact Hin|].
      exfalso. destruct Hafter as [->| ->]; simpl in Hin;
        [destruct Hin | destruct Hin as [Hin|[]]; discriminate]. }
  inversion Hstart; subst c exe.
  split; [reflexivity|]. split; [discriminate|].
  exists first, suite, file, folders, after.
  split; [reflexivity|]. split; [exact Hfind|]. split; [exact Hfile|].
  split; [reflexivity|]. split; [rewrite <- app_assoc; reflexivity|].
  split; [exact Hbuild|]. split; [apply folders_effects|].
  destruct Hafter as [->| ->]; repeat constructor.
  eexists; split; [reflexivity|]. left; eexists; reflexivity.
Qed.

(** X25. Whatever happens in [debug], the global is empty again when it
    ends; the ids after the first do not count; without a debug
    configuration nothing happens but the message that asks for one; and an
    empty request or an id that no suite contains ends it after the folders
    step, without a build and without a start of the debugger. *)
Theorem debug_ends cfg tests g :
  global (debug' cfg tests g) = [] /\
  (forall first rest, debug' cfg (first :: rest) g = debug' cfg [first] g) /\
  (cfg = [] ->
   debug' cfg tests g =
   {| outcome_of := Returned tt; global := [];
      effects := [Did (ShowError no_configuration)] |}) /\
  (cfg <> [] ->
   match nth_error tests 0 with
   | Some first => findSuite testSuiteInfo first = None
   | None => True
   end ->
   debug' cfg tests g =
   {| outcome_of := Returned tt; global := []; effects := folders |}).
Proof.
  split; [reflexivity|]. split; [reflexivity|]. split.
  - intros ->. reflexivity.
  - intros Hcfg Hnone. unfold debug, debug_try.
    destruct cfg as [|c0 cfg]; [congruence|]. cbv zeta.
    destruct (nth_error tests 0) as [first|]; [rewrite Hnone|]; reflexivity.
Qed.

End Debugging.

Lemma debug_starts_after_build_witness :
  let d := debug Examples.posix (str "build") (str "-s") []
             (fun _ => Examples.ok (str "gcc")) (fun _ => Some true) Examples.tree
             (str "gdb") [Examples.calc_path ++ str "::test_sub"] [] in
  In (StartDebugging (str "gdb") (str "build/calc_test.exe")) (effects d) /\
  (str "gdb" = str "gdb" /\ str "gdb" <> [] /\
   exists first suite file before after,
     nth_error [Examples.calc_path ++ str "::test_sub"] 0 = Some first /\
     findSuite Examples.tree first = Some suite /\
     node_file suite = Some file /\
     getDebugTestExecutable (str "build/calc_test.exe")
       = debugTestExecutable Examples.posix (str "build") file /\
     effects d
       = before ++ [Did (Make (buildCommand Examples.posix (str "build")
                                 (str "-s") file));
                    StartDebugging (str "gdb") (str "build/calc_test.exe")]
                ++ after /\
     error ((fun _ => Examples.ok (str "gcc"))
              (before ++ [Did (Make (buildCommand Examples.posix (str "build")
                                       (str "-s") file))])) = None /\
     Forall message_or_make before /\ Forall message_or_make after).
Proof.
  cbv zeta.
  assert (H : In (StartDebugging (str "gdb") (str "build/calc_test.exe"))
                (effects (debug Examples.posix (str "build") (str "-s") []
                            (fun _ => Examples.ok (str "gcc")) (fun _ => Some true) Examples.tree
                            (str "gdb")
                            [Examples.calc_path ++ str "::test_sub"] []))).
  { vm_compute. right. left. reflexivity. }
  split; [exact H|].
  apply (@debug_starts_after_build Examples.posix (str "build") (str "-s") []
           (fun _ => Examples.ok (str "gcc")) (fun _ => Some true) Examples.tree (str "gdb")
           [Examples.calc_path ++ str "::test_sub"] []
           (str "gdb") (str "build/calc_test.exe") H).
Defined.

End DebugFacts.

(** ** What the mutexes do guarantee *)

Module LockingFacts.
Import Coordinator Locking.

Lemma domain_eqb_eq a b : domain_eqb a b = true <-> a = b.
Proof. destruct a, b; simpl; split; congruence. Qed.

Lemma domain_eqb_refl a : domain_eqb a a = true.
Proof. destruct a; reflexivity. Qed.

Lemma domain_eqb_neq a b : a <> b -> domain_eqb a b = false.
Proof. destruct a, b; simpl; congruence. Qed.

Lemma domain_eq_dec (a b : domain) : {a = b} + {a <> b}.
Proof. decide equality. Qed.

Lemma nth_error_set_nth {A : Type} (l : list A) : forall t a t',
  nth_error (set_nth t a l) t' =
  if t =? t' then match nth_error l t with
                  | Some _ => Some a
                  | None => None
                  end
  else nth_error l t'.
Proof.
  induction l as [|b l IH]; intros t a t'.
  - simpl. destruct (t =? t'); destruct t, t'; reflexivity.
  - destruct t as [|t], t' as [|t']; simpl; try reflexivity. apply IH.
Qed.

Lemma nth_error_set_phase cs t p t' :
  option_map ph (nth_error (set_phase t p cs) t') =
  if t =? t' then match nth_error cs t with
                  | Some _ => Some p
                  | None => None
                  end
  else option_map ph (nth_error cs t').
Proof.
  unfold set_phase. destruct (nth_error cs t) as [c|] eqn:E.
  - rewrite nth_error_set_nth, E. destruct (t =? t'); reflexivity.
  - destruct (t =? t') eqn:Et; [|reflexivity].
    apply Nat.eqb_eq in Et. subst t'. rewrite E. reflexivity.
Qed.

Lemma nth_error_grant cs t t' :
  option_map ph (nth_error (grant t cs) t') =
  if t =? t' then promote (option_map ph (nth_error cs t'))
  else option_map ph (nth_error cs t').
Proof.
  unfold grant. destruct (nth_error cs t) as [c|] eqn:E.
  - destruct (ph c) as [|d cmd|d cmd|d p] eqn:Ep;
      try (destruct (t =? t') eqn:Et; [|reflexivity];
           apply Nat.eqb_eq in Et; subst t'; rewrite E; simpl; rewrite Ep;
           reflexivity).
    rewrite nth_error_set_phase, E.
    destruct (t =? t') eqn:Et; [|reflexivity].
    apply Nat.eqb_eq in Et. subst t'. rewrite E. simpl. rewrite Ep. reflexivity.
  - destruct (t =? t') eqn:Et; [|reflexivity].
    apply Nat.eqb_eq in Et. subst t'. rewrite E. reflexivity.
Qed.

Lemma mutex_of_with_mutex d mu st d' :
  mutex_of d' (with_mutex d mu st) = if domain_eqb d d' then mu else mutex_of d' st.
Proof. destruct d, d'; reflexivity. Qed.

Lemma mutex_of_with_callers d cs st :
  mutex_of d (with_callers cs st) = mutex_of d st.
Proof. destruct d; reflexivity. Qed.

Lemma callers_with_mutex d mu st : callers (with_mutex d mu st) = callers st.
Proof. destruct d; reflexivity. Qed.

Lemma mutex_of_spawn d cmd st d' : mutex_of d' (spawn d cmd st) = mutex_of d' st.
Proof. destruct d'; reflexivity. Qed.

(** A caller enters: it holds the mutex at once when the mutex is free and
    joins the queue when it is not. *)
Lemma Call_spec t st st' :
  step (Call t) st = Some st' ->
  exists d cmd,
    phase_at st t = Some Idle /\
    (forall d', d' <> d -> mutex_of d' st' = mutex_of d' st) /\
    ((locked (mutex_of d st) = true /\
      mutex_of d st' = {| locked := true; queue := queue (mutex_of d st) ++ [t] |} /\
      forall t', phase_at st' t' =
                 if t =? t' then Some (Waiting d cmd) else phase_at st t')
     \/
     (locked (mutex_of d st) = false /\
      mutex_of d st' = {| locked := true; queue := queue (mutex_of d st) |} /\
      forall t', phase_at st' t' =
                 if t =? t' then Some (Granted d cmd) else phase_at st t')).
Proof.
  unfold step. destruct (nth_error (callers st) t) as [c|] eqn:Ec; [|discriminate].
  destruct c as [p td rs]. destruct p; try discriminate.
  destruct td as [|[d cmd] rest]; [discriminate|].
  unfold acquire.
  assert (Hphase : forall now t',
            phase_at
              (with_callers
                 (set_nth t {| ph := if now : bool then Granted d cmd else Waiting d cmd;
                               todo := rest; results := rs |} (callers st))
                 (with_mutex d
                    (if now then {| locked := true; queue := queue (mutex_of d st) |}
                     else {| locked := true; queue := queue (mutex_of d st) ++ [t] |})
                    st)) t'
            = if t =? t' then Some (if now then Granted d cmd else Waiting d cmd)
              else phase_at st t').
  { intros now t'. unfold phase_at. simpl callers.
    rewrite nth_error_set_nth, Ec. destruct (t =? t'); reflexivity. }
  intros H. exists d, cmd. split; [unfold phase_at; rewrite Ec; reflexivity|].
  destruct (locked (mutex_of d st)) eqn:El; inversion H; subst st'; clear H.
  - split.
    { intros d' Hd. rewrite mutex_of_with_callers, mutex_of_with_mutex.
      rewrite domain_eqb_neq by congruence. reflexivity. }
    left. split; [reflexivity|]. split.
    { rewrite mutex_of_with_callers, mutex_of_with_mutex, domain_eqb_refl.
      reflexivity. }
    exact (Hphase false).
  - split.
    { intros d' Hd. rewrite mutex_of_with_callers, mutex_of_with_mutex.
      rewrite domain_eqb_neq by congruence. reflexivity. }
    right. split; [reflexivity|]. split.
    { rewrite mutex_of_with_callers, mutex_of_with_mutex, domain_eqb_refl.
      reflexivity. }
    exact (Hphase true).
Qed.

(** The holder goes on: its process is started and the mutex released in
    the same step, to the first pending caller if there is one. *)
Lemma Resume_spec t st st' :
  step (Resume t) st = Some st' ->
  exists d cmd,
    phase_at st t = Some (Granted d cmd) /\
    (forall d', d' <> d -> mutex_of d' st' = mutex_of d' st) /\
    ((queue (mutex_of d st) = [] /\
      mutex_of d st' = {| locked := false; queue := [] |} /\
      forall t', phase_at st' t' =
                 if t =? t' then Some (Awaiting d (spawned st))
                 else phase_at st t')
     \/
     (exists t0 q,
        queue (mutex_of d st) = t0 :: q /\
        mutex_of d st' = {| locked := true; queue := q |} /\
        forall t', phase_at st' t' =
                   if t =? t' then Some (Awaiting d (spawned st))
                   else if t0 =? t' then promote (phase_at st t')
                        else phase_at st t')).
Proof.
  unfold step. destruct (nth_error (callers st) t) as [c|] eqn:Ec; [|discriminate].
  destruct c as [p td rs]. destruct p as [|d cmd|d cmd|d q]; try discriminate.
  cbv zeta. unfold release. rewrite mutex_of_spawn.
  intros H. exists d, cmd. split; [unfold phase_at; rewrite Ec; reflexivity|].
  destruct (queue (mutex_of d st)) as [|t0 q] eqn:Eq;
    inversion H; subst st'; clear H.
  - split.
    { intros d' Hd. rewrite mutex_of_with_callers, mutex_of_with_mutex.
      rewrite domain_eqb_neq by congruence. apply mutex_of_spawn. }
    left. split; [reflexivity|]. split.
    { rewrite mutex_of_with_callers, mutex_of_with_mutex, domain_eqb_refl.
      reflexivity. }
    intros t'. unfold phase_at. simpl callers at 1.
    rewrite callers_with_mutex. simpl callers.
    rewrite nth_error_set_phase, Ec. reflexivity.
  - split.
    { intros d' Hd. rewrite mutex_of_with_callers, mutex_of_with_mutex.
      rewrite domain_eqb_neq by congruence. apply mutex_of_spawn. }
    right. exists t0, q. split; [reflexivity|]. split.
    { rewrite mutex_of_with_callers, mutex_of_with_mutex, domain_eqb_refl.
      reflexivity. }
    intros t'. unfold phase_at. simpl callers at 1.
    rewrite callers_with_mutex. simpl callers.
    rewrite nth_error_grant, !nth_error_set_phase, Ec.
    destruct (t =? t') eqn:Et.
    + destruct (t0 =? t'); reflexivity.
    + reflexivity.
Qed.

(** The end of a process changes no mutex and no holder. *)
Lemma Exit_spec p r st st' :
  step (Exit p r) st = Some st' ->
  (forall d, mutex_of d st' = mutex_of d st) /\
  (forall d t, holds d (phase_at st' t) = holds d (phase_at st t) /\
               waits d (phase_at st' t) = waits d (phase_at st t)).
Proof.
  unfold step. destruct (existsb _ (running st)); [|discriminate].
  intros H. inversion H; subst st'; clear H. split.
  - intros []; reflexivity.
  - intros d t. unfold phase_at. simpl callers. rewrite nth_error_map.
    destruct (nth_error (callers st) t) as [c|]; [|split; reflexivity].
    simpl. unfold deliver, awaits.
    destruct (ph c) as [|d1 c1|d1 c1|d1 q] eqn:Ep; simpl;
      rewrite ?Ep; try (split; reflexivity).
    destruct (p =? q); simpl; rewrite ?Ep; split; reflexivity.
Qed.

Lemma invariant_init programs d : mutex_invariant d (init programs).
Proof.
  assert (Hidle : forall t, holds d (phase_at (init programs) t) = false /\
                            waits d (phase_at (init programs) t) = false).
  { intros t. unfold phase_at, init. simpl callers. rewrite nth_error_map.
    destruct (nth_error programs t); split; reflexivity. }
  assert (Hmu : mutex_of d (init programs) = free) by (destruct d; reflexivity).
  unfold mutex_invariant. rewrite Hmu. simpl.
  split; [|split; [|split; [|split]]].
  - intros t1 t2 H. destruct (Hidle t1) as [E _]. congruence.
  - split; [discriminate|]. intros [t H]. destruct (Hidle t) as [E _]. congruence.
  - intros t. split; [intros []|]. intros H. destruct (Hidle t) as [_ E]. congruence.
  - reflexivity.
  - constructor.
Qed.

Lemma holds_not_waits d o : holds d o = true -> waits d o = false.
Proof. destruct o as [[| | |]|]; simpl; congruence. Qed.

Lemma holds_domain d d' cmd : holds d (Some (Granted d' cmd)) = domain_eqb d' d.
Proof. reflexivity. Qed.

Lemma holds_promote d o :
  holds d (promote o) = holds d o || waits d o.
Proof. destruct o as [[| | |]|]; simpl; rewrite ?orb_false_r; reflexivity. Qed.

Lemma waits_promote d o : waits d (promote o) = false.
Proof. destruct o as [[| | |]|]; reflexivity. Qed.

(** Every step keeps the invariant of every mutex. *)
Lemma invariant_step l st st' :
  step l st = Some st' ->
  (forall d, mutex_invariant d st) -> forall d, mutex_invariant d st'.
Proof.
  intros Hstep Hinv d0. destruct l as [t|t|p r].
  - (* a caller enters *)
    destruct (Call_spec _ _ Hstep) as (d & cmd & Hidle & Hother & Hcase).
    destruct (Hinv d0) as (HA & HB & HC & HD & HE).
    assert (Hold : holds d0 (phase_at st t) = false /\
                   waits d0 (phase_at st t) = false)
      by (rewrite Hidle; split; reflexivity).
    destruct Hold as [Hh Hw].
    destruct (domain_eq_dec d0 d) as [->|Hne].
    + destruct Hcase as [(Hl & Hmu & Hph) | (Hl & Hmu & Hph)];
        unfold mutex_invariant; rewrite Hmu; simpl locked; simpl queue.
      * (* the mutex is held: the caller waits *)
        assert (Hsame : forall t', holds d (phase_at st' t') = holds d (phase_at st t')).
        { intros t'. rewrite Hph. destruct (t =? t') eqn:Et; [|reflexivity].
          apply Nat.eqb_eq in Et. subst t'. rewrite Hh. reflexivity. }
        split; [|split; [|split; [|split]]].
        -- intros t1 t2. rewrite !Hsame. apply HA.
        -- split; [intros _|reflexivity].
           destruct (proj1 HB Hl) as [t' Ht']. exists t'. rewrite Hsame. exact Ht'.
        -- intros t'. rewrite Hph, in_app_iff, HC.
           destruct (t =? t') eqn:Et.
           ++ apply Nat.eqb_eq in Et. subst t'. simpl. rewrite domain_eqb_refl.
              split; [reflexivity|]. intros _. right. left. reflexivity.
           ++ apply Nat.eqb_neq in Et. split; [|intros H; left; exact H].
              intros [H|[H|[]]]; [exact H | congruence].
        -- discriminate.
        -- apply NoDup_app; [exact HE | repeat constructor; intros [] |].
           intros x Hx [<-|[]]. apply HC in Hx. congruence.
      * (* the mutex is free: the caller holds it *)
        assert (Hnone : forall t', holds d (phase_at st t') = false).
        { intros t'. destruct (holds d (phase_at st t')) eqn:E; [|reflexivity].
          assert (locked (mutex_of d st) = true) by (apply HB; eauto).
          congruence. }
        split; [|split; [|split; [|split]]].
        -- intros t1 t2. rewrite !Hph.
           destruct (t =? t1) eqn:E1, (t =? t2) eqn:E2;
             rewrite ?Hnone; try discriminate.
           apply Nat.eqb_eq in E1, E2. congruence.
        -- split; [intros _|reflexivity]. exists t. rewrite Hph, Nat.eqb_refl.
           simpl. apply domain_eqb_refl.
        -- intros t'. rewrite Hph, HC. destruct (t =? t') eqn:Et; [|reflexivity].
           apply Nat.eqb_eq in Et. subst t'. rewrite Hw. simpl. reflexivity.
        -- discriminate.
        -- exact HE.
    + (* the other mutex *)
      assert (Hph : forall t', holds d0 (phase_at st' t') = holds d0 (phase_at st t') /\
                               waits d0 (phase_at st' t') = waits d0 (phase_at st t')).
      { intros t'.
        assert (E : phase_at st' t' =
                    if t =? t' then Some (if locked (mutex_of d st)
                                          then Waiting d cmd else Granted d cmd)
                    else phase_at st t').
        { destruct Hcase as [(Hl & _ & Hph) | (Hl & _ & Hph)];
            rewrite Hph, Hl; reflexivity. }
        rewrite E. destruct (t =? t') eqn:Et; [|split; reflexivity].
        apply Nat.eqb_eq in Et. subst t'. rewrite Hh, Hw.
        destruct (locked (mutex_of d st)); simpl;
          rewrite domain_eqb_neq by congruence; split; reflexivity. }
      unfold mutex_invariant. rewrite (Hother d0 Hne).
      split; [|split; [|split; [|split]]]; try assumption.
      * intros t1 t2. rewrite (proj1 (Hph t1)), (proj1 (Hph t2)). apply HA.
      * rewrite HB. split; intros [t' H]; exists t';
          [rewrite (proj1 (Hph t')) | rewrite <- (proj1 (Hph t'))]; exact H.
      * intros t'. rewrite (proj2 (Hph t')). apply HC.
  - (* the holder goes on *)
    destruct (Resume_spec _ _ Hstep) as (d & cmd & Hheld & Hother & Hcase).
    destruct (Hinv d0) as (HA & HB & HC & HD & HE).
    destruct (domain_eq_dec d0 d) as [->|Hne].
    + assert (Hh : holds d (phase_at st t) = true)
        by (rewrite Hheld; simpl; apply domain_eqb_refl).
      assert (Honly : forall t', t' <> t -> holds d (phase_at st t') = false).
      { intros t' Hn. destruct (holds d (phase_at st t')) eqn:E; [|reflexivity].
        exfalso. apply Hn. apply HA; assumption. }
      destruct Hcase as [(Hq & Hmu & Hph) | (t0 & q & Hq & Hmu & Hph)];
        unfold mutex_invariant; rewrite Hmu; simpl locked; simpl queue.
      * (* nobody is pending: the mutex is free *)
        assert (Hnone : forall t', holds d (phase_at st' t') = false).
        { intros t'. rewrite Hph. destruct (t =? t') eqn:Et; [reflexivity|].
          apply Nat.eqb_neq in Et. apply Honly. congruence. }
        split; [|split; [|split; [|split]]].
        -- intros t1 t2 H. rewrite Hnone in H. discriminate.
        -- split; [discriminate|]. intros [t' H]. rewrite Hnone in H. discriminate.
        -- intros t'. split; [intros []|]. rewrite Hph.
           destruct (t =? t') eqn:Et; [discriminate|].
           intros H. apply HC in H. rewrite Hq in H. destruct H.
        -- reflexivity.
        -- constructor.
      * (* the first pending caller gets the mutex *)
        assert (Hw0 : waits d (phase_at st t0) = true)
          by (apply HC; rewrite Hq; left; reflexivity).
        assert (Ht0 : t0 <> t).
        { intros ->. rewrite (holds_not_waits _ _ Hh) in Hw0. discriminate. }
        rewrite Hq in HE. inversion HE as [|x l Hnotin Hnd]; subst x l.
        assert (Hholds : forall t', holds d (phase_at st' t') = (t0 =? t')).
        { intros t'. rewrite Hph. destruct (t =? t') eqn:Et.
          - apply Nat.eqb_eq in Et. subst t'. simpl.
            symmetry. apply Nat.eqb_neq. exact Ht0.
          - apply Nat.eqb_neq in Et. destruct (t0 =? t') eqn:E0.
            + apply Nat.eqb_eq in E0. subst t'.
              rewrite holds_promote, Hw0. apply orb_true_r.
            + apply Honly. congruence. }
        split; [|split; [|split; [|split]]].
        -- intros t1 t2. rewrite !Hholds. intros H1 H2.
           apply Nat.eqb_eq in H1, H2. congruence.
        -- split; [intros _|reflexivity]. exists t0. rewrite Hholds.
           apply Nat.eqb_refl.
        -- intros t'. rewrite Hph. destruct (t =? t') eqn:Et.
           ++ apply Nat.eqb_eq in Et. subst t'. simpl.
              split; [|discriminate]. intros Hin. exfalso.
              assert (Hin' : In t (queue (mutex_of d st)))
                by (rewrite Hq; right; exact Hin).
              apply HC in Hin'. rewrite (holds_not_waits _ _ Hh) in Hin'.
              discriminate.
           ++ destruct (t0 =? t') eqn:E0.
              ** apply Nat.eqb_eq in E0. subst t'. rewrite waits_promote.
                 split; [|discriminate]. intros Hin. contradiction.
              ** apply Nat.eqb_neq in E0. rewrite <- HC, Hq. simpl.
                 split; [intros H; right; exact H|].
                 intros [H|H]; [congruence | exact H].
        -- discriminate.
        -- exact Hnd.
    + (* the other mutex *)
      assert (Hdd : domain_eqb d d0 = false) by (apply domain_eqb_neq; congruence).
      assert (Hph : forall t', holds d0 (phase_at st' t') = holds d0 (phase_at st t') /\
                               waits d0 (phase_at st' t') = waits d0 (phase_at st t')).
      { intros t'.
        assert (Hhere : holds d0 (phase_at st t) = false /\
                        waits d0 (phase_at st t) = false)
          by (rewrite Hheld; simpl; rewrite Hdd; split; reflexivity).
        destruct Hcase as [(Hq & Hmu & Hph) | (t0 & q & Hq & Hmu & Hph)];
          rewrite Hph; destruct (t =? t') eqn:Et;
          try (apply Nat.eqb_eq in Et; subst t';
               destruct Hhere as [-> ->]; split; reflexivity);
          try (split; reflexivity).
        destruct (t0 =? t') eqn:E0; [|split; reflexivity].
        apply Nat.eqb_eq in E0. subst t'.
        destruct (Hinv d) as (_ & _ & HCd & _).
        assert (Hw0 : waits d (phase_at st t0) = true)
          by (apply HCd; rewrite Hq; left; reflexivity).
        destruct (phase_at st t0) as [[|d1 c1|d1 c1|d1 p1]|];
          simpl in Hw0; try discriminate.
        apply domain_eqb_eq in Hw0. subst d1. simpl. rewrite Hdd.
        split; reflexivity. }
      unfold mutex_invariant. rewrite (Hother d0 Hne).
      split; [|split; [|split; [|split]]]; try assumption.
      * intros t1 t2. rewrite (proj1 (Hph t1)), (proj1 (Hph t2)). apply HA.
      * rewrite HB. split; intros [t' H]; exists t';
          [rewrite (proj1 (Hph t')) | rewrite <- (proj1 (Hph t'))]; exact H.
      * intros t'. rewrite (proj2 (Hph t')). apply HC.
  - (* a process ends *)
    destruct (Exit_spec _ _ _ Hstep) as [Hmu Hph].
    destruct (Hinv d0) as (HA & HB & HC & HD & HE).
    unfold mutex_invariant. rewrite (Hmu d0).
    split; [|split; [|split; [|split]]]; try assumption.
    + intros t1 t2. rewrite (proj1 (Hph d0 t1)), (proj1 (Hph d0 t2)). apply HA.
    + rewrite HB. split; intros [t' H]; exists t';
        [rewrite (proj1 (Hph d0 t')) | rewrite <- (proj1 (Hph d0 t'))]; exact H.
    + intros t'. rewrite (proj2 (Hph d0 t')). apply HC.
Qed.

Lemma invariant_steps ls : forall st st',
  steps ls st = Some st' ->
  (forall d, mutex_invariant d st) -> forall d, mutex_invariant d st'.
Proof.
  induction ls as [|l ls IH]; intros st st' H Hinv; simpl in H.
  - inversion H; subst st'. exact Hinv.
  - destruct (step l st) as [st1|] eqn:E; [|discriminate].
    apply (IH st1 st' H). eapply invariant_step; eauto.
Qed.

Lemma invariant_reachable programs st d :
  reachable programs st -> mutex_invariant d st.
Proof.
  intros [ls H]. eapply invariant_steps; eauto.
  intros d'. apply invariant_init.
Qed.

(** X26. However the calls of [runMake] and [runExe] interleave, at most one
    caller at a time is between [acquire] and [release] of a mutex, and the
    mutex is locked exactly while there is such a caller: the lock is never
    left behind. *)
Theorem mutex_exclusion programs st d :
  reachable programs st ->
  (forall t1 t2, holds d (phase_at st t1) = true ->
                 holds d (phase_at st t2) = true -> t1 = t2) /\
  (locked (mutex_of d st) = true <-> exists t, holds d (phase_at st t) = true).
Proof.
  intros H. destruct (invariant_reachable d H) as (HA & HB & _).
  split; assumption.
Qed.

(** X27. A caller whose [acquire] is pending is never stuck: some caller
    holds the mutex, that caller can go on, and when it does the first
    caller of the queue holds the mutex and the others keep their order. *)
Theorem pending_caller_is_served programs st d t :
  reachable programs st ->
  waits d (phase_at st t) = true ->
  exists holder st' first rest,
    holds d (phase_at st holder) = true /\
    step (Resume holder) st = Some st' /\
    queue (mutex_of d st) = first :: rest /\
    In t (first :: rest) /\
    holds d (phase_at st' first) = true /\
    queue (mutex_of d st') = rest.
Proof.
  intros Hr Hw. destruct (invariant_reachable d Hr) as (HA & HB & HC & HD & HE).
  assert (Hin : In t (queue (mutex_of d st))) by (apply HC; exact Hw).
  destruct (locked (mutex_of d st)) eqn:El;
    [|rewrite (HD eq_refl) in Hin; destruct Hin].
  destruct (proj1 HB eq_refl) as [holder Hh].
  assert (Hstep : exists st', step (Resume holder) st = Some st').
  { unfold phase_at in Hh. unfold step.
    destruct (nth_error (callers st) holder) as [[p td rs]|]; [|discriminate].
    simpl in Hh. destruct p; try discriminate.
    cbv zeta. destruct (release _). eexists. reflexivity. }
  destruct Hstep as [st' Hstep].
  destruct (Resume_spec _ _ Hstep) as (d' & cmd & Hheld & _ & Hcase).
  assert (d' = d).
  { rewrite Hheld in Hh. simpl in Hh. apply domain_eqb_eq. exact Hh. }
  subst d'.
  destruct Hcase as [(Hq & _) | (first & rest & Hq & Hmu & Hph)];
    [rewrite Hq in Hin; destruct Hin|].
  exists holder, st', first, rest.
  split; [exact Hh|]. split; [exact Hstep|]. split; [exact Hq|].
  split; [rewrite <- Hq; exact Hin|]. split; [|rewrite Hmu; reflexivity].
  assert (Hw0 : waits d (phase_at st first) = true)
    by (apply HC; rewrite Hq; left; reflexivity).
  rewrite Hph. destruct (holder =? first) eqn:E.
  - apply Nat.eqb_eq in E. subst first.
    rewrite (holds_not_waits _ _ Hh) in Hw0. discriminate.
  - rewrite Nat.eqb_refl, holds_promote, Hw0. apply orb_true_r.
Qed.

Lemma mutex_exclusion_witness :
  exists st,
    steps [Call 0; Call 1] Examples.two_builds = Some st /\
    (forall t1 t2, holds Build (phase_at st t1) = true ->
                   holds Build (phase_at st t2) = true -> t1 = t2) /\
    (locked (mutex_of Build st) = true <->
     exists t, holds Build (phase_at st t) = true).
Proof.
  eexists. split; [vm_compute; reflexivity|].
  apply (@mutex_exclusion
           [[(Build, str "-s build/calc_test.exe")];
            [(Build, str "-s build/io_test.exe")]] _ Build).
  exists [Call 0; Call 1]. vm_compute. reflexivity.
Defined.

Lemma pending_caller_is_served_witness :
  exists st,
    steps [Call 0; Call 1] Examples.two_builds = Some st /\
    waits Build (phase_at st 1) = true /\
    exists holder st' first rest,
      holds Build (phase_at st holder) = true /\
      step (Resume holder) st = Some st' /\
      queue (mutex_of Build st) = first :: rest /\
      In 1 (first :: rest) /\
      holds Build (phase_at st' first) = true /\
      queue (mutex_of Build st') = rest.
Proof.
  eexists. split; [vm_compute; reflexivity|].
  split; [reflexivity|].
  apply (@pending_caller_is_served
           [[(Build, str "-s build/calc_test.exe")];
            [(Build, str "-s build/io_test.exe")]] _ Build 1).
  - exists [Call 0; Call 1]. vm_compute. reflexivity.
  - reflexivity.
Defined.

End LockingFacts.

(** ** Which processes a cancel reaches *)

Module CancelFacts.
Import Coordinator Locking Cancelling LockingFacts.

Lemma slot_with_mutex d mu st d' : slot d' (with_mutex d mu st) = slot d' st.
Proof. destruct d, d'; reflexivity. Qed.

Lemma Call_processes t st st' :
  step (Call t) st = Some st' ->
  running st' = running st /\ spawned st' = spawned st /\
  forall d, slot d st' = slot d st.
Proof.
  unfold step. destruct (nth_error (callers st) t) as [c|]; [|discriminate].
  destruct c as [p td rs]. destruct p; try discriminate.
  destruct td as [|[d cmd] rest]; [discriminate|].
  destruct (acquire t (mutex_of d st)) as [mu now].
  intros H. inversion H; subst st'; clear H.
  destruct d; repeat split; intros []; reflexivity.
Qed.

Lemma Resume_processes t st st' :
  step (Resume t) st = Some st' ->
  exists d cmd,
    running st' = running st ++ [{| pid := spawned st; dom := d; command := cmd |}] /\
    spawned st' = S (spawned st) /\
    slot d st' = Some (spawned st) /\
    forall d', d' <> d -> slot d' st' = slot d' st.
Proof.
  unfold step. destruct (nth_error (callers st) t) as [c|]; [|discriminate].
  destruct c as [p td rs]. destruct p as [|d cmd|d cmd|d q]; try discriminate.
  cbv zeta. destruct (release (mutex_of d (spawn d cmd st))) as [mu next].
  intros H. inversion H; subst st'; clear H.
  exists d, cmd. destruct d; repeat split; intros [] Hd;
    try reflexivity; congruence.
Qed.

Lemma Exit_processes p r st st' :
  step (Exit p r) st = Some st' ->
  running st' = filter (fun q => negb (pid q =? p)) (running st) /\
  spawned st' = spawned st /\
  forall d, slot d st' = slot d st.
Proof.
  unfold step. destruct (existsb _ (running st)); [|discriminate].
  intros H. inversion H; subst st'; clear H.
  repeat split; intros []; reflexivity.
Qed.

Lemma slots_init programs : slot_invariant (init programs).
Proof.
  unfold slot_invariant, init. simpl. split; [|split].
  - intros q [].
  - intros [] p H; discriminate.
  - intros d _ q [].
Qed.

Lemma slots_step l st st' :
  step l st = Some st' -> slot_invariant st -> slot_invariant st'.
Proof.
  intros Hstep (H1 & H2 & H3). destruct l as [t|t|p r].
  - destruct (Call_processes _ _ Hstep) as (Hr & Hs & Hslot).
    unfold slot_invariant. rewrite Hr, Hs.
    split; [exact H1|]. split.
    + intros d p. rewrite Hslot. apply H2.
    + intros d. rewrite Hslot. apply H3.
  - destruct (Resume_processes _ _ Hstep) as (d & cmd & Hr & Hs & Hd & Hother).
    unfold slot_invariant. rewrite Hr, Hs. split; [|split].
    + intros q Hq. apply in_app_or in Hq. destruct Hq as [Hq|[<-|[]]].
      * specialize (H1 q Hq). lia.
      * simpl. lia.
    + intros d' p Hp. destruct (domain_eq_dec d' d) as [->|Hne].
      * rewrite Hd in Hp. inversion Hp; subst p. split; [lia|].
        intros q Hq. apply in_app_or in Hq. destruct Hq as [Hq|[<-|[]]].
        -- specialize (H1 q Hq). split; [lia|]. intros E. lia.
        -- simpl. split; [lia | reflexivity].
      * rewrite (Hother d' Hne) in Hp. destruct (H2 d' p Hp) as [Hlt Hq].
        split; [lia|]. intros q Hin. apply in_app_or in Hin.
        destruct Hin as [Hin|[<-|[]]]; [apply Hq; exact Hin|].
        simpl. split; [congruence | lia].
    + intros d' Hnone. destruct (domain_eq_dec d' d) as [->|Hne]; [congruence|].
      rewrite (Hother d' Hne) in Hnone. intros q Hin. apply in_app_or in Hin.
      destruct Hin as [Hin|[<-|[]]]; [apply (H3 d' Hnone q Hin)|].
      simpl. congruence.
  - destruct (Exit_processes _ _ _ Hstep) as (Hr & Hs & Hslot).
    assert (Hsub : forall q, In q (running st') -> In q (running st)).
    { intros q. rewrite Hr. intros Hq. apply filter_In in Hq. tauto. }
    unfold slot_invariant. rewrite Hs. split; [|split].
    + intros q Hq. apply H1, Hsub, Hq.
    + intros d p0. rewrite Hslot. intros Hp. destruct (H2 d p0 Hp) as [Hlt Hq].
      split; [exact Hlt|]. intros q Hin. apply Hq, Hsub, Hin.
    + intros d. rewrite Hslot. intros Hnone q Hin. apply (H3 d Hnone q), Hsub, Hin.
Qed.

Lemma slots_reachable programs st : reachable programs st -> slot_invariant st.
Proof.
  intros [ls H]. revert H. generalize (slots_init programs).
  generalize (init programs). induction ls as [|l ls IH]; intros st0 Hinv H.
  - inversion H; subst st. exact Hinv.
  - simpl in H. destruct (step l st0) as [st1|] eqn:E; [|discriminate].
    apply (IH st1); [eapply slots_step; eauto | exact H].
Qed.

(** X28. [cancel] kills at most one process of each domain, and a running
    process that it kills is the one of its domain that was started last:
    when processes of a domain run together, the earlier ones are out of its
    reach. *)
Theorem cancel_reaches_newest programs st q :
  reachable programs st ->
  In q (running st) ->
  In (pid q) (cancel st) ->
  slot (dom q) st = Some (pid q) /\
  (forall q', In q' (running st) -> dom q' = dom q -> pid q' <= pid q) /\
  length (cancel st) <= 2.
Proof.
  intros Hr Hq Hin. destruct (slots_reachable Hr) as (H1 & H2 & H3).
  assert (Hslot : exists d, slot d st = Some (pid q)).
  { unfold cancel in Hin. apply in_app_or in Hin. destruct Hin as [Hin|Hin].
    - exists Build. simpl. destruct (makeProcess st); [|destruct Hin].
      destruct Hin as [->|[]]. reflexivity.
    - exists Execute. simpl. destruct (suiteProcess st); [|destruct Hin].
      destruct Hin as [->|[]]. reflexivity. }
  destruct Hslot as [d Hd]. destruct (H2 d _ Hd) as [_ Hall].
  assert (dom q = d) by (apply (Hall q Hq); reflexivity). subst d.
  split; [exact Hd|]. split.
  - intros q' Hq' Hdom. apply (Hall q' Hq'). exact Hdom.
  - unfold cancel. rewrite length_app.
    destruct (makeProcess st), (suiteProcess st); simpl; lia.
Qed.

Lemma cancel_reaches_newest_witness :
  exists st,
    steps [Call 0; Resume 0; Call 1; Resume 1] Examples.two_builds = Some st /\
    length (running_in Build st) = 2 /\
    cancel st = [1] /\
    let q := {| pid := 1; dom := Build; command := str "-s build/io_test.exe" |} in
    In q (running st) /\
    In (pid q) (cancel st) /\
    slot (dom q) st = Some (pid q) /\
    (forall q', In q' (running st) -> dom q' = dom q -> pid q' <= pid q) /\
    length (cancel st) <= 2.
Proof.
  eexists. split; [vm_compute; reflexivity|].
  split; [reflexivity|]. split; [reflexivity|]. cbv zeta.
  split; [right; left; reflexivity|]. split; [left; reflexivity|].
  apply (@cancel_reaches_newest
           [[(Build, str "-s build/calc_test.exe")];
            [(Build, str "-s build/io_test.exe")]] _
           {| pid := 1; dom := Build; command := str "-s build/io_test.exe" |}).
  - exists [Call 0; Resume 0; Call 1; Resume 1]. vm_compute. reflexivity.
  - right. left. reflexivity.
  - left. reflexivity.
Defined.

End CancelFacts.
